(** * Job ingestion and enrichment pipeline

    A shallow embedding of the ingestion pipeline of the jobs backend:
    [app/services/ingestion_service.py], [app/services/enrichment_service.py],
    the parts of [app/adapters/supabase_adapter.py] they call, the cron lock
    of [app/scheduler.py] and the re-enrichment sweep of
    [app/routers/admin.py].

    Async functions are embedded as computations in a state-and-exception
    monad over an explicit database state.  Every call that leaves the
    process (database, generation model, embedding model) is recorded in a
    trace and may raise, as dictated by a fault script carried in the state;
    the theorems quantify over all scripts. *)

From Stdlib Require Import String Ascii List ZArith NArith Lia Bool Arith.
From stdpp Require Import base tactics option list strings pretty gmap.
Import ListNotations.

(** ** hashlib.sha256 *)

Module SHA256.
Local Open Scope N_scope.

Definition mask32 : N := 4294967295.
Definition add32 (x y : N) : N := N.land (x + y) mask32.
Definition shr (n x : N) : N := N.shiftr x n.
Definition rotr (n x : N) : N :=
  N.lor (N.shiftr x n) (N.land (N.shiftl x (32 - n)) mask32).
Definition not32 (x : N) : N := N.lxor x mask32.

Definition Ch (x y z : N) : N := N.lxor (N.land x y) (N.land (not32 x) z).
Definition Maj (x y z : N) : N :=
  N.lxor (N.lxor (N.land x y) (N.land x z)) (N.land y z).
Definition Sigma0 (x : N) : N := N.lxor (N.lxor (rotr 2 x) (rotr 13 x)) (rotr 22 x).
Definition Sigma1 (x : N) : N := N.lxor (N.lxor (rotr 6 x) (rotr 11 x)) (rotr 25 x).
Definition sigma0 (x : N) : N := N.lxor (N.lxor (rotr 7 x) (rotr 18 x)) (shr 3 x).
Definition sigma1 (x : N) : N := N.lxor (N.lxor (rotr 17 x) (rotr 19 x)) (shr 10 x).

(* The round constants are the first 32 fractional bits of the cube
   roots of the first 64 primes, the initial state those of the square
   roots of the first 8; both are computed rather than tabulated. *)
Definition is_prime (n : nat) : bool :=
  forallb (fun d => negb (Nat.eqb (n mod d) 0)) (seq 2 (n - 2)).
Definition primes64 : list N :=
  Eval vm_compute in map N.of_nat (filter is_prime (seq 2 310)).

Fixpoint icbrt_bits (i : nat) (n r : N) : N :=
  match i with
  | O => r
  | S i' =>
      let c := r + N.shiftl 1 (N.of_nat i') in
      icbrt_bits i' n (if c * c * c <=? n then c else r)
  end.
Definition frac_cbrt32 (p : N) : N := N.land (icbrt_bits 48 (N.shiftl p 96) 0) mask32.
Definition frac_sqrt32 (p : N) : N := N.land (N.sqrt (N.shiftl p 64)) mask32.

Definition K : list N := Eval vm_compute in map frac_cbrt32 primes64.
Definition H0 : list N := Eval vm_compute in map frac_sqrt32 (firstn 8 primes64).

(* Message padding: a 1 bit, zeros up to 56 mod 64 bytes, then the bit
   length as a 64-bit big-endian integer. *)
Definition be_bytes (k : nat) (x : N) : list N :=
  map (fun i => N.land (N.shiftr x (8 * N.of_nat i)) 255) (rev (seq 0 k)).
Definition pad (msg : list N) : list N :=
  let len := List.length msg in
  let zeros := ((64 - (len + 9) mod 64) mod 64)%nat in
  msg ++ [128] ++ repeat 0 zeros ++ be_bytes 8 (8 * N.of_nat len).

Fixpoint be_words (fuel : nat) (bs : list N) : list N :=
  match fuel, bs with
  | S fuel', b0 :: b1 :: b2 :: b3 :: rest =>
      (N.shiftl b0 24 + N.shiftl b1 16 + N.shiftl b2 8 + b3) :: be_words fuel' rest
  | _, _ => []
  end.

Fixpoint blocks (fuel : nat) (ws : list N) : list (list N) :=
  match fuel, ws with
  | S fuel', _ :: _ => firstn 16 ws :: blocks fuel' (skipn 16 ws)
  | _, _ => []
  end.

(* Message schedule, most recent word first. *)
Fixpoint schedule (n : nat) (w : list N) : list N :=
  match n with
  | O => w
  | S n' =>
      let x := add32 (add32 (sigma1 (nth 1 w 0)) (nth 6 w 0))
                     (add32 (sigma0 (nth 14 w 0)) (nth 15 w 0)) in
      schedule n' (x :: w)
  end.

Definition state : Type := N * N * N * N * N * N * N * N.

Definition round (s : state) (kw : N * N) : state :=
  let '(a, b, c, d, e, f, g, h) := s in
  let t1 := add32 (add32 (add32 h (Sigma1 e)) (add32 (Ch e f g) (fst kw))) (snd kw) in
  let t2 := add32 (Sigma0 a) (Maj a b c) in
  (add32 t1 t2, a, b, c, add32 d t1, e, f, g).

Definition compress (s : state) (block : list N) : state :=
  let w := rev (schedule 48 (rev block)) in
  let '(a, b, c, d, e, f, g, h) := fold_left round (combine K w) s in
  let '(a0, b0, c0, d0, e0, f0, g0, h0) := s in
  (add32 a0 a, add32 b0 b, add32 c0 c, add32 d0 d,
   add32 e0 e, add32 f0 f, add32 g0 g, add32 h0 h).

Definition init : state :=
  let h (i : nat) := nth i H0 0 in
  (h 0%nat, h 1%nat, h 2%nat, h 3%nat, h 4%nat, h 5%nat, h 6%nat, h 7%nat).

Definition digest (msg : list N) : state :=
  let bs := pad msg in
  let ws := be_words (List.length bs) bs in
  fold_left compress (blocks (List.length ws) ws) init.

Definition hexdigit (x : N) : ascii :=
  nth (N.to_nat (N.land x 15)) (list_ascii_of_string "0123456789abcdef") "0"%char.
Definition hex8 (x : N) (tail : string) : string :=
  String (hexdigit (N.shiftr x 28)) (String (hexdigit (N.shiftr x 24))
 (String (hexdigit (N.shiftr x 20)) (String (hexdigit (N.shiftr x 16))
 (String (hexdigit (N.shiftr x 12)) (String (hexdigit (N.shiftr x 8))
 (String (hexdigit (N.shiftr x 4)) (String (hexdigit x) tail))))))).

(* hashlib.sha256(s.encode()).hexdigest(): the string is taken as its
   UTF-8 byte sequence. *)
Definition hexdigest (s : string) : string :=
  let '(a, b, c, d, e, f, g, h) :=
    digest (map N_of_ascii (list_ascii_of_string s)) in
  hex8 a (hex8 b (hex8 c (hex8 d (hex8 e (hex8 f (hex8 g (hex8 h "")))))))%string.
End SHA256.
Arguments SHA256.hexdigest s : simpl never.

(** ** Exceptions and the effect monad *)

(** A Python exception, an instance of [Exception]: its class name and
    [str(exc)].  Task cancellation and interpreter exits, which an
    [except Exception] clause lets through, are outside the model. *)
Record Exn := { exn_type : string; exn_msg : string }.

(** [KeyError(key)], raised by [d[key]]: its [str] is the [repr] of the
    key, which for the keys the code reads (plain identifiers) is the key
    between single quotes. *)
Definition KeyError (key : string) : Exn :=
  {| exn_type := "KeyError"; exn_msg := "'" +:+ key +:+ "'" |}.
Definition APIError (msg : string) : Exn :=
  {| exn_type := "APIError"; exn_msg := msg |}.

(** [traceback.format_exc()] inside an [except] block. *)
Definition format_exc (e : Exn) : string :=
  "Traceback (most recent call last): " +:+ exn_type e +:+ ": " +:+ exn_msg e.

Inductive Outcome (A : Type) : Type :=
| Ok (a : A)
| Raise (e : Exn).
Arguments Ok {A} a.
Arguments Raise {A} e.

(** A computation over a state [Σ] that returns or raises; the state
    survives a raise, as mutations made before a Python exception do. *)
Definition M (Σ A : Type) : Type := Σ -> Outcome A * Σ.

Definition ret {Σ A} (a : A) : M Σ A := fun s => (Ok a, s).
Definition raise {Σ A} (e : Exn) : M Σ A := fun s => (Raise e, s).
Definition bind {Σ A B} (m : M Σ A) (k : A -> M Σ B) : M Σ B :=
  fun s =>
    match m s with
    | (Ok a, s') => k a s'
    | (Raise e, s') => (Raise e, s')
    end.

(** [try: body / except Exception as e: handler e]. *)
Definition try_except {Σ A} (body : M Σ A) (handler : Exn -> M Σ A) : M Σ A :=
  fun s =>
    match body s with
    | (Ok a, s') => (Ok a, s')
    | (Raise e, s') => handler e s'
    end.

Declare Scope monad_scope.
Delimit Scope monad_scope with M.
Notation "x <- y ;; z" := (bind y (fun x => z))
  (at level 20, y at level 99, z at level 200) : monad_scope.
Notation "y ;; z" := (bind y (fun _ => z))
  (at level 100, z at level 200, right associativity) : monad_scope.
Open Scope monad_scope.

(** [d[key]] on a dict in which the key may be absent. *)
Definition getitem {Σ A} (key : string) (v : option A) : M Σ A :=
  match v with
  | Some a => ret a
  | None => raise (KeyError key)
  end.

(** Run a computation on the second component of a pair of states: the
    first component holds the caller's local variables. *)
Definition liftW {L W A} (m : M W A) : M (L * W) A :=
  fun s =>
    let (r, w') := m (snd s) in (r, (fst s, w')).

(** Update the local variables. *)
Definition modify_local {L W} (f : L -> L) : M (L * W) unit :=
  fun s => (Ok tt, (f (fst s), snd s)).

(** ** Data model *)

(** An embedding vector.  The pipeline stores, copies and null-tests the
    vector and never computes with its components, which are kept here as
    integers standing for the float bit patterns. *)
Definition Embedding : Type := list Z.

(** [InterviewQuestion] of [app/domain/models.py]; [model_dump] yields a
    dict with the same two keys. *)
Record InterviewQuestion := {
  question : string;
  answer_strategy : string;
}.

(** [AIEnrichment] of [app/domain/models.py]. *)
Record AIEnrichment := {
  resume_guide : list string;
  prep_questions : list InterviewQuestion;
  extracted_skills : list string;
  estimated_salary_range : option string;
}.

(** A dict returned by [ScraperPort.fetch_jobs]; [None] is an absent key. *)
Record RawPosting := {
  rp_external_id : option string;
  rp_title : option string;
  rp_description_raw : option string;
  rp_skills_required : option (list string);
  rp_company_name : option string;
  rp_external_apply_url : option string;
}.

(** A row of the [jobs] table; [None] is SQL null. *)
Record JobRecord := {
  j_id : nat;
  j_provider_id : string;
  j_title : string;
  j_description_raw : string;
  j_skills_required : option (list string);
  j_external_id : option string;
  j_external_apply_url : option string;
  j_company_name : option string;
  j_description_hash : option string;
  j_status : string;
  j_resume_guide_generated : option (list string);
  j_prep_guide_generated : option (list InterviewQuestion);
  j_embedding : option Embedding;
  j_salary_range : option string;
}.

(** The dict passed to [update_job]: [None] is an absent key, [Some v]
    overwrites the column with [v] (which may itself be null). *)
Record JobPatch := {
  p_resume_guide_generated : option (option (list string));
  p_prep_guide_generated : option (option (list InterviewQuestion));
  p_skills_required : option (option (list string));
  p_embedding : option (option Embedding);
  p_salary_range : option (option string);
  p_status : option string;
}.

(** A row of the [scraping_logs] table. *)
Record LogRow := {
  l_id : nat;
  l_source_name : string;
  l_status : string;
  l_started_at : nat;
  l_finished_at : option nat;
  l_jobs_found : option nat;
  l_jobs_new : option nat;
  l_jobs_skipped : option nat;
  l_error_count : option nat;
  l_error_message : option string;
  l_traceback : option string;
}.

(** The dict passed to [update_scraping_log]. *)
Record LogPatch := {
  lp_status : option string;
  lp_jobs_found : option nat;
  lp_jobs_new : option nat;
  lp_jobs_skipped : option nat;
  lp_error_count : option nat;
  lp_error_message : option string;
  lp_traceback : option string;
  lp_finished_at : option nat;
}.

(** The dict passed to [create_job] by the ingestion service. *)
Record JobInsert := {
  i_provider_id : string;
  i_title : string;
  i_description_raw : string;
  i_skills_required : list string;
  i_external_id : string;
  i_external_apply_url : option string;
  i_company_name : string;
  i_description_hash : option string;
  i_status : string;
}.

(** The stats dict of [ingest_jobs]; [error] is the key added on the
    fetch-failure return. *)
Record Stats := {
  fetched : nat;
  new : nat;
  skipped : nat;
  errors : nat;
  dedup_hits : nat;
  error : option string;
}.

(** ** The outside world *)

(** A call that leaves the process, or a pause. *)
Inductive Event :=
| EvInsertLog (source_name : string)
| EvUpdateLog (log_id : nat) (data : LogPatch)
| EvFetch (source_name : string)
| EvFindByExternalId (company_name external_id : string)
| EvCreateJob (data : JobInsert)
| EvFindByHash (description_hash : string)
| EvGetJob (job_id : nat)
| EvUpdateJob (job_id : nat) (data : JobPatch)
| EvSelectJobs
| EvGenerate (description : string) (skills : list string)
             (title : string) (company_name : option string)
| EvEncode (text : string)
| EvSleep (secs : nat).

(** The database tables the pipeline touches, a clock, the script of
    faults still to come (one entry per call to the store or to a model,
    [Some e] makes the call raise [e]; an exhausted script means no more
    faults), and the trace of what was done outside so far, most recent
    first.  The fetch takes its outcome from the scraper, not from the
    script. *)
Record World := {
  jobs : list JobRecord;
  scraping_logs : list LogRow;
  clock : nat;
  faults : list (option Exn);
  trace : list Event;
}.

Definition set_jobs (js : list JobRecord) (w : World) : World :=
  {| jobs := js; scraping_logs := scraping_logs w; clock := clock w;
     faults := faults w; trace := trace w |}.

Definition set_scraping_logs (ls : list LogRow) (w : World) : World :=
  {| jobs := jobs w; scraping_logs := ls; clock := clock w;
     faults := faults w; trace := trace w |}.

Definition gets {A} (f : World -> A) : M World A := fun w => (Ok (f w), w).
Definition modify (f : World -> World) : M World unit := fun w => (Ok tt, f w).

(** An outgoing call: it is traced, takes one unit of time, consumes one
    entry of the fault script, and raises if that entry says so. *)
Definition ticked (ev : Event) (w : World) : World :=
  {| jobs := jobs w; scraping_logs := scraping_logs w; clock := S (clock w);
     faults := tail (faults w); trace := ev :: trace w |}.

Definition call (ev : Event) : M World unit :=
  fun w =>
    (match faults w with
     | Some e :: _ => Raise e
     | _ => Ok tt
     end, ticked ev w).
Arguments call ev w : simpl never.

(** [datetime.now(timezone.utc)]. *)
Definition datetime_now : M World nat := gets clock.

(** [asyncio.sleep]. *)
Definition sleep (secs : nat) : M World unit :=
  fun w =>
    (Ok tt, {| jobs := jobs w; scraping_logs := scraping_logs w;
               clock := secs + clock w; faults := faults w;
               trace := EvSleep secs :: trace w |}).

(** Python truthiness of a string, a list, and an optional list. *)
Definition truthy_str (s : string) : bool := bool_decide (s <> "").
Definition truthy_list {A} (l : list A) : bool :=
  match l with [] => false | _ :: _ => true end.
Definition truthy_opt_list {A} (o : option (list A)) : bool :=
  match o with Some l => truthy_list l | None => false end.

(** [str.lower] on ASCII text: the letters A to Z are lowered and every
    other byte is kept.  [str.lower] lowers the upper-case letters
    outside ASCII too, so the two agree on ASCII text and differ on text
    with such letters. *)
Definition lower_ascii (c : ascii) : ascii :=
  let n := nat_of_ascii c in
  if (65 <=? n) && (n <=? 90) then ascii_of_nat (n + 32) else c.
Fixpoint lower (s : string) : string :=
  match s with
  | EmptyString => EmptyString
  | String c s' => String (lower_ascii c) (lower s')
  end.

(** A Supabase-generated primary key: fresh for the table. *)
Definition fresh_id (ids : list nat) : nat := S (fold_right Nat.max 0 ids).

(** ** SupabaseAdapter *)

(** [.maybe_single().execute()]: no row gives [None], one row gives the
    row, and several rows make the client raise. *)
Definition maybe_single {A} (rows : list A) : M World (option A) :=
  match rows with
  | [] => ret None
  | [r] => ret (Some r)
  | _ :: _ :: _ => raise (APIError "Missing response")
  end.

(** [.eq("company_name", company_name).eq("external_id", external_id)]. *)
Definition same_identity (company_name external_id : string) (j : JobRecord) : Prop :=
  j_company_name j = Some company_name /\ j_external_id j = Some external_id.

#[export] Instance same_identity_dec c e j : Decision (same_identity c e j).
Proof. unfold same_identity. apply _. Defined.

(** The row an insert creates: the columns the dict does not name take
    their default, null. *)
Definition row_of_insert (new_id : nat) (data : JobInsert) : JobRecord :=
  {| j_id := new_id;
     j_provider_id := i_provider_id data;
     j_title := i_title data;
     j_description_raw := i_description_raw data;
     j_skills_required := Some (i_skills_required data);
     j_external_id := Some (i_external_id data);
     j_external_apply_url := i_external_apply_url data;
     j_company_name := Some (i_company_name data);
     j_description_hash := i_description_hash data;
     j_status := i_status data;
     j_resume_guide_generated := None;
     j_prep_guide_generated := None;
     j_embedding := None;
     j_salary_range := None |}.

Definition create_job (data : JobInsert) : M World JobRecord :=
  call (EvCreateJob data) ;;
  js <- gets jobs ;;
  let row := row_of_insert (fresh_id (map j_id js)) data in
  modify (set_jobs (js ++ [row])) ;;
  ret row.

Definition get_job (job_id : nat) : M World (option JobRecord) :=
  call (EvGetJob job_id) ;;
  js <- gets jobs ;;
  maybe_single (filter (fun j => j_id j = job_id) js).

Definition apply_patch (data : JobPatch) (j : JobRecord) : JobRecord :=
  {| j_id := j_id j;
     j_provider_id := j_provider_id j;
     j_title := j_title j;
     j_description_raw := j_description_raw j;
     j_skills_required := default (j_skills_required j) (p_skills_required data);
     j_external_id := j_external_id j;
     j_external_apply_url := j_external_apply_url j;
     j_company_name := j_company_name j;
     j_description_hash := j_description_hash j;
     j_status := default (j_status j) (p_status data);
     j_resume_guide_generated :=
       default (j_resume_guide_generated j) (p_resume_guide_generated data);
     j_prep_guide_generated :=
       default (j_prep_guide_generated j) (p_prep_guide_generated data);
     j_embedding := default (j_embedding j) (p_embedding data);
     j_salary_range := default (j_salary_range j) (p_salary_range data) |}.

Definition update_job (job_id : nat) (data : JobPatch) : M World unit :=
  call (EvUpdateJob job_id data) ;;
  modify (fun w =>
    set_jobs (map (fun j => if decide (j_id j = job_id) then apply_patch data j else j)
                  (jobs w)) w).

Definition find_job_by_external_id (company_name external_id : string)
  : M World (option JobRecord) :=
  call (EvFindByExternalId company_name external_id) ;;
  js <- gets jobs ;;
  maybe_single (filter (same_identity company_name external_id) js).

(** [.eq("description_hash", description_hash).not_.is_("embedding", "null")];
    the query has no ORDER BY and [.limit(1)] is taken in table order. *)
Definition donor_candidate (description_hash : string) (j : JobRecord) : Prop :=
  j_description_hash j = Some description_hash /\ is_Some (j_embedding j).

#[export] Instance donor_candidate_dec h j : Decision (donor_candidate h j).
Proof. unfold donor_candidate. apply _. Defined.

Definition find_job_by_description_hash (description_hash : string)
  : M World (option JobRecord) :=
  call (EvFindByHash description_hash) ;;
  js <- gets jobs ;;
  maybe_single (firstn 1 (filter (donor_candidate description_hash) js)).

Definition insert_scraping_log (source_name status : string) (started_at : nat)
  : M World LogRow :=
  call (EvInsertLog source_name) ;;
  ls <- gets scraping_logs ;;
  let row :=
    {| l_id := fresh_id (map l_id ls); l_source_name := source_name;
       l_status := status; l_started_at := started_at; l_finished_at := None;
       l_jobs_found := None; l_jobs_new := None; l_jobs_skipped := None;
       l_error_count := None; l_error_message := None; l_traceback := None |} in
  modify (set_scraping_logs (ls ++ [row])) ;;
  ret row.

Definition apply_log_patch (data : LogPatch) (l : LogRow) : LogRow :=
  {| l_id := l_id l;
     l_source_name := l_source_name l;
     l_status := default (l_status l) (lp_status data);
     l_started_at := l_started_at l;
     l_finished_at := from_option Some (l_finished_at l) (lp_finished_at data);
     l_jobs_found := from_option Some (l_jobs_found l) (lp_jobs_found data);
     l_jobs_new := from_option Some (l_jobs_new l) (lp_jobs_new data);
     l_jobs_skipped := from_option Some (l_jobs_skipped l) (lp_jobs_skipped data);
     l_error_count := from_option Some (l_error_count l) (lp_error_count data);
     l_error_message := from_option Some (l_error_message l) (lp_error_message data);
     l_traceback := from_option Some (l_traceback l) (lp_traceback data) |}.

Definition update_scraping_log (log_id : nat) (data : LogPatch) : M World unit :=
  call (EvUpdateLog log_id data) ;;
  modify (fun w =>
    set_scraping_logs
      (map (fun l => if decide (l_id l = log_id) then apply_log_patch data l else l)
           (scraping_logs w)) w).

(** ** Capability ports *)

(** The generation and embedding models are not functions of their
    arguments alone: the answer may also depend on when the call is made. *)
Record AIPort := {
  generate_enrichment :
    nat -> string -> list string -> string -> option string -> AIEnrichment;
}.

Record EmbeddingPort := {
  encode : nat -> string -> Embedding;
}.

(** A scraper and what its one [fetch_jobs] call of the run does. *)
Record ScraperPort := {
  COMPANY_NAME : string;
  fetch_jobs : Outcome (list RawPosting);
}.

Definition ai_generate (ai : AIPort) (description : string) (skills : list string)
    (title : string) (company_name : option string) : M World AIEnrichment :=
  t <- gets clock ;;
  call (EvGenerate description skills title company_name) ;;
  ret (generate_enrichment ai t description skills title company_name).

Definition emb_encode (emb : EmbeddingPort) (text : string) : M World Embedding :=
  t <- gets clock ;;
  call (EvEncode text) ;;
  ret (encode emb t text).

Definition fetched_world (scraper : ScraperPort) (w : World) : World :=
  {| jobs := jobs w; scraping_logs := scraping_logs w; clock := S (clock w);
     faults := faults w; trace := EvFetch (COMPANY_NAME scraper) :: trace w |}.

Definition scraper_fetch (scraper : ScraperPort) : M World (list RawPosting) :=
  fun w => (fetch_jobs scraper, fetched_world scraper w).

(** ** EnrichmentService *)

Record EnrichmentService := {
  _ai : AIPort;
  _emb : EmbeddingPort;
}.

Definition enrichment_patch (enrichment : AIEnrichment) (final_skills : list string)
    (embedding : Embedding) : JobPatch :=
  {| p_resume_guide_generated := Some (Some (resume_guide enrichment));
     p_prep_guide_generated := Some (Some (prep_questions enrichment));
     p_skills_required := Some (Some final_skills);
     p_embedding := Some (Some embedding);
     p_salary_range := Some (estimated_salary_range enrichment);
     p_status := None |}.

Definition enrich_job (self : EnrichmentService) (job_id : nat) : M World unit :=
  try_except
    (job <- get_job job_id ;;
     match job with
     | None => ret tt
     | Some job =>
         let description := j_description_raw job in
         let skills := default [] (j_skills_required job) in
         let title := j_title job in
         let company := j_company_name job in
         enrichment <- ai_generate (_ai self) description skills title company ;;
         embedding <- emb_encode (_emb self) description ;;
         let final_skills :=
           if truthy_list skills then skills else extracted_skills enrichment in
         update_job job_id (enrichment_patch enrichment final_skills embedding)
     end)
    (fun _ => ret tt).

(** ** IngestionService *)

Definition INGESTION_PROVIDER_ID : string := "00000000-0000-4000-a000-000000000001".

Record IngestionService := {
  ingestion_ai : AIPort;
  ingestion_emb : EmbeddingPort;
}.

Definition stats0 : Stats :=
  {| fetched := 0; new := 0; skipped := 0; errors := 0; dedup_hits := 0;
     error := None |}.

Definition set_fetched (n : nat) (s : Stats) : Stats :=
  {| fetched := n; new := new s; skipped := skipped s; errors := errors s;
     dedup_hits := dedup_hits s; error := error s |}.
Definition incr_new (s : Stats) : Stats :=
  {| fetched := fetched s; new := new s + 1; skipped := skipped s;
     errors := errors s; dedup_hits := dedup_hits s; error := error s |}.
Definition incr_skipped (s : Stats) : Stats :=
  {| fetched := fetched s; new := new s; skipped := skipped s + 1;
     errors := errors s; dedup_hits := dedup_hits s; error := error s |}.
Definition incr_errors (s : Stats) : Stats :=
  {| fetched := fetched s; new := new s; skipped := skipped s;
     errors := errors s + 1; dedup_hits := dedup_hits s; error := error s |}.
Definition incr_dedup_hits (s : Stats) : Stats :=
  {| fetched := fetched s; new := new s; skipped := skipped s;
     errors := errors s; dedup_hits := dedup_hits s + 1; error := error s |}.
Definition with_error (msg : string) (s : Stats) : Stats :=
  {| fetched := fetched s; new := new s; skipped := skipped s;
     errors := errors s; dedup_hits := dedup_hits s; error := Some msg |}.

Definition clone_patch (donor : JobRecord) : JobPatch :=
  {| p_resume_guide_generated := Some (j_resume_guide_generated donor);
     p_prep_guide_generated := Some (j_prep_guide_generated donor);
     p_skills_required := None;
     p_embedding := Some (j_embedding donor);
     p_salary_range := None;
     p_status := Some "active" |}.

Definition status_patch (status : string) : JobPatch :=
  {| p_resume_guide_generated := None; p_prep_guide_generated := None;
     p_skills_required := None; p_embedding := None; p_salary_range := None;
     p_status := Some status |}.

(** [for x in xs: body x]. *)
Fixpoint for_each {Σ A} (xs : list A) (body : A -> M Σ unit) : M Σ unit :=
  match xs with
  | [] => ret tt
  | x :: rest => body x ;; for_each rest body
  end.

(** The body of the [for job_data in raw_jobs] loop; the local state is
    the [stats] dict. *)
Definition ingest_posting (self : IngestionService) (job_data : RawPosting)
  : M (Stats * World) unit :=
  company <- getitem "company_name" (rp_company_name job_data) ;;
  ext_id <- getitem "external_id" (rp_external_id job_data) ;;
  try_except
    (existing <- liftW (find_job_by_external_id company ext_id) ;;
     match existing with
     | Some _ => modify_local incr_skipped
     | None =>
         let desc_raw := default "" (rp_description_raw job_data) in
         let desc_hash :=
           if truthy_str desc_raw then Some (SHA256.hexdigest desc_raw) else None in
         title <- getitem "title" (rp_title job_data) ;;
         created <- liftW (create_job
           {| i_provider_id := INGESTION_PROVIDER_ID;
              i_title := title;
              i_description_raw := desc_raw;
              i_skills_required := default [] (rp_skills_required job_data);
              i_external_id := ext_id;
              i_external_apply_url := rp_external_apply_url job_data;
              i_company_name := company;
              i_description_hash := desc_hash;
              i_status := "processing" |}) ;;
         donor <- match desc_hash with
                  | Some h =>
                      if truthy_str h
                      then liftW (find_job_by_description_hash h)
                      else ret None
                  | None => ret None
                  end ;;
         match donor with
         | Some donor =>
             liftW (update_job (j_id created) (clone_patch donor)) ;;
             modify_local incr_new ;;
             modify_local incr_dedup_hits
         | None =>
             let enricher :=
               {| _ai := ingestion_ai self; _emb := ingestion_emb self |} in
             liftW (enrich_job enricher (j_id created)) ;;
             liftW (update_job (j_id created) (status_patch "active")) ;;
             modify_local incr_new
         end
     end)
    (fun _ => modify_local incr_errors).

Definition get_local {L W} : M (L * W) L := fun s => (Ok (fst s), s).

(** Run a computation with a fresh local state and drop it at the end. *)
Definition with_local {L W A} (l0 : L) (m : M (L * W) A) : M W A :=
  fun w => let (r, s) := m (l0, w) in (r, snd s).

Definition final_status (stats : Stats) : string :=
  if decide (0 < errors stats /\ 0 < new stats) then "partial"
  else if decide (0 < errors stats /\ new stats = 0) then "failed"
  else "success".

Definition fetch_failed_patch (exc : Exn) (tb : string) (finished_at : nat) : LogPatch :=
  {| lp_status := Some "failed";
     lp_jobs_found := None; lp_jobs_new := None; lp_jobs_skipped := None;
     lp_error_count := None;
     lp_error_message := Some (exn_msg exc);
     lp_traceback := Some tb;
     lp_finished_at := Some finished_at |}.

Definition finalize_patch (stats : Stats) (finished_at : nat) : LogPatch :=
  {| lp_status := Some (final_status stats);
     lp_jobs_found := Some (fetched stats);
     lp_jobs_new := Some (new stats);
     lp_jobs_skipped := Some (skipped stats);
     lp_error_count := Some (errors stats);
     lp_error_message := None;
     lp_traceback := None;
     lp_finished_at := Some finished_at |}.

(** [ingest_jobs] from the fetch on; [inl] is the early return of the
    fetch-failure handler. *)
Definition ingest_from_fetch (self : IngestionService) (scraper : ScraperPort)
    (log_id : nat) : M (Stats * World) Stats :=
  fetched_jobs <-
    try_except
      (raw_jobs <- liftW (scraper_fetch scraper) ;;
       modify_local (set_fetched (length raw_jobs)) ;;
       ret (inr raw_jobs))
      (fun exc =>
         let tb := format_exc exc in
         finished_at <- liftW datetime_now ;;
         liftW (update_scraping_log log_id (fetch_failed_patch exc tb finished_at)) ;;
         stats <- get_local ;;
         ret (inl (with_error (exn_msg exc) stats))) ;;
  match fetched_jobs with
  | inl early_return => ret early_return
  | inr raw_jobs =>
      for_each raw_jobs (ingest_posting self) ;;
      stats <- get_local ;;
      finished_at <- liftW datetime_now ;;
      liftW (update_scraping_log log_id (finalize_patch stats finished_at)) ;;
      stats <- get_local ;;
      ret stats
  end.

Definition ingest_jobs (self : IngestionService) (scraper : ScraperPort)
  : M World Stats :=
  let source_name := lower (COMPANY_NAME scraper) in
  started_at <- datetime_now ;;
  log_entry <- insert_scraping_log source_name "running" started_at ;;
  let log_id := l_id log_entry in
  with_local stats0 (ingest_from_fetch self scraper log_id).

(** ** Re-enrichment sweep of the admin router *)

Definition BATCH_SIZE : nat := 3.
Definition BATCH_DELAY_SECS : nat := 3.

(** [range(0, stop, step)]. *)
Definition range_step (stop step : nat) : list nat :=
  map (fun k => k * step) (seq 0 ((stop + step - 1) / step)).

(** The row filter of the sweep: any of the three fields falsy. *)
Definition needs_enrichment (j : JobRecord) : bool :=
  negb (truthy_opt_list (j_prep_guide_generated j))
  || negb (truthy_opt_list (j_resume_guide_generated j))
  || negb (truthy_opt_list (j_embedding j)).

Definition select_jobs : M World (list JobRecord) :=
  call EvSelectJobs ;;
  gets jobs.

Definition incr_success (c : nat * nat) : nat * nat := (fst c + 1, snd c).
Definition incr_failed (c : nat * nat) : nat * nat := (fst c, snd c + 1).

(** The body of the inner loop; the local state is [(success, failed)],
    [job] is the row as it was read at the start of the sweep. *)
Definition reenrich_one (enricher : EnrichmentService) (job : JobRecord)
  : M ((nat * nat) * World) unit :=
  let job_id := j_id job in
  try_except
    (liftW (enrich_job enricher job_id) ;;
     (if decide (j_status job = "processing")
      then liftW (update_job job_id (status_patch "active"))
      else ret tt) ;;
     modify_local incr_success)
    (fun _ => modify_local incr_failed).

Definition reenrich_batch (enricher : EnrichmentService) (unenriched : list JobRecord)
    (batch_start : nat) : M ((nat * nat) * World) unit :=
  let batch := firstn BATCH_SIZE (skipn batch_start unenriched) in
  for_each batch (reenrich_one enricher) ;;
  if decide (batch_start + BATCH_SIZE < length unenriched)
  then liftW (sleep BATCH_DELAY_SECS)
  else ret tt.

(** Returns the two counters of the closing log line. *)
Definition _reenrich_unenriched_jobs (ai : AIPort) (emb : EmbeddingPort)
  : M World (nat * nat) :=
  let enricher := {| _ai := ai; _emb := emb |} in
  all_jobs <- select_jobs ;;
  let unenriched := filter needs_enrichment all_jobs in
  with_local (0, 0)
    (for_each (range_step (length unenriched) BATCH_SIZE)
              (reenrich_batch enricher unenriched) ;;
     get_local).

(** ** Cron lock of the scheduler *)

(** Time is counted in minutes since 2000-01-01T00:00:00Z, the instant
    [_release_cron_lock] writes into [locked_until]. *)
Definition _LOCK_TTL_MINUTES : Z := 30.
Definition RELEASED_AT : Z := 0.

(** The [cron_locks] table, [lock_name] to [locked_until]; [None] when the
    table does not exist (migration not run) or cannot be reached. *)
Definition LockDb : Type := option (gmap string Z).

(** Modelled from the spec: the SQL function [acquire_cron_lock] called
    through the RPC is not among the Python sources.  It is one atomic
    conditional write: create the lock row if absent, or update it only if
    its current expiry has passed ([locked_until < now]), and report
    whether this caller now holds the lock. *)
Definition acquire_cron_lock_rpc (now : Z) (p_lock_name : string) (p_ttl_minutes : Z)
  : M LockDb (option bool) :=
  fun db =>
    match db with
    | None => (Raise (APIError "relation cron_locks does not exist"), db)
    | Some locks =>
        match locks !! p_lock_name with
        | None =>
            (Ok (Some true), Some (<[p_lock_name := (now + p_ttl_minutes)%Z]> locks))
        | Some locked_until =>
            if decide (locked_until < now)%Z
            then (Ok (Some true), Some (<[p_lock_name := (now + p_ttl_minutes)%Z]> locks))
            else (Ok (Some false), db)
        end
    end.

Definition _acquire_cron_lock (now : Z) (lock_name : string) : M LockDb bool :=
  try_except
    (result_data <- acquire_cron_lock_rpc now lock_name _LOCK_TTL_MINUTES ;;
     let acquired := default false result_data in
     ret acquired)
    (fun _ => ret true).

Definition update_locked_until (lock_name : string) (locked_until : Z) : M LockDb unit :=
  fun db =>
    match db with
    | None => (Raise (APIError "relation cron_locks does not exist"), db)
    | Some locks =>
        (Ok tt,
         Some (match locks !! lock_name with
               | Some _ => <[lock_name := locked_until]> locks
               | None => locks
               end))
    end.

Definition _release_cron_lock (lock_name : string) : M LockDb unit :=
  try_except (update_locked_until lock_name RELEASED_AT) (fun _ => ret tt).

(** Calls on one lock name in the order in which the store serialises
    them, each with the time at which the store runs it. *)
Fixpoint acquire_each (times : list Z) (lock_name : string) : M LockDb (list bool) :=
  match times with
  | [] => ret []
  | now :: rest =>
      r <- _acquire_cron_lock now lock_name ;;
      rs <- acquire_each rest lock_name ;;
      ret (r :: rs)
  end.

(** ** EnrichmentService.enrich_jobs_batch *)

(** The batch stub: the ids one after the other, and a placeholder batch
    id. *)
Definition enrich_jobs_batch (self : EnrichmentService) (job_ids : list nat)
  : M World string :=
  for_each job_ids (enrich_job self) ;;
  ret "batch_stub_sequential".

(** ** Scraper registry of the dependency container *)

Definition ValueError (msg : string) : Exn :=
  {| exn_type := "ValueError"; exn_msg := msg |}.

(** What the [fetch_jobs] call of each registered adapter does in the run
    at hand. *)
Record Sites := {
  deloitte_site : Outcome (list RawPosting);
  pwc_site : Outcome (list RawPosting);
  kpmg_site : Outcome (list RawPosting);
  ey_site : Outcome (list RawPosting);
}.

Definition DeloitteAdapter (sites : Sites) : ScraperPort :=
  {| COMPANY_NAME := "Deloitte"; fetch_jobs := deloitte_site sites |}.
Definition PwCAdapter (sites : Sites) : ScraperPort :=
  {| COMPANY_NAME := "PwC"; fetch_jobs := pwc_site sites |}.
Definition KPMGAdapter (sites : Sites) : ScraperPort :=
  {| COMPANY_NAME := "KPMG"; fetch_jobs := kpmg_site sites |}.
Definition EYAdapter (sites : Sites) : ScraperPort :=
  {| COMPANY_NAME := "EY"; fetch_jobs := ey_site sites |}.

(** The registry dict, in insertion order. *)
Definition _SCRAPER_REGISTRY (sites : Sites) : list (string * ScraperPort) :=
  [("deloitte", DeloitteAdapter sites);
   ("pwc", PwCAdapter sites);
   ("kpmg", KPMGAdapter sites);
   ("ey", EYAdapter sites)].

(** [d.get(key)] on a dict kept in insertion order. *)
Fixpoint dict_get {V} (key : string) (d : list (string * V)) : option V :=
  match d with
  | [] => None
  | (k, v) :: rest => if decide (k = key) then Some v else dict_get key rest
  end.

Definition get_scraper {Σ} (sites : Sites) (source_name : string) : M Σ ScraperPort :=
  match dict_get (lower source_name) (_SCRAPER_REGISTRY sites) with
  | Some cls => ret cls
  | None =>
      raise (ValueError ("Unknown source: " +:+ source_name +:+ ". Available: "
                         +:+ String.concat ", " (map fst (_SCRAPER_REGISTRY sites))))
  end.

Definition get_all_scrapers (sites : Sites) : list ScraperPort :=
  map snd (_SCRAPER_REGISTRY sites).

(** ** Ingestion triggers of the scheduler *)

(** What [trigger_ingestion] keeps for one source: the stats dict of
    [ingest_jobs], or [{"error": str(e)}]. *)
Inductive SourceResult :=
| SourceStats (stats : Stats)
| SourceError (msg : string).

(** What [trigger_ingestion] returns: [{"error": ...}] when no scraper
    matches the name, else the [results] dict. *)
Inductive TriggerResult :=
| ScraperNotFound (msg : string)
| Results (results : gmap string SourceResult).

(** The body of the [for scraper in scrapers] loop; the local state is
    the [results] dict. *)
Definition trigger_scraper (service : IngestionService) (scraper : ScraperPort)
  : M (gmap string SourceResult * World) unit :=
  let source_name := lower (COMPANY_NAME scraper) in
  try_except
    (stats <- liftW (ingest_jobs service scraper) ;;
     modify_local <[source_name := SourceStats stats]>)
    (fun e => modify_local <[source_name := SourceError (exn_msg e)]>).

Definition trigger_ingestion (service : IngestionService)
    (all_scrapers : list ScraperPort) (scraper_name : option string)
  : M World TriggerResult :=
  selection <-
    match scraper_name with
    | Some name =>
        if truthy_str name && bool_decide (lower name <> "all") then
          let target := lower name in
          let scrapers :=
            filter (fun s => lower (COMPANY_NAME s) = target) all_scrapers in
          if truthy_list scrapers then ret (inr scrapers)
          else ret (inl (ScraperNotFound ("Scraper '" +:+ name +:+ "' not found")))
        else ret (inr all_scrapers)
    | None => ret (inr all_scrapers)
    end ;;
  match selection with
  | inl early_return => ret early_return
  | inr scrapers =>
      with_local ∅
        (for_each scrapers (trigger_scraper service) ;;
         results <- get_local ;;
         ret (Results results))
  end.

(** Run a computation on the first component of a pair of states. *)
Definition liftL {L W A} (m : M L A) : M (L * W) A :=
  fun s =>
    let (r, l') := m (fst s) in (r, (l', snd s)).

(** [try: body / finally: final]: [final] runs whether [body] returns or
    raises, and an exception of [final] replaces the outcome of [body]. *)
Definition try_finally {Σ A} (body : M Σ A) (final : M Σ unit) : M Σ A :=
  fun s =>
    let (r, s1) := body s in
    match final s1 with
    | (Ok _, s2) => (r, s2)
    | (Raise e, s2) => (Raise e, s2)
    end.

(** The scheduled task; the state is the lock table and the world, [now]
    is the time at which the store runs the lock function. *)
Definition run_daily_ingestion (now : Z) (service : IngestionService)
    (all_scrapers : list ScraperPort) : M (LockDb * World) unit :=
  let lock_name := "daily_ingestion" in
  acquired <- liftL (_acquire_cron_lock now lock_name) ;;
  if negb acquired then ret tt
  else
    try_finally
      (liftW (trigger_ingestion service all_scrapers (Some "all")) ;;
       ret tt)
      (liftL (_release_cron_lock lock_name)).

(** ** Ingestion endpoint of the admin router *)

Module IngestionRouter.

Definition HTTP_403_FORBIDDEN : nat := 403.
Definition HTTP_404_NOT_FOUND : nat := 404.

(** [HTTPException(status_code, detail)]; its [str] is the status code, a
    colon and the detail. *)
Definition HTTPException (status_code : nat) (detail : string) : Exn :=
  {| exn_type := "HTTPException";
     exn_msg := pretty status_code +:+ ": " +:+ detail |}.

(** [try: body / except ValueError: handler]: other exceptions pass. *)
Definition try_except_only {Σ A} (class_name : string) (body : M Σ A)
    (handler : Exn -> M Σ A) : M Σ A :=
  fun s =>
    match body s with
    | (Ok a, s') => (Ok a, s')
    | (Raise e, s') =>
        if decide (exn_type e = class_name) then handler e s' else (Raise e, s')
    end.

(** [POST /admin/ingest/{source_name}]; [role] is
    [current_user.get("role")].  Returns the [source] and [result] entries
    of the response. *)
Definition trigger_ingestion (sites : Sites) (service : IngestionService)
    (source_name : string) (role : option string) : M World (string * Stats) :=
  (if bool_decide (role <> Some "admin")
   then raise (HTTPException HTTP_403_FORBIDDEN "Only admins can trigger ingestion")
   else ret tt) ;;
  scraper <-
    try_except_only "ValueError"
      (get_scraper sites source_name)
      (fun _ =>
         raise (HTTPException HTTP_404_NOT_FOUND
                  ("Unknown source: '" +:+ source_name
                   +:+ "'. Available: deloitte, pwc, kpmg, ey"))) ;;
  stats <- ingest_jobs service scraper ;;
  ret (source_name, stats).

End IngestionRouter.

(** ** Experience filter of the scrapers *)

Definition ENTRY_LEVEL_KEYWORDS : list string :=
  ["analyst"; "associate"; "intern"; "trainee"; "fresher"; "graduate";
   "entry"; "junior"; "apprentice"].

Definition SENIOR_KEYWORDS : list string :=
  ["senior"; "manager"; "director"; "vp"; "principal"; "lead"; "head";
   "architect"; "partner"; "chief"].

(** [sub in s] on strings. *)
Fixpoint str_in (sub s : string) : bool :=
  String.prefix sub s ||
  match s with
  | EmptyString => false
  | String _ rest => str_in sub rest
  end.

(** [is_entry_level]; [re_search pattern text] is
    [bool(re.search(pattern, text, re.I))] of the standard library, on
    which the function is parametric. *)
Definition is_entry_level (re_search : string -> string -> bool)
    (title experience_text : string) : bool :=
  let title_lower := lower title in
  if existsb (fun kw => str_in kw title_lower) SENIOR_KEYWORDS then false
  else if existsb (fun kw => str_in kw title_lower) ENTRY_LEVEL_KEYWORDS then true
  else if re_search "\b0\s*[-–]\s*[0-2]\s*years?\b" experience_text then true
  else if re_search "\b1\s*[-–]?\s*[1-2]?\s*years?\b" experience_text then true
  else if re_search "\bfresher|entry.?level\b" experience_text then true
  else true.

(** ** Scraper adapters *)

(** The dict an adapter's [fetch_jobs] builds for a job: the keys
    [ingest_jobs] reads, and the two it does not. *)
Record ScrapedJob := {
  posting : RawPosting;
  location : string;
  salary_range : option string;
}.

(** The outcome of a call made outside, as a computation. *)
Definition lift_outcome {Σ A} (o : Outcome A) : M Σ A := fun s => (o, s).

(** *** BaseScraper *)

Module base_scraper.

(** A job card as a subclass's [parse_jobs] returns it: a dict in which
    any key may be absent. *)
Record JobCard := {
  c_external_id : option string;
  c_title : option string;
  c_external_apply_url : option string;
  c_experience_text : option string;
  c_description : option string;
  c_location : option string;
  c_salary : option string;
}.

(** A subclass: its two class constants and its [parse_jobs], applied to
    the HTML the soup is made from. *)
Record BaseScraper := {
  COMPANY_NAME : string;
  CAREER_PAGE_URL : string;
  parse_jobs : string -> Outcome (list JobCard);
}.

(** The body of the [for job in raw_jobs] loop; the local state is
    [valid_jobs]. *)
Definition keep_entry_level {Σ} (re_search : string -> string -> bool)
    (self : BaseScraper) (job : JobCard) : M (list ScrapedJob * Σ) unit :=
  title <- getitem "title" (c_title job) ;;
  if is_entry_level re_search title (default "" (c_experience_text job)) then
    external_id <- getitem "external_id" (c_external_id job) ;;
    title <- getitem "title" (c_title job) ;;
    external_apply_url <- getitem "external_apply_url" (c_external_apply_url job) ;;
    let normalized :=
      {| posting :=
           {| rp_external_id := Some external_id;
              rp_title := Some title;
              rp_description_raw := Some (default "" (c_description job));
              rp_skills_required := Some [];
              rp_company_name := Some (COMPANY_NAME self);
              rp_external_apply_url := Some external_apply_url |};
         location := default "India" (c_location job);
         salary_range := c_salary job |} in
    modify_local (fun valid_jobs => valid_jobs ++ [normalized])
  else ret tt.

(** [fetch_jobs]; [arun url] is what the crawler answers for the page:
    it raises, or gives [result.html], which may be [None]. *)
Definition fetch_jobs {Σ} (re_search : string -> string -> bool)
    (self : BaseScraper) (arun : string -> Outcome (option string))
  : M Σ (list ScrapedJob) :=
  try_except
    (result_html <- lift_outcome (arun (CAREER_PAGE_URL self)) ;;
     if negb (truthy_str (default "" result_html)) then ret []
     else
       raw_jobs <- lift_outcome (parse_jobs self (default "" result_html)) ;;
       with_local []
         (for_each raw_jobs (keep_entry_level re_search self) ;;
          get_local))
    (fun _ => ret []).

End base_scraper.

(** *** Python strings, on ASCII text *)

Definition is_upper (c : ascii) : bool :=
  let n := nat_of_ascii c in (65 <=? n) && (n <=? 90).
Definition is_lower (c : ascii) : bool :=
  let n := nat_of_ascii c in (97 <=? n) && (n <=? 122).
Definition upper_ascii (c : ascii) : ascii :=
  if is_lower c then ascii_of_nat (nat_of_ascii c - 32) else c.

(** [str.upper]. *)
Fixpoint upper (s : string) : string :=
  match s with
  | EmptyString => EmptyString
  | String c rest => String (upper_ascii c) (upper rest)
  end.

(** [str.title]: a letter is put in upper case when the character before
    it is not a letter, in lower case when it is. *)
Fixpoint title_from (previous_is_cased : bool) (s : string) : string :=
  match s with
  | EmptyString => EmptyString
  | String c rest =>
      String (if previous_is_cased then lower_ascii c else upper_ascii c)
             (title_from (is_upper c || is_lower c) rest)
  end.
Definition title (s : string) : string := title_from false s.

(** The whitespace [str.strip] removes: space, tab to carriage return,
    and the four separators from file to unit. *)
Definition is_space (c : ascii) : bool :=
  let n := nat_of_ascii c in
  (n =? 32) || ((9 <=? n) && (n <=? 13)) || ((28 <=? n) && (n <=? 31)).

Fixpoint lstrip (s : string) : string :=
  match s with
  | EmptyString => EmptyString
  | String c rest => if is_space c then lstrip rest else s
  end.
Definition rstrip (s : string) : string := String.rev (lstrip (String.rev s)).
Definition strip (s : string) : string := rstrip (lstrip s).

(** [s.replace(old, new)] for a non-empty [old]: the occurrences from
    left to right, without overlap; [skip] counts the characters of the
    occurrence being replaced that are still to pass. *)
Fixpoint replace_from (old new : string) (skip : nat) (s : string) : string :=
  match s with
  | EmptyString => EmptyString
  | String c rest =>
      match skip with
      | S k => replace_from old new k rest
      | 0 =>
          if String.prefix old s
          then new +:+ replace_from old new (String.length old - 1) rest
          else String c (replace_from old new 0 rest)
      end
  end.
Definition replace (old new s : string) : string := replace_from old new 0 s.

(** Text is held as its UTF-8 bytes: a character is one byte that
    continues none, followed by the bytes that continue it. *)
Definition is_continuation (c : ascii) : bool :=
  let n := nat_of_ascii c in (128 <=? n) && (n <? 192).

(** [len(s)]: the characters of the text. *)
Fixpoint len (s : string) : nat :=
  match s with
  | EmptyString => 0
  | String c rest => (if is_continuation c then 0 else 1) + len rest
  end.

(** [s[:n]]: the first [n] characters of the text. *)
Fixpoint take_chars (n : nat) (s : string) : string :=
  match s with
  | EmptyString => EmptyString
  | String c rest =>
      if is_continuation c then String c (take_chars n rest)
      else
        match n with
        | 0 => EmptyString
        | S k => String c (take_chars k rest)
        end
  end.

(** [s.endswith(suffix)]. *)
Definition endswith (s suffix : string) : bool :=
  String.prefix (String.rev suffix) (String.rev s).

(** [s[:-n]] for a positive [n]. *)
Definition drop_last (n : nat) (s : string) : string :=
  substring 0 (String.length s - n) s.

(** [s.split("/")[-1]]: what follows the last slash. *)
Fixpoint last_segment_from (segment s : string) : string :=
  match s with
  | EmptyString => segment
  | String c rest =>
      if Ascii.eqb c "/" then last_segment_from "" rest
      else last_segment_from (segment +:+ String c "") rest
  end.
Definition last_segment (s : string) : string := last_segment_from "" s.

(** *** Loops with [break] and [continue] *)

(** How an iteration ends: it falls through or continues, or it breaks. *)
Inductive Flow := Next | Break.

Fixpoint for_loop {Σ A} (xs : list A) (body : A -> M Σ Flow) : M Σ unit :=
  match xs with
  | [] => ret tt
  | x :: rest =>
      flow <- body x ;;
      match flow with
      | Break => ret tt
      | Next => for_loop rest body
      end
  end.

(** *** HTTP through [requests] *)

(** A response: its status code and what [.json()] gives, which raises
    on a body that is not JSON.  The JSON objects are records of the keys
    the adapters read, each absent ([None]) or of the type the adapter
    treats it as. *)
Record Response (A : Type) := {
  status_code : nat;
  json : Outcome A;
}.
Arguments status_code {A} _.
Arguments json {A} _.

Definition IndexError (msg : string) : Exn :=
  {| exn_type := "IndexError"; exn_msg := msg |}.

(** [l[0]]. *)
Definition getitem0 {Σ A} (l : list A) : M Σ A :=
  match l with
  | x :: _ => ret x
  | [] => raise (IndexError "list index out of range")
  end.

(** *** PwCAdapter *)

Module pwc_adapter.

Definition COMPANY_NAME : string := "PwC".
Definition API_URL : string :=
  "https://pwc.wd3.myworkdayjobs.com/wday/cxs/pwc/Global_Experienced_Careers/jobs".
Definition BASE_URL : string :=
  "https://pwc.wd3.myworkdayjobs.com/en-US/Global_Experienced_Careers".

(** [re.sub(r'^[A-Z]{2}_', '', raw)]. *)
Definition strip_country_code (raw : string) : string :=
  match raw with
  | String a (String b (String "_" rest)) =>
      if is_upper a && is_upper b then rest else raw
  | _ => raw
  end.

Definition cities : list string :=
  ["KOLKATA"; "MUMBAI"; "DELHI"; "BANGALORE"; "BENGALURU"; "HYDERABAD";
   "CHENNAI"; "PUNE"; "GURGAON"; "GURUGRAM"; "NOIDA"; "AHMEDABAD"; "KOCHI";
   "JAIPUR"; "LUCKNOW"; "CHANDIGARH"; "INDORE"; "BHOPAL"; "NEW DELHI"].

(** The [for city in cities] loop, which stops at the first city the
    title ends with. *)
Fixpoint strip_city (cities : list string) (cleaned : string) : string :=
  match cities with
  | [] => cleaned
  | city :: rest =>
      if endswith (upper cleaned) ("_" +:+ replace " " "_" city)
      then drop_last (String.length city + 1) cleaned
      else strip_city rest cleaned
  end.

Definition _clean_title (raw : string) : string :=
  let cleaned := strip_country_code raw in
  let cleaned := strip_city cities cleaned in
  let cleaned := replace "_" " " cleaned in
  let cleaned := title cleaned in
  let cleaned := replace " & " " & " cleaned in
  strip cleaned.

(** A posting of the search API. *)
Record JobPosting := {
  jp_title : option string;
  jp_externalPath : option string;
  jp_locationsText : option string;
  jp_postedOn : option string;
  jp_bulletFields : option (list string);
}.

(** A page of the search API, and the detail of a posting. *)
Record SearchPage := { jobPostings : option (list JobPosting) }.
Record JobPostingInfo := { jobDescription : option string }.
Record JobDetail := { jobPostingInfo : option JobPostingInfo }.

(** The Workday site: what it answers to the search at an offset and to
    the detail request for a slug, which may depend on when it is asked;
    the state of the computation is the number of requests made so far. *)
Record Site := {
  search : nat -> nat -> Outcome (Response SearchPage);
  detail : nat -> string -> Outcome (Response JobDetail);
}.

Definition requests_post (site : Site) (offset : nat) : M nat (Response SearchPage) :=
  fun t => (search site t offset, S t).
Definition requests_get (site : Site) (slug : string) : M nat (Response JobDetail) :=
  fun t => (detail site t slug, S t).

Definition desired_count : nat := 7.
Definition limit : nat := 20.

(** The description used when the detail gives none. *)
Definition posted_summary (posted : string) (bullet_fields : list string) : string :=
  "Posted: " +:+ posted +:+ ". " +:+ String.concat " | " bullet_fields.

(** The body of the [for job in job_postings] loop; the local state is
    [all_jobs] and [offset]. *)
Definition fetch_posting (re_search : string -> string -> bool) (site : Site)
    (job : JobPosting) : M ((list ScrapedJob * nat) * nat) Flow :=
  locals <- get_local ;;
  if desired_count <=? length (fst locals) then ret Break
  else
    let title := default "" (jp_title job) in
    let ext_path := default "" (jp_externalPath job) in
    let location := default "India" (jp_locationsText job) in
    let posted := default "" (jp_postedOn job) in
    let bullet_fields := default [] (jp_bulletFields job) in
    let slug := if truthy_str ext_path then last_segment ext_path else "" in
    if negb (truthy_str slug) then ret Next
    else
      job_req_id <- getitem0 (default [""] (jp_bulletFields job)) ;;
      let full_url := BASE_URL +:+ ext_path in
      let external_id := slug in
      let experience_text :=
        if truthy_list bullet_fields then String.concat " " bullet_fields else "" in
      if negb (is_entry_level re_search title experience_text) then ret Next
      else
        description_raw <-
          try_except
            (desc_resp <- liftW (requests_get site slug) ;;
             if status_code desc_resp =? 200 then
               desc_data <- lift_outcome (json desc_resp) ;;
               let description :=
                 default "" (jobDescription
                               (default {| jobDescription := None |}
                                        (jobPostingInfo desc_data))) in
               ret (if truthy_str description then description
                    else posted_summary posted bullet_fields)
             else ret (posted_summary posted bullet_fields))
            (fun _ => ret (posted_summary posted bullet_fields)) ;;
        modify_local (fun locals =>
          (fst locals
           ++ [{| posting :=
                    {| rp_external_id := Some external_id;
                       rp_title := Some (_clean_title title);
                       rp_description_raw := Some description_raw;
                       rp_skills_required := Some [];
                       rp_company_name := Some COMPANY_NAME;
                       rp_external_apply_url := Some full_url |};
                  location := location;
                  salary_range := None |}],
           snd locals)) ;;
        ret Next.

(** The body of the [for page in range(5)] loop. *)
Definition fetch_page (re_search : string -> string -> bool) (site : Site)
    (page : nat) : M ((list ScrapedJob * nat) * nat) Flow :=
  locals <- get_local ;;
  if desired_count <=? length (fst locals) then ret Break
  else
    resp <- liftW (requests_post site (snd locals)) ;;
    if negb (status_code resp =? 200) then ret Break
    else
      data <- lift_outcome (json resp) ;;
      let job_postings := default [] (jobPostings data) in
      if negb (truthy_list job_postings) then ret Break
      else
        for_loop job_postings (fetch_posting re_search site) ;;
        modify_local (fun locals => (fst locals, snd locals + limit)) ;;
        ret Next.

Definition fetch_jobs (re_search : string -> string -> bool) (site : Site)
  : M nat (list ScrapedJob) :=
  with_local ([], 0)
    (try_except
       (for_loop (seq 0 5) (fetch_page re_search site) ;;
        locals <- get_local ;;
        ret (fst locals))
       (fun _ => ret [])).

End pwc_adapter.

(** *** KPMGAdapter *)

Module kpmg_adapter.

Definition COMPANY_NAME : string := "KPMG".
Definition PORTAL_BASE : string :=
  "https://ejvp.fa.us2.oraclecloud.com/hcmUI/CandidateExperience/en/sites/CX_1/job".

(** A requisition of the search API; [Id] is the value as [str] renders
    it. *)
Record Requisition := {
  Title : option string;
  Id : option string;
  PrimaryLocation : option string;
  PostedDate : option string;
  WorkplaceType : option string;
}.

Record Wrapper := { requisitionList : option (list Requisition) }.

Record SearchPage := {
  items : option (list Wrapper);
  hasMore : option bool;
}.

(** The detail of a requisition; [as_str] is [str(d_json)]. *)
Record Detail := {
  externalDescription : option string;
  description : option string;
  longDescription : option string;
  as_str : string;
}.

(** The Oracle site: what it answers to the search at an offset and to
    the detail request for an id, which may depend on when it is asked. *)
Record Site := {
  search : nat -> nat -> Outcome (Response SearchPage);
  detail : nat -> string -> Outcome (Response Detail);
}.

(** The number of requests made and the seconds slept so far. *)
Record Net := {
  requests : nat;
  slept : nat;
}.

Definition requests_get_search (site : Site) (page_offset : nat)
  : M Net (Response SearchPage) :=
  fun net =>
    (search site (requests net) page_offset,
     {| requests := S (requests net); slept := slept net |}).

Definition requests_get_detail (site : Site) (job_id : string)
  : M Net (Response Detail) :=
  fun net =>
    (detail site (requests net) job_id,
     {| requests := S (requests net); slept := slept net |}).

(** [time.sleep]. *)
Definition time_sleep (secs : nat) : M Net unit :=
  fun net => (Ok tt, {| requests := requests net; slept := slept net + secs |}).

Definition desired_count : nat := 7.

(** [a or b] for an optional string [a]. *)
Definition or_else (a : option string) (b : string) : string :=
  match a with
  | Some s => if truthy_str s then s else b
  | None => b
  end.

(** The body of the [for attempt in range(3)] loop; the local state is
    [desc_raw]. *)
Definition fetch_attempt (site : Site) (job_id : string) (attempt : nat)
  : M (string * Net) Flow :=
  try_except
    (d_resp <- liftW (requests_get_detail site job_id) ;;
     if status_code d_resp =? 200 then
       d_json <- lift_outcome (json d_resp) ;;
       let desc_raw :=
         or_else (externalDescription d_json)
           (or_else (description d_json)
              (or_else (longDescription d_json) (as_str d_json))) in
       modify_local (fun _ => desc_raw) ;;
       if 200 <? len desc_raw then ret Break else ret Next
     else ret Next)
    (fun _ =>
       liftW (time_sleep (2 * (attempt + 1))) ;;
       ret Next).

(** The body of the [for job in req_list] loop; the local state is
    [all_jobs]. *)
Definition fetch_requisition (re_search : string -> string -> bool) (site : Site)
    (job : Requisition) : M (list ScrapedJob * Net) Flow :=
  all_jobs <- get_local ;;
  if desired_count <=? length all_jobs then ret Break
  else
    let title := default "" (Title job) in
    let job_id := default "" (Id job) in
    let location := default "India" (PrimaryLocation job) in
    let posted := default "" (PostedDate job) in
    let workplace_type := default "" (WorkplaceType job) in
    if negb (truthy_str title) || negb (truthy_str job_id) then ret Next
    else
      let full_url := PORTAL_BASE +:+ "/" +:+ job_id in
      if negb (is_entry_level re_search title "") then ret Next
      else
        desc_raw <-
          liftW (with_local "Posted: Check official site."
                   (for_loop (seq 0 3) (fetch_attempt site job_id) ;;
                    get_local)) ;;
        let desc_raw :=
          if negb (truthy_str desc_raw) || (len desc_raw <? 50)
          then "Posted: " +:+ posted +:+ ". Workplace: " +:+ workplace_type +:+ "."
          else desc_raw in
        modify_local (fun all_jobs =>
          all_jobs
          ++ [{| posting :=
                   {| rp_external_id := Some job_id;
                      rp_title := Some title;
                      rp_description_raw := Some desc_raw;
                      rp_skills_required := Some [];
                      rp_company_name := Some COMPANY_NAME;
                      rp_external_apply_url := Some full_url |};
                 location := location;
                 salary_range := None |}]) ;;
        ret Next.

(** The body of the [for wrapper in items] loop. *)
Definition fetch_wrapper (re_search : string -> string -> bool) (site : Site)
    (wrapper : Wrapper) : M (list ScrapedJob * Net) Flow :=
  all_jobs <- get_local ;;
  if desired_count <=? length all_jobs then ret Break
  else
    let req_list := default [] (requisitionList wrapper) in
    if negb (truthy_list req_list) then ret Next
    else
      for_loop req_list (fetch_requisition re_search site) ;;
      ret Next.

(** The body of the [for page_offset in range(0, 100, 25)] loop. *)
Definition fetch_page (re_search : string -> string -> bool) (site : Site)
    (page_offset : nat) : M (list ScrapedJob * Net) Flow :=
  all_jobs <- get_local ;;
  if desired_count <=? length all_jobs then ret Break
  else
    resp <- liftW (requests_get_search site page_offset) ;;
    if negb (status_code resp =? 200) then ret Break
    else
      data <- lift_outcome (json resp) ;;
      let items := default [] (items data) in
      if negb (truthy_list items) then ret Break
      else
        for_loop items (fetch_wrapper re_search site) ;;
        let has_more := default false (hasMore data) in
        if negb has_more then ret Break else ret Next.

Definition fetch_jobs (re_search : string -> string -> bool) (site : Site)
  : M Net (list ScrapedJob) :=
  with_local []
    (try_except
       (for_loop (range_step 100 25) (fetch_page re_search site) ;;
        get_local)
       (fun _ => ret [])).

End kpmg_adapter.

(** *** Selectors of BeautifulSoup *)

(** [a or b] for the results of two [select_one] calls: a tag is truthy
    whatever it holds. *)
Definition or_tag (a b : option string) : option string :=
  match a with
  | Some _ => a
  | None => b
  end.

(** *** DeloitteAdapter *)

Module deloitte_adapter.

Definition COMPANY_NAME : string := "Deloitte".
Definition CAREER_PAGE_URL : string :=
  "https://apply.deloitte.com/en_US/careers/SearchJobs"
  +:+ "/?listFilterMode=1&jobRecordsPerPage=100&sort=relevancy".

(** What the selectors of [fetch_jobs] find in a detail page, each tag as
    [str] renders it. *)
Record DetailSoup := {
  rich_text_items : list string;
  job_description : option string;
  article_content : option string;
  cats_job_description : option string;
  article_details : option string;
  main_section : option string;
}.

(** The site through the crawler and the HTML parser: what [arun] gives
    as [result.html] for a URL, which may depend on when it is asked (a
    crawler that fails to start is an [arun] that raises); what
    [parse_jobs] finds in the search page; what the selectors find in a
    detail page. *)
Record Web := {
  arun : nat -> string -> Outcome (option string);
  parse_jobs : string -> Outcome (list base_scraper.JobCard);
  soup : string -> Outcome DetailSoup;
}.

(** [crawler.arun]; the state is the number of pages asked for so far. *)
Definition crawler_arun (web : Web) (url : string) : M nat (option string) :=
  fun t => (arun web t url, S t).

(** The detail page of a job, down to [job["description_raw"]]. *)
Definition fetch_description (web : Web) (job_url : string) : M nat string :=
  try_except
    (detail_html <- crawler_arun web job_url ;;
     if truthy_str (default "" detail_html) then
       d_soup <- lift_outcome (soup web (default "" detail_html)) ;;
       if truthy_list (rich_text_items d_soup)
       then ret (String.concat "<br/><hr/><br/>" (rich_text_items d_soup))
       else
         match or_tag (job_description d_soup)
                 (or_tag (article_content d_soup)
                    (or_tag (cats_job_description d_soup) (article_details d_soup))) with
         | Some desc_tag => ret desc_tag
         | None =>
             match main_section d_soup with
             | Some section => ret ("RAW_SECTION: " +:+ section)
             | None => ret "Posted: Check official site."
             end
         end
     else ret "Posted: Check official site.")
    (fun _ => ret "Posted: Check official site.").

(** The body of the [for job in raw_jobs] loop; the local state is
    [valid_jobs] and [count]. *)
Definition fetch_card (re_search : string -> string -> bool) (web : Web)
    (job : base_scraper.JobCard) : M ((list ScrapedJob * nat) * nat) Flow :=
  locals <- get_local ;;
  if 7 <=? snd locals then ret Break
  else
    title <- getitem "title" (base_scraper.c_title job) ;;
    if negb (is_entry_level re_search title "") then ret Next
    else
      job_url <- getitem "external_apply_url" (base_scraper.c_external_apply_url job) ;;
      description_raw <- liftW (fetch_description web job_url) ;;
      external_id <- getitem "external_id" (base_scraper.c_external_id job) ;;
      title <- getitem "title" (base_scraper.c_title job) ;;
      external_apply_url <-
        getitem "external_apply_url" (base_scraper.c_external_apply_url job) ;;
      location <- getitem "location" (base_scraper.c_location job) ;;
      let normalized :=
        {| posting :=
             {| rp_external_id := Some external_id;
                rp_title := Some title;
                rp_description_raw := Some description_raw;
                rp_skills_required := Some [];
                rp_company_name := Some COMPANY_NAME;
                rp_external_apply_url := Some external_apply_url |};
           location := location;
           salary_range := None |} in
      modify_local (fun locals => (fst locals ++ [normalized], snd locals + 1)) ;;
      ret Next.

Definition fetch_jobs (re_search : string -> string -> bool) (web : Web)
  : M nat (list ScrapedJob) :=
  try_except
    (result_html <- crawler_arun web CAREER_PAGE_URL ;;
     if negb (truthy_str (default "" result_html)) then ret []
     else
       raw_jobs <- lift_outcome (parse_jobs web (default "" result_html)) ;;
       with_local ([], 0)
         (for_loop raw_jobs (fetch_card re_search web) ;;
          locals <- get_local ;;
          ret (fst locals)))
    (fun _ => ret []).

End deloitte_adapter.

(** *** EYAdapter *)

Module ey_adapter.

Definition COMPANY_NAME : string := "EY".
Definition CAREER_PAGE_URL : string :=
  "https://careers.ey.com/ey/search/?createNewAlert=false&q=&locationsearch=India&optionsFacetsDD_country=IN".

(** What the selectors of [fetch_jobs] find in a detail page: each tag
    as [str] renders it once its script, style, iframe and noscript tags
    are removed, and the text of the body, which raises when the page has
    no body. *)
Record DetailSoup := {
  itemprop_description : option string;
  job_description : option string;
  job_details_content : option string;
  description : option string;
  job_description_id : option string;
  job_overview : option string;
  body_text : Outcome string;
}.

(** The site through the crawler and the HTML parser, as for Deloitte. *)
Record Web := {
  arun : nat -> string -> Outcome (option string);
  parse_jobs : string -> Outcome (list base_scraper.JobCard);
  soup : string -> Outcome DetailSoup;
}.

(** [crawler.arun]; the state is the number of pages asked for so far. *)
Definition crawler_arun (web : Web) (url : string) : M nat (option string) :=
  fun t => (arun web t url, S t).

(** The detail page of a job, down to [job["description_raw"]]. *)
Definition fetch_description (web : Web) (job_url : string) : M nat string :=
  try_except
    (detail_html <- crawler_arun web job_url ;;
     if truthy_str (default "" detail_html) then
       d_soup <- lift_outcome (soup web (default "" detail_html)) ;;
       let desc_tag :=
         match itemprop_description d_soup with
         | Some tag => Some tag
         | None =>
             or_tag (job_description d_soup)
               (or_tag (job_details_content d_soup)
                  (or_tag (description d_soup)
                     (or_tag (job_description_id d_soup) (job_overview d_soup))))
         end in
       match desc_tag with
       | Some tag => ret tag
       | None =>
           raw_text <- lift_outcome (body_text d_soup) ;;
           ret ("RAW_DUMP: " +:+ take_chars 5000 raw_text)
       end
     else ret "Posted: Check official site.")
    (fun _ => ret "Posted: Check official site.").

(** The body of the [for job in raw_jobs] loop; the local state is
    [valid_jobs] and [count]. *)
Definition fetch_card (re_search : string -> string -> bool) (web : Web)
    (job : base_scraper.JobCard) : M ((list ScrapedJob * nat) * nat) Flow :=
  locals <- get_local ;;
  if 7 <=? snd locals then ret Break
  else
    title <- getitem "title" (base_scraper.c_title job) ;;
    if negb (is_entry_level re_search title "") then ret Next
    else
      job_url <- getitem "external_apply_url" (base_scraper.c_external_apply_url job) ;;
      description_raw <- liftW (fetch_description web job_url) ;;
      external_id <- getitem "external_id" (base_scraper.c_external_id job) ;;
      title <- getitem "title" (base_scraper.c_title job) ;;
      external_apply_url <-
        getitem "external_apply_url" (base_scraper.c_external_apply_url job) ;;
      location <- getitem "location" (base_scraper.c_location job) ;;
      let normalized :=
        {| posting :=
             {| rp_external_id := Some external_id;
                rp_title := Some title;
                rp_description_raw := Some description_raw;
                rp_skills_required := Some [];
                rp_company_name := Some COMPANY_NAME;
                rp_external_apply_url := Some external_apply_url |};
           location := location;
           salary_range := None |} in
      modify_local (fun locals => (fst locals ++ [normalized], snd locals + 1)) ;;
      ret Next.

Definition fetch_jobs (re_search : string -> string -> bool) (web : Web)
  : M nat (list ScrapedJob) :=
  try_except
    (result_html <- crawler_arun web CAREER_PAGE_URL ;;
     if negb (truthy_str (default "" result_html)) then ret []
     else
       raw_jobs <- lift_outcome (parse_jobs web (default "" result_html)) ;;
       with_local ([], 0)
         (for_loop raw_jobs (fetch_card re_search web) ;;
          locals <- get_local ;;
          ret (fst locals)))
    (fun _ => ret []).

End ey_adapter.

(** ** Vocabulary of the statements *)

(** [m] leaves the observation [f] of the state as it was, whether it
    returns or raises. *)
Definition preserves {Σ A X} (f : Σ -> X) (m : M Σ A) : Prop :=
  forall s, f (snd (m s)) = f s.

(** [m] keeps the property [P] of the state, whether it returns or raises. *)
Definition stable {Σ A} (P : Σ -> Prop) (m : M Σ A) : Prop :=
  forall s, P s -> P (snd (m s)).

(** The posting carries both identity keys. *)
Definition has_identity (job_data : RawPosting) : Prop :=
  is_Some (rp_company_name job_data) /\ is_Some (rp_external_id job_data).

(** No outgoing call of the run will raise. *)
Definition fault_free (w : World) : Prop := Forall (fun f => f = None) (faults w).

(** The fault the [n]-th outgoing call from now will hit, if any. *)
Definition fault_at (n : nat) (w : World) : option Exn := default None (faults w !! n).

(** Classes of outgoing calls. *)
Definition is_generate (ev : Event) : Prop :=
  match ev with EvGenerate _ _ _ _ => True | _ => False end.
Definition is_model_call (ev : Event) : Prop :=
  match ev with EvGenerate _ _ _ _ | EvEncode _ => True | _ => False end.
Definition is_log_update (ev : Event) : Prop :=
  match ev with EvUpdateLog _ _ => True | _ => False end.
Definition is_job_write (ev : Event) : Prop :=
  match ev with EvCreateJob _ | EvUpdateJob _ _ => True | _ => False end.
Definition writes_status (ev : Event) : Prop :=
  match ev with EvUpdateJob _ data => is_Some (p_status data) | _ => False end.

#[export] Instance is_generate_dec ev : Decision (is_generate ev).
Proof. destruct ev; simpl; apply _. Defined.
#[export] Instance is_model_call_dec ev : Decision (is_model_call ev).
Proof. destruct ev; simpl; apply _. Defined.
#[export] Instance is_log_update_dec ev : Decision (is_log_update ev).
Proof. destruct ev; simpl; apply _. Defined.
#[export] Instance is_job_write_dec ev : Decision (is_job_write ev).
Proof. destruct ev; simpl; apply _. Defined.
#[export] Instance writes_status_dec ev : Decision (writes_status ev).
Proof. destruct ev; simpl; apply _. Defined.

(** The rows of the table carrying one identity key. *)
Definition rows_with_identity (company_name external_id : string)
    (js : list JobRecord) : list JobRecord :=
  filter (same_identity company_name external_id) js.

(** All three enrichment fields of a row are missing. *)
Definition all_enrichment_missing (j : JobRecord) : Prop :=
  truthy_opt_list (j_resume_guide_generated j) = false /\
  truthy_opt_list (j_prep_guide_generated j) = false /\
  truthy_opt_list (j_embedding j) = false.

(** The write of [enrich_job], when it gets that far; [t] is the time of
    the generation call. *)
Definition enrichment_write (self : EnrichmentService) (job : JobRecord) (t : nat)
  : JobPatch :=
  let description := j_description_raw job in
  let skills := default [] (j_skills_required job) in
  let enrichment :=
    generate_enrichment (_ai self) t description skills (j_title job)
                        (j_company_name job) in
  let embedding := encode (_emb self) (S t) description in
  enrichment_patch enrichment
    (if truthy_list skills then skills else extracted_skills enrichment)
    embedding.

(** The world after an [enrich_job] call on [job] in which nothing raised. *)
Definition enriched_world (self : EnrichmentService) (job : JobRecord) (w : World)
  : World :=
  let data := enrichment_write self job (S (clock w)) in
  let job_id := j_id job in
  set_jobs
    (map (fun j => if decide (j_id j = job_id) then apply_patch data j else j) (jobs w))
    (ticked (EvUpdateJob job_id data)
       (ticked (EvEncode (j_description_raw job))
          (ticked (EvGenerate (j_description_raw job)
                     (default [] (j_skills_required job)) (j_title job)
                     (j_company_name job))
             (ticked (EvGetJob job_id) w)))).

(** The dict [ingest_jobs] passes to [create_job] for a posting. *)
Definition desc_hash_of (job_data : RawPosting) : option string :=
  let desc_raw := default "" (rp_description_raw job_data) in
  if truthy_str desc_raw then Some (SHA256.hexdigest desc_raw) else None.

Definition posting_insert (job_data : RawPosting) (company ext_id title : string)
  : JobInsert :=
  {| i_provider_id := INGESTION_PROVIDER_ID;
     i_title := title;
     i_description_raw := default "" (rp_description_raw job_data);
     i_skills_required := default [] (rp_skills_required job_data);
     i_external_id := ext_id;
     i_external_apply_url := rp_external_apply_url job_data;
     i_company_name := company;
     i_description_hash := desc_hash_of job_data;
     i_status := "processing" |}.

(** The row a successful [create_job] returns, and the world after it. *)
Definition created_row (data : JobInsert) (w : World) : JobRecord :=
  row_of_insert (fresh_id (map j_id (jobs w))) data.

Definition created_world (data : JobInsert) (w : World) : World :=
  set_jobs (jobs w ++ [created_row data w]) (ticked (EvCreateJob data) w).

(** The world after a successful [update_job]. *)
Definition updated_world (job_id : nat) (data : JobPatch) (w : World) : World :=
  set_jobs
    (map (fun j => if decide (j_id j = job_id) then apply_patch data j else j) (jobs w))
    (ticked (EvUpdateJob job_id data) w).

(** The row a successful [insert_scraping_log] returns, and the worlds
    after it and after a successful [update_scraping_log]. *)
Definition inserted_log (source_name status : string) (started_at : nat)
    (w : World) : LogRow :=
  {| l_id := fresh_id (map l_id (scraping_logs w)); l_source_name := source_name;
     l_status := status; l_started_at := started_at; l_finished_at := None;
     l_jobs_found := None; l_jobs_new := None; l_jobs_skipped := None;
     l_error_count := None; l_error_message := None; l_traceback := None |}.

Definition log_inserted_world (source_name status : string) (started_at : nat)
    (w : World) : World :=
  set_scraping_logs
    (scraping_logs w ++ [inserted_log source_name status started_at w])
    (ticked (EvInsertLog source_name) w).

Definition log_updated_world (log_id : nat) (data : LogPatch) (w : World) : World :=
  set_scraping_logs
    (map (fun l => if decide (l_id l = log_id) then apply_log_patch data l else l)
         (scraping_logs w))
    (ticked (EvUpdateLog log_id data) w).

(** The world after the donor lookup of a posting, which is made only
    when the description is not empty. *)
Definition donor_lookup_world (job_data : RawPosting) (w : World) : World :=
  match desc_hash_of job_data with
  | Some h => ticked (EvFindByHash h) w
  | None => w
  end.

(** What one iteration of the posting loop can do to the stats and the
    world: the key lookups raise outside the error boundary, or exactly one
    of four things happens inside it. *)
Inductive posting_outcome (self : IngestionService) (job_data : RawPosting)
    (st : Stats) (w : World) : Outcome unit -> Stats -> World -> Prop :=
| po_missing_key e :
    rp_company_name job_data = None \/ rp_external_id job_data = None ->
    posting_outcome self job_data st w (Raise e) st w
| po_skipped company ext_id existing :
    rp_company_name job_data = Some company ->
    rp_external_id job_data = Some ext_id ->
    rows_with_identity company ext_id (jobs w) = [existing] ->
    posting_outcome self job_data st w (Ok tt) (incr_skipped st)
      (ticked (EvFindByExternalId company ext_id) w)
| po_dedup_hit company ext_id title h donor :
    rp_company_name job_data = Some company ->
    rp_external_id job_data = Some ext_id ->
    rp_title job_data = Some title ->
    rows_with_identity company ext_id (jobs w) = [] ->
    let data := posting_insert job_data company ext_id title in
    let w1 := ticked (EvFindByExternalId company ext_id) w in
    let w2 := created_world data w1 in
    desc_hash_of job_data = Some h ->
    head (filter (donor_candidate h) (jobs w2)) = Some donor ->
    posting_outcome self job_data st w (Ok tt) (incr_dedup_hits (incr_new st))
      (updated_world (j_id (created_row data w1)) (clone_patch donor)
         (ticked (EvFindByHash h) w2))
| po_enriched company ext_id title w3 w4 :
    rp_company_name job_data = Some company ->
    rp_external_id job_data = Some ext_id ->
    rp_title job_data = Some title ->
    rows_with_identity company ext_id (jobs w) = [] ->
    let data := posting_insert job_data company ext_id title in
    let w1 := ticked (EvFindByExternalId company ext_id) w in
    let w2 := created_world data w1 in
    let created := created_row data w1 in
    (desc_hash_of job_data = None /\ w3 = w2 \/
     exists h, desc_hash_of job_data = Some h /\
               filter (donor_candidate h) (jobs w2) = [] /\
               w3 = ticked (EvFindByHash h) w2) ->
    enrich_job {| _ai := ingestion_ai self; _emb := ingestion_emb self |}
      (j_id created) w3 = (Ok tt, w4) ->
    posting_outcome self job_data st w (Ok tt) (incr_new st)
      (updated_world (j_id created) (status_patch "active") w4)
| po_error w' :
    posting_outcome self job_data st w (Ok tt) (incr_errors st) w'.

(** Exactly one of the three counters grows, by one. *)
Definition bumps_one (st st' : Stats) : Prop :=
  (skipped st' = skipped st + 1 /\ new st' = new st /\ errors st' = errors st) \/
  (new st' = new st + 1 /\ skipped st' = skipped st /\ errors st' = errors st) \/
  (errors st' = errors st + 1 /\ new st' = new st /\ skipped st' = skipped st).

(** The identity key of a posting is carried by exactly one stored row. *)
Definition stored_once (js : list JobRecord) (job_data : RawPosting) : Prop :=
  exists company ext_id,
    rp_company_name job_data = Some company /\
    rp_external_id job_data = Some ext_id /\
    length (rows_with_identity company ext_id js) = 1.

(** *** Vocabulary for the code around the pipeline *)

(** More classes of outgoing calls. *)
Definition is_log_insert (ev : Event) : Prop :=
  match ev with EvInsertLog _ => True | _ => False end.
Definition is_get_job (ev : Event) : Prop :=
  match ev with EvGetJob _ => True | _ => False end.
Definition is_sleep (ev : Event) : Prop :=
  match ev with EvSleep _ => True | _ => False end.

#[export] Instance is_log_insert_dec ev : Decision (is_log_insert ev).
Proof. destruct ev; simpl; apply _. Defined.
#[export] Instance is_get_job_dec ev : Decision (is_get_job ev).
Proof. destruct ev; simpl; apply _. Defined.
#[export] Instance is_sleep_dec ev : Decision (is_sleep ev).
Proof. destruct ev; simpl; apply _. Defined.

#[export] Instance has_identity_dec job_data : Decision (has_identity job_data).
Proof. unfold has_identity. apply _. Defined.

(** The scrapers the scheduler's [trigger_ingestion] runs for a name:
    all of them for no name, the empty name or "all", those of that
    company name otherwise. *)
Definition selected_scrapers (all_scrapers : list ScraperPort)
    (scraper_name : option string) : list ScraperPort :=
  match scraper_name with
  | Some name =>
      if truthy_str name && bool_decide (lower name <> "all")
      then filter (fun s => lower (COMPANY_NAME s) = lower name) all_scrapers
      else all_scrapers
  | None => all_scrapers
  end.

(** The text has no byte outside ASCII; on such text [lower] is
    [str.lower]. *)
Definition is_ascii (s : string) : bool :=
  forallb (fun c => nat_of_ascii c <? 128) (list_ascii_of_string s).

(** The names a run of the scheduler's [trigger_ingestion] lowers and
    compares, the company names and the name asked for, are ASCII. *)
Definition ascii_names (all_scrapers : list ScraperPort)
    (scraper_name : option string) : bool :=
  forallb (fun s => is_ascii (COMPANY_NAME s)) all_scrapers
  && from_option is_ascii true scraper_name.

(** What the results keep of a run of [ingest_jobs]: its stats, or the
    text of the exception it raised. *)
Definition report (outcome : Outcome Stats) : SourceResult :=
  match outcome with
  | Ok stats => SourceStats stats
  | Raise e => SourceError (exn_msg e)
  end.

(** The runs of [ingest_jobs] for the scrapers, one after the other, each
    in the world the one before left, and what the results keep of them:
    the report of each run under its lower-cased company name, a later
    run of a name replacing an earlier one. *)
Fixpoint reports (service : IngestionService) (scrapers : list ScraperPort)
    (results : gmap string SourceResult) (w : World)
  : gmap string SourceResult * World :=
  match scrapers with
  | [] => (results, w)
  | scraper :: rest =>
      reports service rest
        (<[lower (COMPANY_NAME scraper) :=
             report (fst (ingest_jobs service scraper w))]> results)
        (snd (ingest_jobs service scraper w))
  end.

(** The row is at the status the insert of a scraped posting gives it. *)
Definition stuck_processing (j : JobRecord) : Prop := j_status j = "processing".

#[export] Instance stuck_processing_dec j : Decision (stuck_processing j).
Proof. unfold stuck_processing. apply _. Defined.

(** The table with the rows of the given ids blanked out. *)
Definition rows_outside (ids : list nat) (js : list JobRecord) : list (option JobRecord) :=
  map (fun j => if decide (j_id j ∈ ids) then None else Some j) js.

(** The columns of a row that enrichment has no business with. *)
Definition columns_outside_enrichment (j : JobRecord) :=
  (j_id j, j_provider_id j, j_title j, j_description_raw j, j_external_id j,
   j_external_apply_url j, j_company_name j, j_description_hash j, j_status j).

(** A table that is [js] followed by one row of the given key. *)
Definition one_more (js : list JobRecord) (job_data : RawPosting) (js' : list JobRecord) : Prop :=
  exists row,
    js' = js ++ [row] /\
    j_id row = fresh_id (map j_id js) /\
    j_provider_id row = INGESTION_PROVIDER_ID /\
    j_company_name row = rp_company_name job_data /\
    j_external_id row = rp_external_id job_data.

(** A normalised posting of the scraper of [company_name]: it names the
    company, carries an identity, a title, a link and a description, and
    no skills yet. *)
Definition normalised_for (company_name : string) (job : RawPosting) : Prop :=
  rp_company_name job = Some company_name /\
  is_Some (rp_external_id job) /\
  is_Some (rp_title job) /\
  is_Some (rp_external_apply_url job) /\
  is_Some (rp_description_raw job) /\
  rp_skills_required job = Some [].

(** The title of the posting holds a senior keyword. *)
Definition senior_title (job : RawPosting) : bool :=
  existsb (fun kw => str_in kw (lower (default "" (rp_title job)))) SENIOR_KEYWORDS.

(** A card the loop of [BaseScraper.fetch_jobs] gets past: it has a
    title, and the identity and link too if the title passes the filter. *)
Definition card_usable (re_search : string -> string -> bool)
    (job : base_scraper.JobCard) : Prop :=
  exists title,
    base_scraper.c_title job = Some title /\
    (is_entry_level re_search title
       (default "" (base_scraper.c_experience_text job)) = true ->
     is_Some (base_scraper.c_external_id job) /\
     is_Some (base_scraper.c_external_apply_url job)).

(** The title of the card passes the experience filter. *)
Definition card_passes (re_search : string -> string -> bool)
    (job : base_scraper.JobCard) : bool :=
  is_entry_level re_search (default "" (base_scraper.c_title job))
                 (default "" (base_scraper.c_experience_text job)).

(** Every character of the string satisfies [P]. *)
Definition all_chars (P : ascii -> Prop) (s : string) : Prop :=
  Forall P (list_ascii_of_string s).

(** A posting as [KPMGAdapter.fetch_jobs] appends it: normalised, with an
    identity, a title and a description that are not empty. *)
Definition kpmg_posting_ok (job : ScrapedJob) : Prop :=
  normalised_for "KPMG" (posting job) /\
  rp_external_id (posting job) <> Some "" /\
  rp_title (posting job) <> Some "" /\
  rp_description_raw (posting job) <> Some "".

(** What the loops of [KPMGAdapter.fetch_jobs] do to the jobs collected
    and to the network between two states: jobs are appended up to the
    cap, with at most [c] search requests, and at most three detail
    requests and twelve seconds of sleep for each job appended. *)
Definition kpmg_grows (c : nat) (s s' : list ScrapedJob * kpmg_adapter.Net) : Prop :=
  exists more,
    fst s' = fst s ++ more /\
    length (fst s') <= kpmg_adapter.desired_count /\
    kpmg_adapter.requests (snd s')
    <= kpmg_adapter.requests (snd s) + c + 3 * length more /\
    kpmg_adapter.slept (snd s') <= kpmg_adapter.slept (snd s) + 12 * length more /\
    Forall kpmg_posting_ok more.

(** The outcome of an adapter's [fetch_jobs] as [ingest_jobs] reads it:
    of each dict, the keys the service reads. *)
Definition postings_of (outcome : Outcome (list ScrapedJob))
  : Outcome (list RawPosting) :=
  match outcome with
  | Ok jobs => Ok (map posting jobs)
  | Raise e => Raise e
  end.

(** The four sites, and what each adapter had asked of its site before
    the run. *)
Record Internet := {
  deloitte_web : deloitte_adapter.Web;
  deloitte_asked : nat;
  pwc_web : pwc_adapter.Site;
  pwc_asked : nat;
  kpmg_web : kpmg_adapter.Site;
  kpmg_net : kpmg_adapter.Net;
  ey_web : ey_adapter.Web;
  ey_asked : nat;
}.

(** What the [fetch_jobs] call of each registered adapter does on these
    sites. *)
Definition sites_of (re_search : string -> string -> bool) (internet : Internet)
  : Sites :=
  {| deloitte_site :=
       postings_of (fst (deloitte_adapter.fetch_jobs re_search
                           (deloitte_web internet) (deloitte_asked internet)));
     pwc_site :=
       postings_of (fst (pwc_adapter.fetch_jobs re_search
                           (pwc_web internet) (pwc_asked internet)));
     kpmg_site :=
       postings_of (fst (kpmg_adapter.fetch_jobs re_search
                           (kpmg_web internet) (kpmg_net internet)));
     ey_site :=
       postings_of (fst (ey_adapter.fetch_jobs re_search
                           (ey_web internet) (ey_asked internet))) |}.

(** The stats of a run that went through: at most 7 postings fetched,
    each counted as new, skipped or error. *)
Definition stats_in_order (stats : Stats) : Prop :=
  fetched stats <= 7 /\
  new stats + skipped stats + errors stats = fetched stats.

(** A job as the crawling adapters append it: normalised for the
    company, with a title the experience filter let through. *)
Definition crawled_job_ok (company_name : string) (job : ScrapedJob) : Prop :=
  normalised_for company_name (posting job) /\
  senior_title (posting job) = false.

(** What the card loop of a crawling adapter does between two states
    ([valid_jobs], [count] and the number of pages asked for): jobs are
    appended and counted, one detail page each, and at most [k] more
    pages are asked for in vain, within the cap of 7. *)
Definition crawl_grows (company_name : string) (k : nat)
    (s s' : (list ScrapedJob * nat) * nat) : Prop :=
  exists more,
    fst (fst s') = fst (fst s) ++ more /\
    snd (fst s') = snd (fst s) + length more /\
    snd (fst s') + k <= 7 /\
    snd s' <= snd s + length more + k /\
    Forall (crawled_job_ok company_name) more.

(** The pages an iteration that ends in [r] asked for in vain. *)
Definition wasted_pages {A} (r : Outcome A) : nat :=
  match r with
  | Ok _ => 0
  | Raise _ => 1
  end.

(** ** Concrete scenarios *)

Definition demo_ai : AIPort :=
  {| generate_enrichment := fun t description skills title company_name =>
       {| resume_guide :=
            ["Lead with " +:+ title; "Quantify impact"; "Mirror the keywords";
             "Keep it to one page"; "Link your portfolio"];
          prep_questions :=
            [{| question := "Why this role?"; answer_strategy := "Tie to the posting" |};
             {| question := "A hard bug?"; answer_strategy := "Use STAR" |};
             {| question := "A conflict?"; answer_strategy := "Use STAR" |};
             {| question := "Your strengths?"; answer_strategy := "Give evidence" |};
             {| question := "Any questions?"; answer_strategy := "Ask about the team" |}];
          extracted_skills := ["sql"; "python"];
          estimated_salary_range := Some "$100k - $150k" |} |}.

Definition demo_emb : EmbeddingPort :=
  {| encode := fun t text => [Z.of_nat t; Z.of_nat (String.length text)] |}.

Definition demo_service : IngestionService :=
  {| ingestion_ai := demo_ai; ingestion_emb := demo_emb |}.

Definition demo_enricher : EnrichmentService :=
  {| _ai := demo_ai; _emb := demo_emb |}.

Definition demo_posting (external_id description : string) : RawPosting :=
  {| rp_external_id := Some external_id;
     rp_title := Some "Analyst";
     rp_description_raw := Some description;
     rp_skills_required := Some [];
     rp_company_name := Some "PwC";
     rp_external_apply_url := Some ("https://jobs.example/" +:+ external_id) |}.

Definition demo_scraper (outcome : Outcome (list RawPosting)) : ScraperPort :=
  {| COMPANY_NAME := "PwC"; fetch_jobs := outcome |}.

(** A world with the given rows and fault script, and nothing else. *)
Definition world_of (rows : list JobRecord) (script : list (option Exn)) : World :=
  {| jobs := rows; scraping_logs := []; clock := 0; faults := script; trace := [] |}.

Definition boom : Exn := {| exn_type := "RuntimeError"; exn_msg := "boom" |}.

Definition db_down : Exn := APIError "connection refused".

(** A scraper whose fetch raises, a world in which the store answers, and
    one in which it answers the first call and refuses the second. *)
Definition failing_scraper : ScraperPort := demo_scraper (Raise boom).
Definition healthy_world : World := world_of [] [].
Definition flaky_log_world : World := world_of [] [None; Some db_down].

(** A stored, not yet enriched, row. *)
Definition stuck_row (job_id : nat) (external_id description : string) : JobRecord :=
  row_of_insert job_id
    {| i_provider_id := INGESTION_PROVIDER_ID; i_title := "Analyst";
       i_description_raw := description; i_skills_required := [];
       i_external_id := external_id; i_external_apply_url := None;
       i_company_name := "PwC";
       i_description_hash := Some (SHA256.hexdigest description);
       i_status := "processing" |}.

(** One row stuck at processing with nothing enriched, in a world where
    the generation model is down: the listing and the record fetch answer,
    the generation call raises. *)
Definition stuck_world : World :=
  world_of [stuck_row 1 "a1" "Audit associate"] [None; None; Some boom].

(** Four postings: a fresh one, one with the same description, a repeat of
    the first identity key, and one whose title key is missing. *)
Definition demo_postings : list RawPosting :=
  [demo_posting "a1" "Audit associate, Bengaluru";
   demo_posting "a2" "Audit associate, Bengaluru";
   demo_posting "a1" "Audit associate, Bengaluru";
   {| rp_external_id := Some "a3"; rp_title := None;
      rp_description_raw := Some "Tax"; rp_skills_required := None;
      rp_company_name := Some "PwC"; rp_external_apply_url := None |}].

Definition demo_stats : Stats :=
  {| fetched := 4; new := 2; skipped := 1; errors := 1; dedup_hits := 1;
     error := None |}.

Definition four_scraper : ScraperPort := demo_scraper (Ok demo_postings).

(** One stuck row, with a store that is down and with one that answers. *)
Definition store_down_world : World :=
  world_of [stuck_row 1 "a1" "Audit associate"] [Some boom].
Definition one_stuck_world : World :=
  world_of [stuck_row 1 "a1" "Audit associate"] [].

(** A stored row that was enriched in an earlier run, and a world that
    holds it. *)
Definition donor_row : JobRecord :=
  let row := stuck_row 1 "d1" "Audit associate, Bengaluru" in
  apply_patch (status_patch "active")
    (apply_patch (enrichment_write demo_enricher row 1) row).

Definition donor_world : World := world_of [donor_row] [].

(** Two postings with the same description and different identity keys,
    and a world in which the generation model fails on its first call:
    the log insert, the identity lookup, the insert, the donor lookup and
    the record fetch answer, the generation call raises. *)
Definition twin_postings : list RawPosting :=
  [demo_posting "a1" "Audit associate, Bengaluru";
   demo_posting "a2" "Audit associate, Bengaluru"].

Definition twin_scraper : ScraperPort := demo_scraper (Ok twin_postings).

Definition generation_down_once : World :=
  world_of [] [None; None; None; None; None; Some boom].

(** The scenario of the specification: ten postings of which three are
    stored already, two share their description with an enriched row, and
    five are new in every respect. *)
Definition ten_postings : list RawPosting :=
  [demo_posting "e1" "Stored one"; demo_posting "e2" "Stored two";
   demo_posting "e3" "Stored three";
   demo_posting "n1" "Audit associate, Bengaluru";
   demo_posting "n2" "Audit associate, Bengaluru";
   demo_posting "n3" "Tax analyst"; demo_posting "n4" "Risk analyst";
   demo_posting "n5" "Deals associate"; demo_posting "n6" "Cyber consultant";
   demo_posting "n7" "Data engineer"].

Definition ten_world : World :=
  world_of [stuck_row 1 "e1" "Stored one"; stuck_row 2 "e2" "Stored two";
            stuck_row 3 "e3" "Stored three";
            apply_patch (enrichment_write demo_enricher
                           (stuck_row 4 "d1" "Audit associate, Bengaluru") 1)
              (stuck_row 4 "d1" "Audit associate, Bengaluru")] [].

(** A posting that lacks its company name. *)
Definition nameless_posting : RawPosting :=
  {| rp_external_id := Some "x1"; rp_title := Some "Analyst";
     rp_description_raw := Some "Audit"; rp_skills_required := None;
     rp_company_name := None; rp_external_apply_url := None |}.

(** A fetched list that names one identity key twice. *)
Definition repeat_scraper : ScraperPort :=
  demo_scraper (Ok [demo_posting "a1" "Audit associate, Bengaluru";
                    demo_posting "a2" "Tax analyst";
                    demo_posting "a1" "Audit associate, Bengaluru"]).

(** Sites of which Deloitte's fails and PwC's has two postings. *)
Definition busy_sites : Sites :=
  {| deloitte_site := Raise boom; pwc_site := Ok twin_postings;
     kpmg_site := Ok []; ey_site := Ok [] |}.

(** A lock table in which the daily lock is held until 17:00 of the
    first day, and one in which it was never taken. *)
Definition held_lock : LockDb := Some {["daily_ingestion" := 1020%Z]}.

(** Four rows stuck at processing, with a store and models that answer. *)
Definition four_stuck_world : World :=
  world_of [stuck_row 1 "a1" "Audit associate"; stuck_row 2 "a2" "Tax analyst";
            stuck_row 3 "a3" "Risk analyst"; stuck_row 4 "a4" "Deals associate"] [].

(** A text no pattern of the experience filter matches. *)
Definition never_matches : string -> string -> bool := fun _ _ => false.

(** A subclass of [BaseScraper] whose page parses to the given cards. *)
Definition demo_card (external_id : option string) (title : string)
  : base_scraper.JobCard :=
  {| base_scraper.c_external_id := external_id;
     base_scraper.c_title := Some title;
     base_scraper.c_external_apply_url := Some "https://careers.example/job";
     base_scraper.c_experience_text := None;
     base_scraper.c_description := Some "Audit";
     base_scraper.c_location := None;
     base_scraper.c_salary := None |}.

Definition demo_base_scraper (cards : list base_scraper.JobCard)
  : base_scraper.BaseScraper :=
  {| base_scraper.COMPANY_NAME := "Deloitte";
     base_scraper.CAREER_PAGE_URL := "https://careers.example";
     base_scraper.parse_jobs := fun _ => Ok cards |}.

Definition demo_arun : string -> Outcome (option string) :=
  fun _ => Ok (Some "<html></html>").

(** Cards of which the filter keeps the first; the one without an
    identity is senior, so that its identity is never asked for. *)
Definition good_cards : list base_scraper.JobCard :=
  [demo_card (Some "d1") "Audit Analyst"; demo_card (Some "d2") "Senior Manager";
   demo_card None "Tax Director"].

(** Cards of which the second passes the filter and has no identity. *)
Definition bad_cards : list base_scraper.JobCard :=
  [demo_card (Some "d1") "Audit Analyst"; demo_card None "Tax Associate"].

(** A Workday site with one page of postings, which refuses the detail
    requests. *)
Definition demo_pwc_posting (slug : string) (bullet_fields : list string)
  : pwc_adapter.JobPosting :=
  {| pwc_adapter.jp_title := Some "IN_ASSOCIATE_AUDIT_KOLKATA";
     pwc_adapter.jp_externalPath := Some ("/job/Kolkata/" +:+ slug);
     pwc_adapter.jp_locationsText := Some "Kolkata";
     pwc_adapter.jp_postedOn := Some "Posted Today";
     pwc_adapter.jp_bulletFields := Some bullet_fields |}.

Definition pwc_site_of (postings : list pwc_adapter.JobPosting) : pwc_adapter.Site :=
  {| pwc_adapter.search := fun _ offset =>
       Ok {| status_code := 200;
             json := Ok {| pwc_adapter.jobPostings :=
                             Some (if Nat.eqb offset 0 then postings else []) |} |};
     pwc_adapter.detail := fun _ _ =>
       Ok {| status_code := 404;
             json := Raise {| exn_type := "JSONDecodeError";
                              exn_msg := "Expecting value" |} |} |}.

Definition demo_pwc_site : pwc_adapter.Site :=
  pwc_site_of [demo_pwc_posting "Associate_1" ["1WD"];
               demo_pwc_posting "Associate_2" ["2WD"]].

(** The same site, the second posting without its requisition number. *)
Definition unnumbered_pwc_site : pwc_adapter.Site :=
  pwc_site_of [demo_pwc_posting "Associate_1" ["1WD"];
               demo_pwc_posting "Associate_2" []].

(** An Oracle site with one requisition, whose detail requests fail. *)
Definition demo_kpmg_site : kpmg_adapter.Site :=
  {| kpmg_adapter.search := fun _ page_offset =>
       Ok {| status_code := 200;
             json :=
               Ok {| kpmg_adapter.items :=
                       Some [{| kpmg_adapter.requisitionList :=
                                  Some [{| kpmg_adapter.Title := Some "Audit Analyst";
                                           kpmg_adapter.Id := Some "7001";
                                           kpmg_adapter.PrimaryLocation := None;
                                           kpmg_adapter.PostedDate := Some "2025-01-01";
                                           kpmg_adapter.WorkplaceType := None |}] |}];
                     kpmg_adapter.hasMore := Some false |} |};
     kpmg_adapter.detail := fun _ _ => Raise boom |}.

Definition new_net : kpmg_adapter.Net :=
  {| kpmg_adapter.requests := 0; kpmg_adapter.slept := 0 |}.

(** A careers site whose search page parses to two cards and whose
    detail pages do not load, for Deloitte and for EY. *)
Definition demo_deloitte_web : deloitte_adapter.Web :=
  {| deloitte_adapter.arun := fun t url =>
       if Nat.eqb t 0 then Ok (Some "<html></html>") else Raise boom;
     deloitte_adapter.parse_jobs := fun _ =>
       Ok [{| base_scraper.c_external_id := Some "d1";
              base_scraper.c_title := Some "Audit Analyst";
              base_scraper.c_external_apply_url := Some "https://apply.deloitte.com/d1";
              base_scraper.c_experience_text := None;
              base_scraper.c_description := None;
              base_scraper.c_location := Some "Hyderabad";
              base_scraper.c_salary := None |};
           {| base_scraper.c_external_id := Some "d2";
              base_scraper.c_title := Some "Senior Manager";
              base_scraper.c_external_apply_url := Some "https://apply.deloitte.com/d2";
              base_scraper.c_experience_text := None;
              base_scraper.c_description := None;
              base_scraper.c_location := Some "Mumbai";
              base_scraper.c_salary := None |}];
     deloitte_adapter.soup := fun _ => Raise boom |}.

Definition demo_ey_web : ey_adapter.Web :=
  {| ey_adapter.arun := fun t url =>
       if Nat.eqb t 0 then Ok (Some "<html></html>") else Ok None;
     ey_adapter.parse_jobs := fun _ =>
       Ok [{| base_scraper.c_external_id := Some "1234";
              base_scraper.c_title := Some "Tax Associate";
              base_scraper.c_external_apply_url :=
                Some "https://careers.ey.com/ey/job/tax-associate/1234";
              base_scraper.c_experience_text := None;
              base_scraper.c_description := None;
              base_scraper.c_location := Some "Kochi, India";
              base_scraper.c_salary := None |}];
     ey_adapter.soup := fun _ => Raise boom |}.

(** The four sites, none asked anything yet. *)
Definition demo_internet : Internet :=
  {| deloitte_web := demo_deloitte_web; deloitte_asked := 0;
     pwc_web := demo_pwc_site; pwc_asked := 0;
     kpmg_web := demo_kpmg_site; kpmg_net := new_net;
     ey_web := demo_ey_web; ey_asked := 0 |}.

(** * Properties *)

(** ** The effect monad *)

Lemma bind_inv {Σ A B} (m : M Σ A) (k : A -> M Σ B) s r s' :
  bind m k s = (r, s') ->
  (exists a s1, m s = (Ok a, s1) /\ k a s1 = (r, s')) \/
  (exists e, m s = (Raise e, s') /\ r = Raise e).
Proof.
  unfold bind. destruct (m s) as [[a|e] s1]; intros H.
  - left. eauto.
  - right. inversion H; subst. eauto.
Qed.

Lemma bind_ok {Σ A B} (m : M Σ A) (k : A -> M Σ B) s a s1 :
  m s = (Ok a, s1) -> bind m k s = k a s1.
Proof. unfold bind. intros ->. reflexivity. Qed.

Lemma bind_raise {Σ A B} (m : M Σ A) (k : A -> M Σ B) s e s1 :
  m s = (Raise e, s1) -> bind m k s = (Raise e, s1).
Proof. unfold bind. intros ->. reflexivity. Qed.

Lemma try_except_inv {Σ A} (body : M Σ A) (handler : Exn -> M Σ A) s r s' :
  try_except body handler s = (r, s') ->
  (exists a, body s = (Ok a, s') /\ r = Ok a) \/
  (exists e s1, body s = (Raise e, s1) /\ handler e s1 = (r, s')).
Proof.
  unfold try_except. destruct (body s) as [[a|e] s1]; intros H.
  - left. inversion H; subst. eauto.
  - right. eauto.
Qed.

(** A handler that returns makes the whole statement return. *)
Lemma try_except_returns {Σ A} (body : M Σ A) (handler : Exn -> M Σ A) :
  (forall e s, exists a s', handler e s = (Ok a, s')) ->
  forall s, exists a s', try_except body handler s = (Ok a, s').
Proof.
  intros Hh s. unfold try_except. destruct (body s) as [[a|e] s1]; eauto.
Qed.

(** ** Frame rules *)

Lemma preserves_ret {Σ A X} (f : Σ -> X) (a : A) : preserves f (ret a).
Proof. intros s. reflexivity. Qed.

Lemma preserves_raise {Σ A X} (f : Σ -> X) e : preserves f (@raise Σ A e).
Proof. intros s. reflexivity. Qed.

Lemma preserves_bind {Σ A B X} (f : Σ -> X) (m : M Σ A) (k : A -> M Σ B) :
  preserves f m -> (forall a, preserves f (k a)) -> preserves f (bind m k).
Proof.
  intros Hm Hk s. unfold bind. specialize (Hm s).
  destruct (m s) as [[a|e] s1]; simpl in *; [|assumption].
  rewrite Hk. assumption.
Qed.

Lemma preserves_try_except {Σ A X} (f : Σ -> X) (body : M Σ A) handler :
  preserves f body -> (forall e, preserves f (handler e)) ->
  preserves f (try_except body handler).
Proof.
  intros Hb Hh s. unfold try_except. specialize (Hb s).
  destruct (body s) as [[a|e] s1]; simpl in *; [assumption|].
  rewrite Hh. assumption.
Qed.

Lemma preserves_getitem {Σ A X} (f : Σ -> X) key (v : option A) :
  preserves f (getitem key v).
Proof. destruct v; [apply preserves_ret | apply preserves_raise]. Qed.

Lemma preserves_for_each {Σ A X} (f : Σ -> X) (xs : list A) body :
  (forall x, preserves f (body x)) -> preserves f (for_each xs body).
Proof.
  intros Hb. induction xs as [|x xs IH]; simpl.
  - apply preserves_ret.
  - apply preserves_bind; auto.
Qed.

Lemma preserves_liftW_local {L W A} (m : M W A) :
  preserves (fst : L * W -> L) (liftW m).
Proof. intros [l w]. unfold liftW. simpl. destruct (m w). reflexivity. Qed.

Lemma preserves_liftW {L W A X} (F : L * W -> X) (f : W -> X) (m : M W A) :
  (forall l w, F (l, w) = f w) ->
  preserves f m -> preserves F (liftW m).
Proof.
  intros HF Hm [l w]. unfold liftW. simpl. specialize (Hm w).
  destruct (m w) as [r w1]. simpl in *. rewrite !HF. assumption.
Qed.

Lemma preserves_modify_local {L W X} (F : L * W -> X) (f : W -> X) (g : L -> L) :
  (forall l w, F (l, w) = f w) ->
  preserves F (modify_local g).
Proof. intros HF [l w]. simpl. rewrite !HF. reflexivity. Qed.

Lemma preserves_get_local {L W X} (f : L * W -> X) : preserves f get_local.
Proof. intros s. reflexivity. Qed.

Lemma preserves_gets {A X} (f : World -> X) (g : World -> A) : preserves f (gets g).
Proof. intros s. reflexivity. Qed.

Lemma preserves_maybe_single {A X} (f : World -> X) (rows : list A) :
  preserves f (maybe_single rows).
Proof.
  destruct rows as [|r [|r' rows]]; simpl;
    [apply preserves_ret | apply preserves_ret | apply preserves_raise].
Qed.

Lemma preserves_call {X} (f : World -> X) ev :
  (forall w, f (ticked ev w) = f w) -> preserves f (call ev).
Proof. intros H w. simpl. apply H. Qed.

Lemma preserves_modify {X} (f : World -> X) (g : World -> World) :
  (forall w, f (g w) = f w) -> preserves f (modify g).
Proof. intros H w. simpl. apply H. Qed.

Lemma preserves_with_local {L W A X} (f : W -> X) (l0 : L) (m : M (L * W) A) :
  preserves (fun s : L * W => f (snd s)) m -> preserves f (with_local l0 m).
Proof.
  intros Hm w. unfold with_local. specialize (Hm (l0, w)).
  destruct (m (l0, w)) as [r s]. assumption.
Qed.

Lemma preserves_sleep {X} (f : World -> X) secs :
  (forall w, f (snd (sleep secs w)) = f w) -> preserves f (sleep secs).
Proof. intros H w. apply H. Qed.

(** Decompose a frame goal along the structure of the computation. *)
Ltac frame_step :=
  match goal with
  | |- preserves _ (ret _) => apply preserves_ret
  | |- preserves _ (raise _) => apply preserves_raise
  | |- preserves _ (getitem _ _) => apply preserves_getitem
  | |- preserves _ get_local => apply preserves_get_local
  | |- preserves _ (gets _) => apply preserves_gets
  | |- preserves _ (maybe_single _) => apply preserves_maybe_single
  | |- preserves fst (modify_local _) => fail 1
  | |- preserves _ (modify_local _) =>
      eapply preserves_modify_local; intros ? ?; cbn [snd]; reflexivity
  | |- preserves fst (liftW _) => apply preserves_liftW_local
  | |- preserves _ (liftW _) =>
      eapply preserves_liftW; [intros ? ?; cbn [snd]; reflexivity|]
  | |- preserves _ (sleep _) => apply preserves_sleep; intros ?; reflexivity
  | |- preserves _ (with_local _ _) => apply preserves_with_local
  | |- preserves _ (bind _ _) => apply preserves_bind; [|intros ?]
  | |- preserves _ (try_except _ _) => apply preserves_try_except; [|intros ?]
  | |- preserves _ (for_each _ _) => apply preserves_for_each; intros ?
  | |- preserves _ (call _) => apply preserves_call; intros ?; reflexivity
  | |- preserves _ (modify _) => apply preserves_modify; intros ?; try reflexivity
  | |- preserves _ (match ?x with _ => _ end) => destruct x
  | |- preserves _ (if ?b then _ else _) => destruct b
  end.
Ltac frame := repeat frame_step.

(** ** Outgoing calls and the fault script *)

Lemma call_inv ev w r w' : call ev w = (r, w') -> w' = ticked ev w.
Proof. unfold call. intros H. inversion H. reflexivity. Qed.

Lemma fault_free_ticked ev w : fault_free w -> fault_free (ticked ev w).
Proof.
  unfold fault_free. simpl. intros H.
  destruct (faults w); simpl; [constructor | inversion H; assumption].
Qed.

Lemma fault_free_set_jobs js w : fault_free w -> fault_free (set_jobs js w).
Proof. exact id. Qed.

(** ** Inversion of a run *)

(** From the outcome of a computation to the outcomes of its statements. *)
Lemma ret_inv {Σ A} (a : A) (s : Σ) r s' : ret a s = (r, s') -> r = Ok a /\ s' = s.
Proof. unfold ret. intros H. inversion H. auto. Qed.

Lemma raise_inv {Σ A} e (s : Σ) (r : Outcome A) s' :
  raise e s = (r, s') -> r = Raise e /\ s' = s.
Proof. unfold raise. intros H. inversion H. auto. Qed.

Lemma gets_inv {A} (f : World -> A) w r w' : gets f w = (r, w') -> r = Ok (f w) /\ w' = w.
Proof. unfold gets. intros H. inversion H. auto. Qed.

Lemma modify_inv (f : World -> World) w r w' :
  modify f w = (r, w') -> r = Ok tt /\ w' = f w.
Proof. unfold modify. intros H. inversion H. auto. Qed.

Lemma liftW_inv {L W A} (m : M W A) (l : L) w r s' :
  liftW m (l, w) = (r, s') -> exists w', m w = (r, w') /\ s' = (l, w').
Proof.
  unfold liftW. simpl. destruct (m w) as [r0 w0]. intros H. inversion H. eauto.
Qed.

Lemma modify_local_inv {L W} (f : L -> L) (l : L) (w : W) r s' :
  modify_local f (l, w) = (r, s') -> r = Ok tt /\ s' = (f l, w).
Proof. unfold modify_local. intros H. inversion H. auto. Qed.

Lemma get_local_inv {L W} (l : L) (w : W) r s' :
  get_local (l, w) = (r, s') -> r = Ok l /\ s' = (l, w).
Proof. unfold get_local. intros H. inversion H. auto. Qed.

Lemma with_local_inv {L W A} (l0 : L) (m : M (L * W) A) w r w' :
  with_local l0 m w = (r, w') -> exists l', m (l0, w) = (r, (l', w')).
Proof.
  unfold with_local. destruct (m (l0, w)) as [r0 [l1 w1]]. simpl.
  intros H. inversion H. eauto.
Qed.

Lemma scraper_fetch_inv scraper w r w' :
  scraper_fetch scraper w = (r, w') ->
  r = fetch_jobs scraper /\ w' = fetched_world scraper w.
Proof. unfold scraper_fetch. intros H. inversion H. auto. Qed.

Ltac minv_base :=
  match goal with
  | H : with_local _ _ _ = (_, _) |- _ =>
      apply with_local_inv in H; destruct H as (? & H)
  | H : scraper_fetch _ _ = (_, _) |- _ =>
      apply scraper_fetch_inv in H; destruct H as (? & ?)
  | H : bind _ _ _ = (_, _) |- _ =>
      apply bind_inv in H; destruct H as [(? & ? & ? & H)|(? & H & ?)]
  | H : try_except _ _ _ = (_, _) |- _ =>
      apply try_except_inv in H; destruct H as [(? & H & ?)|(? & ? & ? & H)]
  | H : ret _ _ = (_, _) |- _ => apply ret_inv in H; destruct H
  | H : raise _ _ = (_, _) |- _ => apply raise_inv in H; destruct H
  | H : gets _ _ = (_, _) |- _ => apply gets_inv in H; destruct H
  | H : modify _ _ = (_, _) |- _ => apply modify_inv in H; destruct H
  | H : liftW _ (_, _) = (_, _) |- _ => apply liftW_inv in H; destruct H as (? & H & ?)
  | H : modify_local _ (_, _) = (_, _) |- _ => apply modify_local_inv in H; destruct H
  | H : get_local (_, _) = (_, _) |- _ => apply get_local_inv in H; destruct H
  | H : call _ _ = (_, _) |- _ => apply call_inv in H
  | H : getitem _ ?v _ = (_, _) |- _ => destruct v eqn:?; unfold getitem in H
  | H : maybe_single ?rows _ = (_, _) |- _ =>
      destruct rows as [|? [|? ?]] eqn:?; unfold maybe_single in H
  | H : (match ?x with _ => _ end) _ = (_, _) |- _ => destruct x eqn:?
  | x : (_ * _)%type |- _ => destruct x
  | u : unit |- _ => destruct u
  end.
Ltac minv0 := repeat (minv_base; cbv beta in *; simplify_eq).

(** ** What the adapter methods return *)

Lemma find_job_by_external_id_inv c e w r w' :
  find_job_by_external_id c e w = (r, w') ->
  w' = ticked (EvFindByExternalId c e) w /\
  match r with
  | Ok None => rows_with_identity c e (jobs w) = []
  | Ok (Some j) => rows_with_identity c e (jobs w) = [j]
  | Raise _ => True
  end.
Proof.
  unfold find_job_by_external_id, rows_with_identity. intros H. minv0; auto.
Qed.

Lemma find_job_by_description_hash_inv h w r w' :
  find_job_by_description_hash h w = (r, w') ->
  w' = ticked (EvFindByHash h) w /\
  match r with
  | Ok None => filter (donor_candidate h) (jobs w) = []
  | Ok (Some j) => head (filter (donor_candidate h) (jobs w)) = Some j
  | Raise _ => True
  end.
Proof.
  unfold find_job_by_description_hash. intros H. minv0; auto.
  all: split; [reflexivity|]; simpl in *.
  all: match goal with
       | Hl : take 1 ?l = _ |- _ => destruct l; simpl in *; congruence
       end.
Qed.

Lemma create_job_inv data w r w' :
  create_job data w = (r, w') ->
  (exists e, r = Raise e /\ w' = ticked (EvCreateJob data) w) \/
  (r = Ok (created_row data (ticked (EvCreateJob data) w)) /\
   w' = created_world data w).
Proof. unfold create_job. intros H. minv0; eauto. Qed.

Lemma update_job_inv job_id data w r w' :
  update_job job_id data w = (r, w') ->
  (exists e, r = Raise e /\ w' = ticked (EvUpdateJob job_id data) w) \/
  (r = Ok tt /\ w' = updated_world job_id data w).
Proof. unfold update_job. intros H. minv0; eauto. Qed.

Lemma insert_scraping_log_inv source_name status started_at w r w' :
  insert_scraping_log source_name status started_at w = (r, w') ->
  (exists e, r = Raise e /\ w' = ticked (EvInsertLog source_name) w) \/
  (r = Ok (inserted_log source_name status started_at w) /\
   w' = log_inserted_world source_name status started_at w).
Proof. unfold insert_scraping_log. intros H. minv0; eauto. Qed.

Lemma update_scraping_log_inv log_id data w r w' :
  update_scraping_log log_id data w = (r, w') ->
  (exists e, r = Raise e /\ w' = ticked (EvUpdateLog log_id data) w) \/
  (r = Ok tt /\ w' = log_updated_world log_id data w).
Proof. unfold update_scraping_log. intros H. minv0; eauto. Qed.

Ltac minv_step :=
  match goal with
  | H : insert_scraping_log _ _ _ _ = (_, _) |- _ =>
      apply insert_scraping_log_inv in H; destruct H as [(? & ? & ?)|(? & ?)]
  | H : update_scraping_log _ _ _ = (_, _) |- _ =>
      apply update_scraping_log_inv in H; destruct H as [(? & ? & ?)|(? & ?)]
  | H : find_job_by_external_id _ _ _ = (_, _) |- _ =>
      apply find_job_by_external_id_inv in H; destruct H as [? H]
  | H : find_job_by_description_hash _ _ = (_, _) |- _ =>
      apply find_job_by_description_hash_inv in H; destruct H as [? H]
  | H : create_job _ _ = (_, _) |- _ =>
      apply create_job_inv in H; destruct H as [(? & ? & ?)|(? & ?)]
  | H : update_job _ _ _ = (_, _) |- _ =>
      apply update_job_inv in H; destruct H as [(? & ? & ?)|(? & ?)]
  | _ => minv_base
  end.
Ltac minv := repeat (minv_step; cbv beta in *; simplify_eq).

(** ** EnrichmentService.enrich_job *)

(** How far one [enrich_job] call got: it returns in every case, and the
    table is either untouched or patched once, in the row [job_id], by an
    enrichment write. *)
Lemma enrich_job_cases self job_id w :
  exists w', enrich_job self job_id w = (Ok tt, w') /\
    ((jobs w' = jobs w /\
      filter is_job_write (trace w') = filter is_job_write (trace w)) \/
     (exists job,
        filter (fun j => j_id j = job_id) (jobs w) = [job] /\
        let data := enrichment_write self job (S (clock w)) in
        filter is_job_write (trace w')
          = EvUpdateJob job_id data :: filter is_job_write (trace w) /\
        (jobs w' = jobs w \/
         jobs w' = map (fun j => if decide (j_id j = job_id)
                                 then apply_patch data j else j) (jobs w)))).
Proof.
  destruct (enrich_job self job_id w) as [r w'] eqn:E.
  unfold enrich_job, get_job, ai_generate, emb_encode, update_job in E.
  minv0.
  all: eexists; (split; [reflexivity|]).
  all: try (left; split; reflexivity).
  all: right; eexists; (split; [eassumption|]); simpl; (split; [reflexivity|]).
  all: auto.
Qed.

Lemma enrich_job_returns self job_id w :
  exists w', enrich_job self job_id w = (Ok tt, w').
Proof. destruct (enrich_job_cases self job_id w) as (w' & H & _). eauto. Qed.

Lemma enrich_job_statuses self job_id :
  preserves (fun w => map (fun j => (j_id j, j_status j)) (jobs w))
            (enrich_job self job_id).
Proof.
  intros w. destruct (enrich_job_cases self job_id w) as (w' & -> & H). simpl.
  destruct H as [[-> _]|(job & _ & _ & [->| ->])]; try reflexivity.
  rewrite map_map. apply map_ext. intros j. destruct (decide _); reflexivity.
Qed.

Lemma enrich_job_no_status_write self job_id :
  preserves (fun w => filter writes_status (trace w)) (enrich_job self job_id).
Proof. unfold enrich_job, get_job, ai_generate, emb_encode, update_job. frame. Qed.

(** ** hashlib.sha256 *)

Lemma hexdigest_nonempty s : SHA256.hexdigest s <> "".
Proof.
  unfold SHA256.hexdigest.
  destruct (SHA256.digest _) as [[[[[[[a b] c] d] e] f] g] h].
  discriminate.
Qed.

Lemma hexdigest_truthy s : truthy_str (SHA256.hexdigest s) = true.
Proof. unfold truthy_str. apply bool_decide_eq_true. apply hexdigest_nonempty. Qed.

(** ** One iteration of the posting loop *)

Lemma enrich_job_inv self job_id w r w' :
  enrich_job self job_id w = (r, w') -> r = Ok tt.
Proof.
  intros H. destruct (enrich_job_returns self job_id w) as (w1 & Hw).
  congruence.
Qed.

(** The loop body, with the dict of [create_job] and the hash named. *)
Lemma ingest_posting_eq self job_data :
  ingest_posting self job_data =
  (company <- getitem "company_name" (rp_company_name job_data) ;;
   ext_id <- getitem "external_id" (rp_external_id job_data) ;;
   try_except
     (existing <- liftW (find_job_by_external_id company ext_id) ;;
      match existing with
      | Some _ => modify_local incr_skipped
      | None =>
          title <- getitem "title" (rp_title job_data) ;;
          created <- liftW (create_job
                              (posting_insert job_data company ext_id title)) ;;
          donor <- match desc_hash_of job_data with
                   | Some h =>
                       if truthy_str h
                       then liftW (find_job_by_description_hash h)
                       else ret None
                   | None => ret None
                   end ;;
          match donor with
          | Some donor =>
              liftW (update_job (j_id created) (clone_patch donor)) ;;
              modify_local incr_new ;;
              modify_local incr_dedup_hits
          | None =>
              liftW (enrich_job
                       {| _ai := ingestion_ai self; _emb := ingestion_emb self |}
                       (j_id created)) ;;
              liftW (update_job (j_id created) (status_patch "active")) ;;
              modify_local incr_new
          end
      end)
     (fun _ => modify_local incr_errors)).
Proof. reflexivity. Qed.

Lemma desc_hash_truthy job_data h :
  desc_hash_of job_data = Some h -> truthy_str h = true.
Proof.
  unfold desc_hash_of. destruct (truthy_str _); [|discriminate].
  intros [= <-]. apply hexdigest_truthy.
Qed.

Lemma ingest_posting_outcome self job_data st w r st' w' :
  ingest_posting self job_data (st, w) = (r, (st', w')) ->
  posting_outcome self job_data st w r st' w'.
Proof.
  rewrite ingest_posting_eq. intros H. minv.
  all: try (apply po_error).
  all: try (apply po_missing_key; auto; fail).
  all: try (eapply po_skipped; eauto; fail).
  all: try (eapply po_dedup_hit; eauto; fail).
  all: try match goal with
           | Hh : desc_hash_of _ = Some ?h, Ht : truthy_str ?h = false |- _ =>
               apply desc_hash_truthy in Hh; congruence
           end.
  all: try match goal with
           | He : enrich_job _ _ _ = (Raise _, _) |- _ =>
               apply enrich_job_inv in He; discriminate
           end.
  all: repeat match goal with u : unit |- _ => destruct u end.
  all: eapply po_enriched; eauto 10.
Qed.

Lemma ingest_posting_bumps_one self job_data st w st' w' :
  ingest_posting self job_data (st, w) = (Ok tt, (st', w')) ->
  bumps_one st st' /\ fetched st' = fetched st.
Proof.
  intros H. apply ingest_posting_outcome in H. unfold bumps_one.
  inversion H; subst; simpl; auto 10.
Qed.

(** The loop over the fetched postings moves exactly one counter per
    posting. *)
Lemma for_each_posting_counts self raw_jobs st w st' w' :
  for_each raw_jobs (ingest_posting self) (st, w) = (Ok tt, (st', w')) ->
  new st' + skipped st' + errors st'
    = new st + skipped st + errors st + length raw_jobs /\
  fetched st' = fetched st.
Proof.
  revert st w. induction raw_jobs as [|job_data rest IH]; intros st w H; simpl in H.
  - minv. simpl. split; [lia|reflexivity].
  - apply bind_inv in H as [([] & [st1 w1] & H1 & H2)|(e & _ & [=])].
    apply ingest_posting_bumps_one in H1 as [Hb Hf].
    apply IH in H2 as [Hc Hf']. simpl. unfold bumps_one in Hb. split; [lia|congruence].
Qed.

(** ** A whole run *)

(** A run whose fetch returns [raw_jobs] and which itself returns: the log
    row is inserted, the postings are looped over, the log is finalized. *)
Lemma ingest_jobs_fetched_inv self scraper raw_jobs w stats w' :
  fetch_jobs scraper = Ok raw_jobs ->
  ingest_jobs self scraper w = (Ok stats, w') ->
  let source_name := lower (COMPANY_NAME scraper) in
  let log_id := l_id (inserted_log source_name "running" (clock w) w) in
  let w2 := fetched_world scraper
              (log_inserted_world source_name "running" (clock w) w) in
  exists w3,
    for_each raw_jobs (ingest_posting self)
      (set_fetched (length raw_jobs) stats0, w2) = (Ok tt, (stats, w3)) /\
    w' = log_updated_world log_id (finalize_patch stats (clock w3)) w3.
Proof.
  intros Hf H. unfold ingest_jobs, ingest_from_fetch, datetime_now in H.
  minv; rewrite Hf in *; simplify_eq.
  eexists. split; [eassumption|reflexivity].
Qed.

(** Which counter an iteration moves: [skipped] when one stored row has
    the identity key of the posting, [new] when none has and the iteration
    ends on the write that sets the inserted row active. *)
Lemma ingest_posting_counter_cause self job_data st w st' w' :
  ingest_posting self job_data (st, w) = (Ok tt, (st', w')) ->
  (skipped st' = skipped st + 1 ->
   exists company ext_id existing,
     rp_company_name job_data = Some company /\
     rp_external_id job_data = Some ext_id /\
     rows_with_identity company ext_id (jobs w) = [existing] /\
     jobs w' = jobs w) /\
  (new st' = new st + 1 ->
   exists company ext_id job_id data,
     rp_company_name job_data = Some company /\
     rp_external_id job_data = Some ext_id /\
     rows_with_identity company ext_id (jobs w) = [] /\
     head (trace w') = Some (EvUpdateJob job_id data) /\
     p_status data = Some "active").
Proof.
  intros H. apply ingest_posting_outcome in H.
  inversion H; subst; simpl; split; intros Hn; try lia.
  - eexists _, _, _. repeat split; eassumption.
  - eexists _, _, _, _. repeat split; eassumption.
  - eexists _, _, _, _. repeat split; eassumption.
Qed.

(** C1: in a run whose fetch returns the postings [raw_jobs], the returned
    stats satisfy [new + skipped + errors = len(raw_jobs) = fetched], and
    every iteration of the posting loop that completes moves exactly one of
    the three counters, by one: [skipped] on an identity-key match, [new]
    when the key is new and the inserted row is set active (by cloning or
    after enrichment), [errors] otherwise. *)
Theorem ingest_jobs_counts_partition self scraper raw_jobs w stats w' :
  fetch_jobs scraper = Ok raw_jobs ->
  ingest_jobs self scraper w = (Ok stats, w') ->
  new stats + skipped stats + errors stats = length raw_jobs /\
  fetched stats = length raw_jobs /\
  (forall job_data st0 w0 st1 w1,
     ingest_posting self job_data (st0, w0) = (Ok tt, (st1, w1)) ->
     bumps_one st0 st1 /\
     (skipped st1 = skipped st0 + 1 ->
      exists company ext_id existing,
        rp_company_name job_data = Some company /\
        rp_external_id job_data = Some ext_id /\
        rows_with_identity company ext_id (jobs w0) = [existing] /\
        jobs w1 = jobs w0) /\
     (new st1 = new st0 + 1 ->
      exists company ext_id job_id data,
        rp_company_name job_data = Some company /\
        rp_external_id job_data = Some ext_id /\
        rows_with_identity company ext_id (jobs w0) = [] /\
        head (trace w1) = Some (EvUpdateJob job_id data) /\
        p_status data = Some "active")).
Proof.
  intros Hf H.
  destruct (ingest_jobs_fetched_inv _ _ _ _ _ _ Hf H) as (w3 & Hloop & _).
  apply for_each_posting_counts in Hloop as [Hc Hfe]. simpl in *.
  split; [lia|]. split; [assumption|].
  intros job_data st0 w0 st1 w1 Hp. split.
  - apply ingest_posting_bumps_one in Hp as [Hb _]. exact Hb.
  - eapply ingest_posting_counter_cause; eassumption.
Qed.

(** The scenario of the specification, run. *)
Example ten_postings_run :
  fst (ingest_jobs demo_service (demo_scraper (Ok ten_postings)) ten_world)
  = Ok {| fetched := 10; new := 7; skipped := 3; errors := 0; dedup_hits := 2;
          error := None |} /\
  length (filter is_generate
            (trace (snd (ingest_jobs demo_service (demo_scraper (Ok ten_postings))
                           ten_world)))) = 5.
Proof. vm_compute. split; reflexivity. Qed.

(** The identity keys are read outside the error boundary: a posting
    without its company name makes the run raise, after the postings before
    it have been processed, and the log row stays at running. *)
Example missing_company_name_raises :
  fst (ingest_jobs demo_service
         (demo_scraper (Ok [demo_posting "a1" "Audit"; nameless_posting]))
         healthy_world)
  = Raise (KeyError "company_name") /\
  map j_external_id
      (jobs (snd (ingest_jobs demo_service
                    (demo_scraper (Ok [demo_posting "a1" "Audit"; nameless_posting]))
                    healthy_world)))
  = [Some "a1"] /\
  map l_status
      (scraping_logs
         (snd (ingest_jobs demo_service
                 (demo_scraper (Ok [demo_posting "a1" "Audit"; nameless_posting]))
                 healthy_world)))
  = ["running"].
Proof. vm_compute. repeat split; reflexivity. Qed.

Lemma ingest_jobs_counts_partition_witness :
  fetch_jobs four_scraper = Ok demo_postings /\
  ingest_jobs demo_service four_scraper healthy_world
    = (Ok demo_stats, snd (ingest_jobs demo_service four_scraper healthy_world)) /\
  new demo_stats + skipped demo_stats + errors demo_stats = length demo_postings /\
  fetched demo_stats = length demo_postings.
Proof.
  assert (Hrun : ingest_jobs demo_service four_scraper healthy_world
                 = (Ok demo_stats,
                    snd (ingest_jobs demo_service four_scraper healthy_world)))
    by (vm_compute; reflexivity).
  split; [reflexivity|]. split; [exact Hrun|].
  destruct (ingest_jobs_counts_partition demo_service four_scraper demo_postings
              healthy_world demo_stats _ eq_refl Hrun) as (H1 & H2 & _).
  split; assumption.
Defined.

(** ** The run log *)

Ltac unfold_pipeline :=
  unfold ingest_posting, enrich_job, find_job_by_external_id, create_job,
    find_job_by_description_hash, update_job, get_job, ai_generate, emb_encode.

Lemma ingest_posting_logs {X} (g : list LogRow -> X) self job_data :
  preserves (fun s : Stats * World => g (scraping_logs (snd s)))
            (ingest_posting self job_data).
Proof. unfold_pipeline. frame. Qed.

Lemma ingest_posting_log_updates self job_data :
  preserves (fun s : Stats * World => filter is_log_update (trace (snd s)))
            (ingest_posting self job_data).
Proof. unfold_pipeline. frame. Qed.

Lemma fresh_id_gt ids x : x ∈ ids -> x < fresh_id ids.
Proof.
  unfold fresh_id. induction ids as [|y ids IH]; intros Hx.
  - inversion Hx.
  - simpl. apply elem_of_cons in Hx as [->|Hx]; [lia|]. specialize (IH Hx). lia.
Qed.

(** Patching by a fresh key reaches the freshly appended row only. *)
Lemma map_patch_fresh {A} (key : A -> nat) (f : A -> A) (rows : list A) (row : A) :
  key row = fresh_id (map key rows) ->
  map (fun r => if decide (key r = key row) then f r else r) (rows ++ [row])
  = rows ++ [f row].
Proof.
  intros Hk. rewrite map_app. simpl. rewrite decide_True by reflexivity.
  f_equal. rewrite <- (map_id rows) at 2. apply map_ext_in. intros r Hr.
  rewrite decide_False; [reflexivity|].
  intros Heq. apply list_elem_of_In in Hr.
  assert (key r < fresh_id (map key rows))
    by (apply fresh_id_gt, list_elem_of_fmap; eauto).
  lia.
Qed.

Lemma final_status_cases stats :
  (0 < errors stats -> new stats = 0 -> final_status stats = "failed") /\
  (0 < errors stats -> 0 < new stats -> final_status stats = "partial") /\
  (errors stats = 0 -> final_status stats = "success").
Proof.
  unfold final_status. repeat split; intros; repeat case_decide; try reflexivity; lia.
Qed.

(** C4: a run that gets past the fetch and returns finalizes its log row
    exactly once; the row then carries the counters and the status derived
    from them: failed if errors > 0 and new = 0, partial if errors > 0 and
    new > 0, success otherwise, in particular whenever errors = 0. *)
Theorem ingest_jobs_finalizes_log self scraper raw_jobs w stats w' :
  fetch_jobs scraper = Ok raw_jobs ->
  ingest_jobs self scraper w = (Ok stats, w') ->
  let run_log := inserted_log (lower (COMPANY_NAME scraper)) "running" (clock w) w in
  (exists finished_at,
     let final_row := apply_log_patch (finalize_patch stats finished_at) run_log in
     filter is_log_update (trace w')
       = EvUpdateLog (l_id run_log) (finalize_patch stats finished_at)
           :: filter is_log_update (trace w) /\
     scraping_logs w' = scraping_logs w ++ [final_row] /\
     l_status final_row = final_status stats /\
     l_jobs_found final_row = Some (fetched stats) /\
     l_jobs_new final_row = Some (new stats) /\
     l_jobs_skipped final_row = Some (skipped stats) /\
     l_error_count final_row = Some (errors stats)) /\
  (0 < errors stats -> new stats = 0 -> final_status stats = "failed") /\
  (0 < errors stats -> 0 < new stats -> final_status stats = "partial") /\
  (errors stats = 0 -> final_status stats = "success").
Proof.
  intros Hf H run_log. split; [|apply final_status_cases].
  destruct (ingest_jobs_fetched_inv _ _ _ _ _ _ Hf H) as (w3 & Hloop & ->).
  pose proof (preserves_for_each
                (fun s : Stats * World => scraping_logs (snd s)) raw_jobs
                (ingest_posting self)
                (fun x => ingest_posting_logs (fun l => l) self x)
                (set_fetched (length raw_jobs) stats0,
                 fetched_world scraper
                   (log_inserted_world (lower (COMPANY_NAME scraper)) "running"
                      (clock w) w))) as Hlogs.
  pose proof (preserves_for_each
                (fun s : Stats * World => filter is_log_update (trace (snd s)))
                raw_jobs (ingest_posting self)
                (ingest_posting_log_updates self)
                (set_fetched (length raw_jobs) stats0,
                 fetched_world scraper
                   (log_inserted_world (lower (COMPANY_NAME scraper)) "running"
                      (clock w) w))) as Htrace.
  rewrite Hloop in Hlogs, Htrace. simpl in Hlogs, Htrace.
  change (filter is_log_update (_ :: _ :: trace w))
    with (filter is_log_update (trace w)) in Htrace.
  exists (clock w3). simpl. split; [|split; [|repeat split]].
  - rewrite filter_cons_True by exact I. rewrite Htrace. reflexivity.
  - rewrite Hlogs.
    apply (map_patch_fresh l_id (apply_log_patch (finalize_patch stats (clock w3)))
             (scraping_logs w) run_log).
    reflexivity.
Qed.

Lemma ingest_jobs_finalizes_log_witness :
  fetch_jobs four_scraper = Ok demo_postings /\
  ingest_jobs demo_service four_scraper healthy_world
    = (Ok demo_stats, snd (ingest_jobs demo_service four_scraper healthy_world)) /\
  map l_status
      (scraping_logs (snd (ingest_jobs demo_service four_scraper healthy_world)))
    = ["partial"].
Proof.
  assert (Hrun : ingest_jobs demo_service four_scraper healthy_world
                 = (Ok demo_stats,
                    snd (ingest_jobs demo_service four_scraper healthy_world)))
    by (vm_compute; reflexivity).
  split; [reflexivity|]. split; [exact Hrun|].
  destruct (ingest_jobs_finalizes_log demo_service four_scraper demo_postings
              healthy_world demo_stats _ eq_refl Hrun)
    as ((t & _ & -> & _) & _ & Hpartial & _).
  simpl. rewrite Hpartial by (simpl; lia). reflexivity.
Defined.

(** ** What enrich_job lets out, and what it writes *)

(** C5: [enrich_job] never raises to its caller, whatever the record
    fetch, the generation call, the embedding call or the write do; and
    when no row has the given id it returns having made no call but the
    record fetch: no capability call, no write. *)
Theorem enrich_job_never_raises self job_id w :
  (exists w', enrich_job self job_id w = (Ok tt, w')) /\
  (filter (fun j => j_id j = job_id) (jobs w) = [] ->
   enrich_job self job_id w = (Ok tt, ticked (EvGetJob job_id) w)).
Proof.
  split; [apply enrich_job_returns|].
  intros Hnone.
  destruct (enrich_job self job_id w) as [r w'] eqn:E.
  unfold enrich_job, get_job in E. minv0; simpl in *; congruence.
Qed.

Lemma enrich_job_never_raises_witness :
  filter (fun j => j_id j = 7) (jobs store_down_world) = [] /\
  enrich_job demo_enricher 7 store_down_world
    = (Ok tt, ticked (EvGetJob 7) store_down_world).
Proof.
  split; [reflexivity|].
  apply (enrich_job_never_raises demo_enricher 7 store_down_world). reflexivity.
Defined.

(** Each of the four calls of [enrich_job] can be the one that raises:
    the call returns all the same, and the row stays as it was. *)
Example enrich_job_swallows_each_failure :
  Forall (fun script =>
            fst (enrich_job demo_enricher 1 (world_of [stuck_row 1 "a1" "Audit"] script))
              = Ok tt /\
            jobs (snd (enrich_job demo_enricher 1
                         (world_of [stuck_row 1 "a1" "Audit"] script)))
              = [stuck_row 1 "a1" "Audit"])
         [[Some boom];
          [None; Some boom];
          [None; None; Some boom];
          [None; None; None; Some boom]].
Proof. repeat constructor. Qed.

(** The status writes sit in the callers: an iteration of the posting loop
    that counts a new record ends on an [update_job] that sets [active], and
    so does a successful step of the sweep on a row read as [processing]. *)
Lemma ingest_posting_sets_active self job_data st w st' w' :
  ingest_posting self job_data (st, w) = (Ok tt, (st', w')) ->
  new st' = new st + 1 ->
  exists job_id data,
    head (trace w') = Some (EvUpdateJob job_id data) /\
    p_status data = Some "active".
Proof.
  intros H Hnew. apply ingest_posting_outcome in H.
  inversion H; subst; simpl in Hnew; try lia; eexists _, _; split; reflexivity.
Qed.

Lemma reenrich_one_repairs_status enricher job c w c' w' :
  reenrich_one enricher job (c, w) = (Ok tt, (c', w')) ->
  fst c' = fst c + 1 ->
  j_status job = "processing" ->
  head (trace w') = Some (EvUpdateJob (j_id job) (status_patch "active")).
Proof.
  unfold reenrich_one. intros H Hc Hs. minv; simpl in *; try lia; congruence.
Qed.

(** C10: [enrich_job] never writes the status column: the status of every
    row is as before, no call it makes carries a status, and its one write,
    when it gets that far, is the enrichment write (guide, questions,
    skills, embedding, salary) to the row it was given.  The move from
    processing to active is made by the callers, after [enrich_job] has
    returned: by the posting loop and by the status repair of the sweep. *)
Theorem enrich_job_never_writes_status self job_id w :
  let w' := snd (enrich_job self job_id w) in
  map (fun j => (j_id j, j_status j)) (jobs w')
    = map (fun j => (j_id j, j_status j)) (jobs w) /\
  filter writes_status (trace w') = filter writes_status (trace w) /\
  (filter is_job_write (trace w') = filter is_job_write (trace w) \/
   exists enrichment final_skills embedding,
     filter is_job_write (trace w')
       = EvUpdateJob job_id (enrichment_patch enrichment final_skills embedding)
           :: filter is_job_write (trace w)) /\
  (forall ingestion job_data st w0 st1 w1,
     ingest_posting ingestion job_data (st, w0) = (Ok tt, (st1, w1)) ->
     new st1 = new st + 1 ->
     exists created_id data,
       head (trace w1) = Some (EvUpdateJob created_id data) /\
       p_status data = Some "active") /\
  (forall job c w0 c1 w1,
     reenrich_one self job (c, w0) = (Ok tt, (c1, w1)) ->
     fst c1 = fst c + 1 ->
     j_status job = "processing" ->
     head (trace w1) = Some (EvUpdateJob (j_id job) (status_patch "active"))).
Proof.
  intros w'. subst w'.
  split; [apply enrich_job_statuses|].
  split; [apply enrich_job_no_status_write|].
  split.
  - destruct (enrich_job_cases self job_id w) as (w' & -> & H). simpl.
    destruct H as [[_ ->]|(job & _ & -> & _)]; [left; reflexivity|].
    right. unfold enrichment_write. eauto.
  - split.
    + intros. eapply ingest_posting_sets_active; eauto.
    + intros. eapply reenrich_one_repairs_status; eauto.
Qed.

Lemma enrich_job_never_writes_status_witness :
  reenrich_one demo_enricher (stuck_row 1 "a1" "Audit associate")
    ((0, 0), one_stuck_world)
  = (Ok tt,
     ((1, 0),
      snd (snd (reenrich_one demo_enricher (stuck_row 1 "a1" "Audit associate")
                  ((0, 0), one_stuck_world))))) /\
  j_status (stuck_row 1 "a1" "Audit associate") = "processing" /\
  map j_status (jobs (snd (enrich_job demo_enricher 1 one_stuck_world)))
    = ["processing"] /\
  head (trace (snd (snd (reenrich_one demo_enricher
                           (stuck_row 1 "a1" "Audit associate")
                           ((0, 0), one_stuck_world)))))
    = Some (EvUpdateJob 1 (status_patch "active")).
Proof.
  set (job := stuck_row 1 "a1" "Audit associate").
  set (r := reenrich_one demo_enricher job ((0, 0), one_stuck_world)).
  assert (Hr : r = (Ok tt, ((1, 0), snd (snd r)))) by (vm_compute; reflexivity).
  split; [exact Hr|]. split; [reflexivity|].
  destruct (enrich_job_never_writes_status demo_enricher 1 one_stuck_world)
    as (Hst & _ & _ & _ & Hrepair).
  split.
  - apply (f_equal (map snd)) in Hst. rewrite !map_map in Hst. exact Hst.
  - apply (Hrepair job (0, 0) one_stuck_world (1, 0) (snd (snd r)));
      [exact Hr|reflexivity..].
Defined.

(** ** Calls that go through *)

Lemma call_ok_at ev w : fault_at 0 w = None -> call ev w = (Ok tt, ticked ev w).
Proof.
  unfold fault_at, call. destruct (faults w) as [|[e|] fs]; simpl; congruence.
Qed.

Lemma call_raise_at ev w e : fault_at 0 w = Some e -> call ev w = (Raise e, ticked ev w).
Proof.
  unfold fault_at, call. destruct (faults w) as [|[e'|] fs]; simpl; congruence.
Qed.

Lemma fault_at_ticked n ev w : fault_at n (ticked ev w) = fault_at (S n) w.
Proof. unfold fault_at. simpl. destruct (faults w); reflexivity. Qed.

Lemma insert_scraping_log_ok source_name status started_at w :
  fault_at 0 w = None ->
  insert_scraping_log source_name status started_at w
  = (Ok (inserted_log source_name status started_at w),
     log_inserted_world source_name status started_at w).
Proof.
  intros H. unfold insert_scraping_log, bind. rewrite call_ok_at by assumption.
  reflexivity.
Qed.

Lemma update_scraping_log_ok log_id data w :
  fault_at 0 w = None ->
  update_scraping_log log_id data w = (Ok tt, log_updated_world log_id data w).
Proof.
  intros H. unfold update_scraping_log, bind. rewrite call_ok_at by assumption.
  reflexivity.
Qed.

(** ** A failing fetch *)

(** The world after a run whose fetch raised [exc]. *)
Lemma fetch_failure_run self scraper exc w :
  fetch_jobs scraper = Raise exc ->
  fault_at 0 w = None ->
  fault_at 1 w = None ->
  let source_name := lower (COMPANY_NAME scraper) in
  let log_id := l_id (inserted_log source_name "running" (clock w) w) in
  let w2 := fetched_world scraper
              (log_inserted_world source_name "running" (clock w) w) in
  ingest_jobs self scraper w
  = (Ok (with_error (exn_msg exc) stats0),
     log_updated_world log_id
       (fetch_failed_patch exc (format_exc exc) (clock w2)) w2).
Proof.
  intros Hf H0 H1 source_name log_id w2.
  unfold ingest_jobs, datetime_now.
  rewrite (bind_ok _ _ w (clock w) w) by reflexivity.
  erewrite bind_ok by (apply insert_scraping_log_ok; assumption).
  unfold with_local, ingest_from_fetch.
  unfold bind at 1. unfold try_except.
  unfold bind at 1. unfold liftW at 1, scraper_fetch. rewrite Hf. cbn [fst snd].
  unfold bind at 1. unfold liftW at 1, datetime_now, gets. cbn [fst snd].
  unfold bind at 1. unfold liftW at 1. cbn [fst snd].
  rewrite update_scraping_log_ok
    by (rewrite <- H1; unfold fault_at; simpl; destruct (faults w); reflexivity).
  reflexivity.
Qed.

(** C6, amended: in a run whose fetch raises, and in which the two writes
    to the run log go through, [ingest_jobs] returns the stats with all
    counters zero and the error message; the log row of the run is marked
    failed with the message, the traceback and a finish time; no posting is
    looked at and the jobs table is as before. *)
Theorem ingest_jobs_fetch_failure self scraper exc w :
  fetch_jobs scraper = Raise exc ->
  fault_at 0 w = None ->
  fault_at 1 w = None ->
  exists w' failed_row log_id data,
    ingest_jobs self scraper w = (Ok (with_error (exn_msg exc) stats0), w') /\
    scraping_logs w' = scraping_logs w ++ [failed_row] /\
    l_status failed_row = "failed" /\
    l_error_message failed_row = Some (exn_msg exc) /\
    l_traceback failed_row = Some (format_exc exc) /\
    is_Some (l_finished_at failed_row) /\
    jobs w' = jobs w /\
    trace w' = EvUpdateLog log_id data
                 :: EvFetch (COMPANY_NAME scraper)
                 :: EvInsertLog (lower (COMPANY_NAME scraper)) :: trace w.
Proof.
  intros Hf H0 H1.
  pose proof (fetch_failure_run self scraper exc w Hf H0 H1) as Hrun.
  simpl in Hrun.
  eexists _, _, _, _. split; [exact Hrun|].
  split.
  - simpl.
    apply (map_patch_fresh l_id
             (apply_log_patch
                (fetch_failed_patch exc (format_exc exc) (S (S (clock w)))))
             (scraping_logs w)
             (inserted_log (lower (COMPANY_NAME scraper)) "running" (clock w) w)).
    reflexivity.
  - simpl. repeat split; eauto.
Qed.

Lemma ingest_jobs_fetch_failure_witness :
  fetch_jobs failing_scraper = Raise boom /\
  fault_at 0 healthy_world = None /\
  fault_at 1 healthy_world = None /\
  fst (ingest_jobs demo_service failing_scraper healthy_world)
    = Ok (with_error "boom" stats0) /\
  jobs (snd (ingest_jobs demo_service failing_scraper healthy_world)) = [].
Proof.
  split; [reflexivity|]. split; [reflexivity|]. split; [reflexivity|].
  destruct (ingest_jobs_fetch_failure demo_service failing_scraper boom
              healthy_world eq_refl eq_refl eq_refl)
    as (w' & row & log_id & data & -> & _ & _ & _ & _ & _ & Hjobs & _).
  split; [reflexivity|exact Hjobs].
Defined.

(** C6 as stated fails when the write that should mark the run failed
    raises too: the exception leaves [ingest_jobs] and the log row stays
    at running. *)
Lemma ingest_jobs_fetch_failure_can_raise :
  fetch_jobs failing_scraper = Raise boom /\
  fst (ingest_jobs demo_service failing_scraper flaky_log_world) = Raise db_down /\
  map l_status
    (scraping_logs (snd (ingest_jobs demo_service failing_scraper flaky_log_world)))
  = ["running"].
Proof. vm_compute. repeat split; reflexivity. Qed.

(** ** The re-enrichment sweep *)

(** C7 does not hold of the code: [enrich_job] swallows its own failures,
    so the error boundary of the sweep never sees them.  On a row with all
    three enrichment fields missing and a generation model that raises, the
    sweep reports one success and no failure, moves the row from processing
    to active, and leaves all three fields missing. *)
Theorem reenrich_counts_failed_enrichment_as_success :
  needs_enrichment (stuck_row 1 "a1" "Audit associate") = true /\
  fst (_reenrich_unenriched_jobs demo_ai demo_emb stuck_world) = Ok (1, 0) /\
  exists j,
    jobs (snd (_reenrich_unenriched_jobs demo_ai demo_emb stuck_world)) = [j] /\
    all_enrichment_missing j /\
    j_status j = "active" /\
    filter is_generate
      (trace (snd (_reenrich_unenriched_jobs demo_ai demo_emb stuck_world)))
    = [EvGenerate "Audit associate" [] "Analyst" (Some "PwC")].
Proof.
  split; [reflexivity|]. split; [vm_compute; reflexivity|].
  eexists. split; [vm_compute; reflexivity|].
  split; [repeat split|]. split; [reflexivity|]. vm_compute. reflexivity.
Qed.

(** ** The cron lock *)

Lemma acquire_free now lock_name (locks : gmap string Z) :
  from_option (fun locked_until => (locked_until < now)%Z) True (locks !! lock_name) ->
  _acquire_cron_lock now lock_name (Some locks)
  = (Ok true, Some (<[lock_name := (now + _LOCK_TTL_MINUTES)%Z]> locks)).
Proof.
  unfold _acquire_cron_lock, try_except, bind, acquire_cron_lock_rpc.
  destruct (locks !! lock_name) as [u|]; simpl; intros H; [|reflexivity].
  rewrite decide_True by assumption. reflexivity.
Qed.

Lemma acquire_held now lock_name (locks : gmap string Z) locked_until :
  locks !! lock_name = Some locked_until ->
  (now <= locked_until)%Z ->
  _acquire_cron_lock now lock_name (Some locks) = (Ok false, Some locks).
Proof.
  unfold _acquire_cron_lock, try_except, bind, acquire_cron_lock_rpc.
  intros -> H. rewrite decide_False by lia. reflexivity.
Qed.

(** Without a lock table the scheduler proceeds unlocked. *)
Lemma acquire_fails_open now lock_name :
  _acquire_cron_lock now lock_name None = (Ok true, None).
Proof. reflexivity. Qed.

Lemma acquire_each_held times lock_name (locks : gmap string Z) locked_until :
  locks !! lock_name = Some locked_until ->
  Forall (fun now => (now <= locked_until)%Z) times ->
  acquire_each times lock_name (Some locks)
  = (Ok (repeat false (length times)), Some locks).
Proof.
  intros Hl Hall. induction Hall as [|now times Hnow _ IH]; [reflexivity|].
  cbn [acquire_each]. erewrite bind_ok by (eapply acquire_held; eauto).
  erewrite bind_ok by exact IH. reflexivity.
Qed.

(** C3: of the calls racing for one lock name that is free or stale, which
    the store serves one after the other, the first served gets true and
    every other call served while the winner's expiry has not passed gets
    false; a call served after that expiry gets true again. *)
Theorem cron_lock_single_winner lock_name (locks : gmap string Z)
    (first : Z) (others : list Z) (later : Z) :
  from_option (fun locked_until => (locked_until < first)%Z) True
              (locks !! lock_name) ->
  Forall (fun now => (now <= first + _LOCK_TTL_MINUTES)%Z) others ->
  (first + _LOCK_TTL_MINUTES < later)%Z ->
  exists db,
    acquire_each (first :: others) lock_name (Some locks)
    = (Ok (true :: repeat false (length others)), db) /\
    fst (_acquire_cron_lock later lock_name db) = Ok true.
Proof.
  intros Hfree Hothers Hlater.
  exists (Some (<[lock_name := (first + _LOCK_TTL_MINUTES)%Z]> locks)). split.
  - cbn [acquire_each]. erewrite bind_ok by (apply acquire_free; assumption).
    erewrite bind_ok
      by (eapply acquire_each_held; [apply lookup_insert_eq|eassumption]).
    reflexivity.
  - rewrite acquire_free; [reflexivity|].
    rewrite lookup_insert_eq. simpl. assumption.
Qed.

Lemma cron_lock_single_winner_witness :
  exists db,
    acquire_each [1000; 1005; 1030]%Z "daily_ingestion" (Some ∅)
    = (Ok [true; false; false], db) /\
    fst (_acquire_cron_lock 1031%Z "daily_ingestion" db) = Ok true.
Proof.
  apply (cron_lock_single_winner "daily_ingestion" ∅ 1000%Z [1005; 1030]%Z 1031%Z).
  - vm_compute. exact I.
  - repeat constructor; vm_compute; discriminate.
  - vm_compute. reflexivity.
Defined.

(** ** Runs in which the store answers *)

Lemma fault_free_at n w : fault_free w -> fault_at n w = None.
Proof.
  unfold fault_free, fault_at. intros H.
  destruct (faults w !! n) as [f|] eqn:E; [|reflexivity].
  simpl. eapply Forall_lookup_1 in H; eauto.
Qed.

Lemma liftW_run {L W A} (m : M W A) (l : L) w r w' :
  m w = (r, w') -> liftW m (l, w) = (r, (l, w')).
Proof. unfold liftW. simpl. intros ->. reflexivity. Qed.

Lemma find_job_by_external_id_none c e w :
  fault_at 0 w = None ->
  rows_with_identity c e (jobs w) = [] ->
  find_job_by_external_id c e w = (Ok None, ticked (EvFindByExternalId c e) w).
Proof.
  unfold find_job_by_external_id, rows_with_identity, bind, gets. intros H Hr.
  rewrite call_ok_at by assumption. simpl. rewrite Hr. reflexivity.
Qed.

Lemma find_job_by_external_id_one c e w j :
  fault_at 0 w = None ->
  rows_with_identity c e (jobs w) = [j] ->
  find_job_by_external_id c e w = (Ok (Some j), ticked (EvFindByExternalId c e) w).
Proof.
  unfold find_job_by_external_id, rows_with_identity, bind, gets. intros H Hr.
  rewrite call_ok_at by assumption. simpl. rewrite Hr. reflexivity.
Qed.

Lemma find_job_by_description_hash_ok h w :
  fault_at 0 w = None ->
  find_job_by_description_hash h w
  = (Ok (head (filter (donor_candidate h) (jobs w))), ticked (EvFindByHash h) w).
Proof.
  unfold find_job_by_description_hash, bind, gets. intros H.
  rewrite call_ok_at by assumption. simpl.
  destruct (filter _ (jobs w)) as [|d l]; reflexivity.
Qed.

Lemma create_job_ok data w :
  fault_at 0 w = None ->
  create_job data w = (Ok (created_row data w), created_world data w).
Proof.
  unfold create_job, bind, gets, modify. intros H.
  rewrite call_ok_at by assumption. reflexivity.
Qed.

Lemma update_job_ok job_id data w :
  fault_at 0 w = None ->
  update_job job_id data w = (Ok tt, updated_world job_id data w).
Proof.
  unfold update_job, bind, modify. intros H.
  rewrite call_ok_at by assumption. reflexivity.
Qed.

Lemma get_job_one job_id w job :
  fault_at 0 w = None ->
  filter (fun j => j_id j = job_id) (jobs w) = [job] ->
  get_job job_id w = (Ok (Some job), ticked (EvGetJob job_id) w).
Proof.
  unfold get_job, bind, gets. intros H Hr.
  rewrite call_ok_at by assumption. simpl. rewrite Hr. reflexivity.
Qed.

Lemma enrich_job_ok self job w :
  fault_at 0 w = None -> fault_at 1 w = None ->
  fault_at 2 w = None -> fault_at 3 w = None ->
  filter (fun j => j_id j = j_id job) (jobs w) = [job] ->
  enrich_job self (j_id job) w = (Ok tt, enriched_world self job w).
Proof.
  intros H0 H1 H2 H3 Hrow. unfold enrich_job, try_except.
  erewrite bind_ok by (apply get_job_one; eassumption).
  unfold ai_generate, emb_encode.
  unfold bind at 1. unfold bind at 1. unfold gets at 1.
  unfold bind at 1. rewrite call_ok_at by (rewrite fault_at_ticked; assumption).
  unfold ret at 1.
  unfold bind at 1. unfold bind at 1. unfold gets at 1.
  unfold bind at 1. rewrite call_ok_at by (rewrite !fault_at_ticked; assumption).
  unfold ret at 1.
  rewrite update_job_ok by (rewrite !fault_at_ticked; assumption).
  reflexivity.
Qed.

Lemma filter_none {A} (P : A -> Prop) `{!forall x, Decision (P x)} (l : list A) :
  (forall x, x ∈ l -> ~ P x) -> filter P l = [].
Proof.
  induction l as [|x l IH]; intros Hall; [reflexivity|].
  rewrite filter_cons_False by (apply Hall; left).
  apply IH. intros y Hy. apply Hall. right. assumption.
Qed.

(** The row just created is the one row with its id. *)
Lemma filter_created_id data w :
  filter (fun j => j_id j = j_id (created_row data w)) (jobs (created_world data w))
  = [created_row data w].
Proof.
  simpl. rewrite filter_app, filter_cons_True, filter_nil by reflexivity.
  rewrite filter_none; [reflexivity|].
  intros j Hj Heq. simpl in Heq.
  assert (j_id j < fresh_id (map j_id (jobs w)))
    by (apply fresh_id_gt, list_elem_of_fmap; eauto).
  lia.
Qed.

(** It has no embedding yet, so it is nobody's donor. *)
Lemma filter_donor_created h data w :
  filter (donor_candidate h) (jobs (created_world data w))
  = filter (donor_candidate h) (jobs w).
Proof.
  simpl. rewrite filter_app, filter_cons_False, filter_nil, app_nil_r; [reflexivity|].
  intros [_ [x Hx]]. discriminate.
Qed.

Lemma jobs_updated_created data w patch :
  jobs (updated_world (j_id (created_row data w)) patch (created_world data w))
  = jobs w ++ [apply_patch patch (created_row data w)].
Proof.
  simpl.
  apply (map_patch_fresh j_id (apply_patch patch) (jobs w) (created_row data w)).
  reflexivity.
Qed.

Lemma fault_at_created_world n data w :
  fault_at n (created_world data w) = fault_at (S n) w.
Proof. apply (fault_at_ticked n (EvCreateJob data) w). Qed.

Lemma fault_at_updated_world n job_id data w :
  fault_at n (updated_world job_id data w) = fault_at (S n) w.
Proof. apply (fault_at_ticked n (EvUpdateJob job_id data) w). Qed.

Ltac faults_tac :=
  repeat first [rewrite fault_at_created_world
               |rewrite fault_at_updated_world
               |rewrite fault_at_ticked];
  assumption.

(** The identity key is stored: the posting is skipped. *)
Lemma ingest_posting_skips self job_data company ext_id existing st w :
  rp_company_name job_data = Some company ->
  rp_external_id job_data = Some ext_id ->
  fault_at 0 w = None ->
  rows_with_identity company ext_id (jobs w) = [existing] ->
  ingest_posting self job_data (st, w)
  = (Ok tt, (incr_skipped st, ticked (EvFindByExternalId company ext_id) w)).
Proof.
  intros Hc He H0 Hrows. rewrite ingest_posting_eq, Hc, He. simpl getitem.
  unfold bind at 1. unfold ret at 1. unfold bind at 1. unfold ret at 1.
  unfold try_except.
  erewrite bind_ok
    by (apply liftW_run, find_job_by_external_id_one; eassumption).
  reflexivity.
Qed.

(** The identity key is new and an enriched row carries the hash of the
    description: the posting is inserted and cloned from that row. *)
Lemma ingest_posting_dedup_hit self job_data company ext_id title h donor st w :
  rp_company_name job_data = Some company ->
  rp_external_id job_data = Some ext_id ->
  rp_title job_data = Some title ->
  rows_with_identity company ext_id (jobs w) = [] ->
  desc_hash_of job_data = Some h ->
  head (filter (donor_candidate h) (jobs w)) = Some donor ->
  fault_at 0 w = None -> fault_at 1 w = None ->
  fault_at 2 w = None -> fault_at 3 w = None ->
  let data := posting_insert job_data company ext_id title in
  let w1 := ticked (EvFindByExternalId company ext_id) w in
  ingest_posting self job_data (st, w)
  = (Ok tt,
     (incr_dedup_hits (incr_new st),
      updated_world (j_id (created_row data w1)) (clone_patch donor)
        (ticked (EvFindByHash h) (created_world data w1)))).
Proof.
  intros Hc He Ht Hrows Hh Hd H0 H1 H2 H3 data w1.
  rewrite ingest_posting_eq, Hc, He, Ht, Hh. simpl getitem.
  unfold bind at 1. unfold ret at 1. unfold bind at 1. unfold ret at 1.
  unfold try_except.
  erewrite bind_ok
    by (apply liftW_run, find_job_by_external_id_none; eassumption).
  unfold bind at 1. unfold ret at 1.
  erewrite bind_ok by (apply liftW_run, create_job_ok; faults_tac).
  rewrite (desc_hash_truthy _ _ Hh).
  erewrite bind_ok
    by (apply liftW_run, find_job_by_description_hash_ok; faults_tac).
  rewrite filter_donor_created.
  change (jobs (ticked (EvFindByExternalId company ext_id) w)) with (jobs w).
  rewrite Hd.
  erewrite bind_ok by (apply liftW_run, update_job_ok; faults_tac).
  reflexivity.
Qed.

Create HintDb faults.

Lemma fault_free_created_world data w : fault_free w -> fault_free (created_world data w).
Proof. intros H. apply (fault_free_ticked (EvCreateJob data) w H). Qed.

Lemma fault_free_updated_world job_id data w :
  fault_free w -> fault_free (updated_world job_id data w).
Proof. intros H. apply (fault_free_ticked (EvUpdateJob job_id data) w H). Qed.

Lemma fault_free_donor_lookup_world job_data w :
  fault_free w -> fault_free (donor_lookup_world job_data w).
Proof.
  unfold donor_lookup_world. destruct (desc_hash_of job_data); [|exact id].
  apply fault_free_ticked.
Qed.

Lemma fault_free_enriched_world self job w :
  fault_free w -> fault_free (enriched_world self job w).
Proof.
  intros H. unfold enriched_world. apply fault_free_set_jobs.
  repeat apply fault_free_ticked. assumption.
Qed.

Lemma fault_free_fetched_world scraper w :
  fault_free w -> fault_free (fetched_world scraper w).
Proof. exact id. Qed.

Lemma fault_free_log_inserted_world source_name status started_at w :
  fault_free w -> fault_free (log_inserted_world source_name status started_at w).
Proof. intros H. apply (fault_free_ticked (EvInsertLog source_name) w H). Qed.

Lemma fault_free_log_updated_world log_id data w :
  fault_free w -> fault_free (log_updated_world log_id data w).
Proof. intros H. apply (fault_free_ticked (EvUpdateLog log_id data) w H). Qed.

#[export] Hint Resolve fault_free_ticked fault_free_created_world
  fault_free_updated_world fault_free_donor_lookup_world
  fault_free_enriched_world fault_free_fetched_world
  fault_free_log_inserted_world fault_free_log_updated_world
  fault_free_at : faults.

(** The identity key is new and no enriched row carries the hash of the
    description: the posting is inserted, enriched and set active. *)
Lemma ingest_posting_enriches self job_data company ext_id title st w :
  rp_company_name job_data = Some company ->
  rp_external_id job_data = Some ext_id ->
  rp_title job_data = Some title ->
  rows_with_identity company ext_id (jobs w) = [] ->
  from_option (fun h => filter (donor_candidate h) (jobs w) = []) True
              (desc_hash_of job_data) ->
  fault_free w ->
  let data := posting_insert job_data company ext_id title in
  let w1 := ticked (EvFindByExternalId company ext_id) w in
  let enricher := {| _ai := ingestion_ai self; _emb := ingestion_emb self |} in
  ingest_posting self job_data (st, w)
  = (Ok tt,
     (incr_new st,
      updated_world (j_id (created_row data w1)) (status_patch "active")
        (enriched_world enricher (created_row data w1)
           (donor_lookup_world job_data (created_world data w1))))).
Proof.
  intros Hc He Ht Hrows Hd Hff data w1 enricher.
  rewrite ingest_posting_eq, Hc, He, Ht. simpl getitem.
  unfold bind at 1. unfold ret at 1. unfold bind at 1. unfold ret at 1.
  unfold try_except.
  erewrite bind_ok
    by (apply liftW_run, find_job_by_external_id_none; eauto with faults).
  unfold bind at 1. unfold ret at 1.
  erewrite bind_ok by (apply liftW_run, create_job_ok; eauto with faults).
  assert (Hdonor :
    (match desc_hash_of job_data with
     | Some h =>
         if truthy_str h then liftW (find_job_by_description_hash h) else ret None
     | None => ret None
     end) (st, created_world data w1)
    = (Ok None, (st, donor_lookup_world job_data (created_world data w1)))).
  { unfold donor_lookup_world.
    destruct (desc_hash_of job_data) as [h|] eqn:Hh; [|reflexivity].
    rewrite (desc_hash_truthy _ _ Hh).
    erewrite liftW_run
      by (apply find_job_by_description_hash_ok; eauto with faults).
    rewrite filter_donor_created. simpl in Hd.
    change (jobs w1) with (jobs w). rewrite Hd. reflexivity. }
  erewrite bind_ok by exact Hdonor.
  assert (Hrow :
    filter (fun j => j_id j = j_id (created_row data w1))
           (jobs (donor_lookup_world job_data (created_world data w1)))
    = [created_row data w1]).
  { unfold donor_lookup_world. destruct (desc_hash_of job_data);
      apply filter_created_id. }
  cbv beta iota.
  erewrite bind_ok
    by (apply liftW_run, enrich_job_ok; eauto 6 with faults).
  erewrite bind_ok by (apply liftW_run, update_job_ok; eauto 6 with faults).
  reflexivity.
Qed.

(** A run put together from its parts: the log insert goes through, the
    fetch returns, the loop completes, the log update goes through. *)
Lemma ingest_jobs_run self scraper raw_jobs w stats w3 :
  fetch_jobs scraper = Ok raw_jobs ->
  fault_at 0 w = None ->
  let source_name := lower (COMPANY_NAME scraper) in
  let log_id := l_id (inserted_log source_name "running" (clock w) w) in
  let w2 := fetched_world scraper
              (log_inserted_world source_name "running" (clock w) w) in
  for_each raw_jobs (ingest_posting self)
    (set_fetched (length raw_jobs) stats0, w2) = (Ok tt, (stats, w3)) ->
  fault_at 0 w3 = None ->
  ingest_jobs self scraper w
  = (Ok stats, log_updated_world log_id (finalize_patch stats (clock w3)) w3).
Proof.
  intros Hf H0 source_name log_id w2 Hloop H3.
  unfold ingest_jobs, datetime_now.
  rewrite (bind_ok _ _ w (clock w) w) by reflexivity.
  erewrite bind_ok by (apply insert_scraping_log_ok; assumption).
  unfold with_local, ingest_from_fetch.
  unfold bind at 1. unfold try_except.
  unfold bind at 1. unfold liftW at 1, scraper_fetch. rewrite Hf. cbn [fst snd].
  unfold bind at 1. unfold modify_local at 1. cbn [fst snd].
  unfold ret at 1.
  fold source_name. fold w2.
  erewrite bind_ok by exact Hloop.
  unfold bind at 1. unfold get_local at 1. cbn [fst snd].
  unfold bind at 1. unfold liftW at 1, datetime_now, gets. cbn [fst snd].
  unfold bind at 1. unfold liftW at 1. cbn [fst snd].
  rewrite update_scraping_log_ok by assumption.
  reflexivity.
Qed.

(** ** Hash dedup *)

(** C9: an iteration of the posting loop that counts a dedup hit ends on
    the cloning write, which carries guide, questions, embedding and status
    and neither salary nor skills; the one row it adds has the donor's
    three fields, status active, the skills of the posting and no salary,
    whereas an enrichment write does carry the salary estimate. *)
Theorem dedup_hit_leaves_salary_absent self job_data st w st' w' :
  ingest_posting self job_data (st, w) = (Ok tt, (st', w')) ->
  dedup_hits st' = dedup_hits st + 1 ->
  (exists created donor,
     head (trace w') = Some (EvUpdateJob (j_id created) (clone_patch donor)) /\
     is_Some (p_resume_guide_generated (clone_patch donor)) /\
     is_Some (p_prep_guide_generated (clone_patch donor)) /\
     is_Some (p_embedding (clone_patch donor)) /\
     is_Some (p_status (clone_patch donor)) /\
     p_salary_range (clone_patch donor) = None /\
     p_skills_required (clone_patch donor) = None /\
     jobs w' = jobs w ++ [created] /\
     j_salary_range created = None /\
     j_skills_required created = Some (default [] (rp_skills_required job_data)) /\
     j_resume_guide_generated created = j_resume_guide_generated donor /\
     j_prep_guide_generated created = j_prep_guide_generated donor /\
     j_embedding created = j_embedding donor /\
     j_status created = "active") /\
  (forall enrichment final_skills embedding,
     p_salary_range (enrichment_patch enrichment final_skills embedding)
     = Some (estimated_salary_range enrichment)).
Proof.
  intros H Hd. split; [|reflexivity].
  apply ingest_posting_outcome in H.
  inversion H; subst; simpl in Hd; try lia.
  exists (apply_patch (clone_patch donor) (created_row data w1)), donor.
  split; [reflexivity|]. do 4 (split; [eexists; reflexivity|]).
  split; [reflexivity|]. split; [reflexivity|].
  split; [|repeat split].
  apply (jobs_updated_created data w1 (clone_patch donor)).
Qed.

Lemma dedup_hit_leaves_salary_absent_witness :
  fst (ingest_posting demo_service (demo_posting "a2" "Audit associate, Bengaluru")
         (stats0, donor_world)) = Ok tt /\
  dedup_hits (fst (snd (ingest_posting demo_service
                          (demo_posting "a2" "Audit associate, Bengaluru")
                          (stats0, donor_world)))) = dedup_hits stats0 + 1 /\
  exists created,
    jobs (snd (snd (ingest_posting demo_service
                      (demo_posting "a2" "Audit associate, Bengaluru")
                      (stats0, donor_world)))) = [donor_row; created] /\
    j_salary_range created = None /\
    j_salary_range donor_row = Some "$100k - $150k".
Proof.
  set (run := ingest_posting demo_service
                (demo_posting "a2" "Audit associate, Bengaluru")
                (stats0, donor_world)).
  assert (E : run = (Ok tt, (fst (snd run), snd (snd run))))
    by (vm_compute; reflexivity).
  assert (Hd : dedup_hits (fst (snd run)) = dedup_hits stats0 + 1)
    by (vm_compute; reflexivity).
  split; [rewrite E; reflexivity|]. split; [exact Hd|].
  destruct (dedup_hit_leaves_salary_absent _ _ _ _ _ _ E Hd)
    as ((created & donor & _ & _ & _ & _ & _ & _ & _ & Hjobs & Hsal & _) & _).
  exists created. split; [exact Hjobs|]. split; [exact Hsal|reflexivity].
Defined.

Lemma jobs_donor_lookup_world job_data w :
  jobs (donor_lookup_world job_data w) = jobs w.
Proof. unfold donor_lookup_world. destruct (desc_hash_of job_data); reflexivity. Qed.

Lemma clock_donor_lookup_world job_data h w :
  desc_hash_of job_data = Some h ->
  donor_lookup_world job_data w = ticked (EvFindByHash h) w.
Proof. unfold donor_lookup_world. intros ->. reflexivity. Qed.

(** The table after the enrichment path: one more row, enriched and active. *)
Lemma jobs_enriched_created self job_data data w :
  let created := created_row data w in
  let w3 := donor_lookup_world job_data (created_world data w) in
  jobs (updated_world (j_id created) (status_patch "active")
          (enriched_world self created w3))
  = jobs w ++ [apply_patch (status_patch "active")
                 (apply_patch (enrichment_write self created (S (clock w3)))
                    created)].
Proof.
  intros created w3.
  change (jobs (updated_world (j_id created) (status_patch "active")
                  (enriched_world self created w3)))
    with (map (fun j => if decide (j_id j = j_id created)
                        then apply_patch (status_patch "active") j else j)
            (map (fun j => if decide (j_id j = j_id created)
                           then apply_patch
                                  (enrichment_write self created (S (clock w3))) j
                           else j)
               (jobs w3))).
  unfold w3. rewrite jobs_donor_lookup_world.
  change (jobs (created_world data w)) with (jobs w ++ [created]).
  rewrite (map_patch_fresh j_id
             (apply_patch (enrichment_write self created
                             (S (clock (donor_lookup_world job_data
                                          (created_world data w))))))
             (jobs w) created) by reflexivity.
  apply (map_patch_fresh j_id (apply_patch (status_patch "active")) (jobs w)
           (apply_patch (enrichment_write self created
                           (S (clock (donor_lookup_world job_data
                                        (created_world data w)))))
              created)).
  reflexivity.
Qed.

Lemma desc_hash_of_same a b :
  rp_description_raw a = rp_description_raw b -> desc_hash_of a = desc_hash_of b.
Proof. unfold desc_hash_of. intros ->. reflexivity. Qed.

(** First half of C2: a posting with a new identity key whose non-empty
    description hashes to the hash of some enriched row is inserted, given
    the three enrichment fields of such a row and status active, counted as
    new and as a dedup hit, with no call to either model, provided the four
    store calls of the iteration go through. *)
Lemma dedup_hit_from_donor self job_data company ext_id title h st w :
  rp_company_name job_data = Some company ->
  rp_external_id job_data = Some ext_id ->
  rp_title job_data = Some title ->
  rows_with_identity company ext_id (jobs w) = [] ->
  desc_hash_of job_data = Some h ->
  (exists r, r ∈ jobs w /\ donor_candidate h r) ->
  fault_at 0 w = None -> fault_at 1 w = None ->
  fault_at 2 w = None -> fault_at 3 w = None ->
  exists donor created w',
    donor ∈ jobs w /\ donor_candidate h donor /\
    ingest_posting self job_data (st, w)
      = (Ok tt, (incr_dedup_hits (incr_new st), w')) /\
    jobs w' = jobs w ++ [created] /\
    j_company_name created = Some company /\
    j_external_id created = Some ext_id /\
    j_resume_guide_generated created = j_resume_guide_generated donor /\
    j_prep_guide_generated created = j_prep_guide_generated donor /\
    j_embedding created = j_embedding donor /\
    j_status created = "active" /\
    filter is_model_call (trace w') = filter is_model_call (trace w).
Proof.
  intros Hc He Ht Hrows Hh (r & Hr & Hcand) H0 H1 H2 H3.
  destruct (filter (donor_candidate h) (jobs w)) as [|donor l] eqn:Ef.
  { exfalso. exact (filter_nil_not_elem_of _ _ _ Ef Hcand Hr). }
  assert (Hin : donor ∈ filter (donor_candidate h) (jobs w))
    by (rewrite Ef; left).
  apply list_elem_of_filter in Hin as [Hdc Hdin].
  pose proof (ingest_posting_dedup_hit self job_data company ext_id title h donor
                st w Hc He Ht Hrows Hh) as Hrun.
  rewrite Ef in Hrun. specialize (Hrun eq_refl H0 H1 H2 H3). simpl in Hrun.
  eexists donor, _, _. split; [assumption|]. split; [assumption|].
  split; [exact Hrun|].
  split.
  { apply (jobs_updated_created (posting_insert job_data company ext_id title)
             (ticked (EvFindByExternalId company ext_id) w) (clone_patch donor)). }
  repeat split.
Qed.

(** Second half of C2: two postings with the same non-empty description
    and different, new identity keys, in a run in which nothing raises and
    before which no enriched row carries the hash. *)
Lemma two_postings_one_generation self scraper a b ca xa ta cb xb tb h w :
  fetch_jobs scraper = Ok [a; b] ->
  rp_company_name a = Some ca -> rp_external_id a = Some xa ->
  rp_title a = Some ta ->
  rp_company_name b = Some cb -> rp_external_id b = Some xb ->
  rp_title b = Some tb ->
  (ca, xa) <> (cb, xb) ->
  rows_with_identity ca xa (jobs w) = [] ->
  rows_with_identity cb xb (jobs w) = [] ->
  rp_description_raw a = rp_description_raw b ->
  desc_hash_of a = Some h ->
  filter (donor_candidate h) (jobs w) = [] ->
  fault_free w ->
  exists stats w' ra rb generation,
    ingest_jobs self scraper w = (Ok stats, w') /\
    jobs w' = jobs w ++ [ra; rb] /\
    j_company_name ra = Some ca /\ j_external_id ra = Some xa /\
    j_company_name rb = Some cb /\ j_external_id rb = Some xb /\
    is_Some (j_resume_guide_generated ra) /\
    is_Some (j_prep_guide_generated ra) /\
    is_Some (j_embedding ra) /\
    j_resume_guide_generated rb = j_resume_guide_generated ra /\
    j_prep_guide_generated rb = j_prep_guide_generated ra /\
    j_embedding rb = j_embedding ra /\
    j_status ra = "active" /\ j_status rb = "active" /\
    is_generate generation /\
    filter is_generate (trace w') = generation :: filter is_generate (trace w) /\
    new stats = 2 /\ dedup_hits stats = 1 /\ errors stats = 0.
Proof.
  intros Hf Hca Hxa Hta Hcb Hxb Htb Hne Hra Hrb Hdesc Hh Hnone Hff.
  set (source_name := lower (COMPANY_NAME scraper)).
  set (w2 := fetched_world scraper
               (log_inserted_world source_name "running" (clock w) w)).
  assert (Hff2 : fault_free w2) by (unfold w2; eauto with faults).
  (* posting a: inserted and enriched *)
  set (da := posting_insert a ca xa ta).
  set (w1a := ticked (EvFindByExternalId ca xa) w2).
  set (ea := {| _ai := ingestion_ai self; _emb := ingestion_emb self |}).
  set (wa := updated_world (j_id (created_row da w1a)) (status_patch "active")
               (enriched_world ea (created_row da w1a)
                  (donor_lookup_world a (created_world da w1a)))).
  assert (Ea : ingest_posting self a (set_fetched 2 stats0, w2)
               = (Ok tt, (incr_new (set_fetched 2 stats0), wa))).
  { apply ingest_posting_enriches; try assumption.
    rewrite Hh. exact Hnone. }
  set (ra := apply_patch (status_patch "active")
               (apply_patch
                  (enrichment_write ea (created_row da w1a)
                     (S (clock (donor_lookup_world a (created_world da w1a)))))
                  (created_row da w1a))).
  assert (Hja : jobs wa = jobs w ++ [ra])
    by apply (jobs_enriched_created ea a da w1a).
  assert (Hffa : fault_free wa) by (unfold wa, w1a; eauto 8 with faults).
  (* posting b: inserted and cloned from a *)
  assert (Hhb : desc_hash_of b = Some h)
    by (rewrite <- (desc_hash_of_same a b Hdesc); exact Hh).
  assert (Hrb' : rows_with_identity cb xb (jobs wa) = []).
  { rewrite Hja. unfold rows_with_identity in *.
    rewrite filter_app, Hrb, filter_cons_False, filter_nil; [reflexivity|].
    intros [H1 H2]. simpl in H1, H2. congruence. }
  assert (Hda : head (filter (donor_candidate h) (jobs wa)) = Some ra).
  { rewrite Hja, filter_app, Hnone, filter_cons_True; [reflexivity|].
    split; [exact Hh|]. eexists. reflexivity. }
  set (db := posting_insert b cb xb tb).
  set (w1b := ticked (EvFindByExternalId cb xb) wa).
  set (wb := updated_world (j_id (created_row db w1b)) (clone_patch ra)
               (ticked (EvFindByHash h) (created_world db w1b))).
  assert (Eb : ingest_posting self b (incr_new (set_fetched 2 stats0), wa)
               = (Ok tt, (incr_dedup_hits (incr_new (incr_new (set_fetched 2 stats0))),
                          wb))).
  { apply ingest_posting_dedup_hit; auto with faults. }
  set (rb := apply_patch (clone_patch ra) (created_row db w1b)).
  assert (Hjb : jobs wb = jobs wa ++ [rb])
    by apply (jobs_updated_created db w1b (clone_patch ra)).
  assert (Hffb : fault_free wb) by (unfold wb, w1b; eauto 8 with faults).
  (* the whole run *)
  assert (Hloop : for_each [a; b] (ingest_posting self) (set_fetched 2 stats0, w2)
                  = (Ok tt, (incr_dedup_hits (incr_new (incr_new (set_fetched 2 stats0))),
                             wb))).
  { cbn [for_each]. erewrite bind_ok by exact Ea. erewrite bind_ok by exact Eb.
    reflexivity. }
  pose proof (ingest_jobs_run self scraper [a; b] w _ wb Hf
                (fault_free_at 0 w Hff) Hloop (fault_free_at 0 wb Hffb)) as Hrun.
  eexists _, _, ra, rb, _. split; [exact Hrun|].
  split.
  { change (jobs (log_updated_world _ _ wb)) with (jobs wb).
    rewrite Hjb, Hja, <- app_assoc. reflexivity. }
  do 4 (split; [reflexivity|]).
  do 3 (split; [eexists; reflexivity|]).
  do 5 (split; [reflexivity|]).
  split; [|split; [|repeat split]].
  2:{ unfold wb, w1b, wa, w1a, w2.
      rewrite (clock_donor_lookup_world a h _ Hh). reflexivity. }
  exact I.
Qed.

(** C2, amended: a posting with a new identity key and a title whose
    non-empty description hashes to the hash of some enriched row is, when
    the store calls of its iteration go through, inserted with the guide,
    questions and embedding of such a row and status active, counted as new
    and as a dedup hit, with no call to the generation or embedding model;
    so a run whose fetch returns exactly two postings, each with a title,
    with the same non-empty description and different, new identity keys,
    in which nothing raises and before which no enriched row carries that
    hash, causes exactly one generation call and ends with the same guide,
    questions and embedding on both rows. *)
Theorem hash_dedup_shares_enrichment self scraper a b ca xa ta cb xb tb h w :
  fetch_jobs scraper = Ok [a; b] ->
  rp_company_name a = Some ca -> rp_external_id a = Some xa ->
  rp_title a = Some ta ->
  rp_company_name b = Some cb -> rp_external_id b = Some xb ->
  rp_title b = Some tb ->
  (ca, xa) <> (cb, xb) ->
  rows_with_identity ca xa (jobs w) = [] ->
  rows_with_identity cb xb (jobs w) = [] ->
  rp_description_raw a = rp_description_raw b ->
  desc_hash_of a = Some h ->
  filter (donor_candidate h) (jobs w) = [] ->
  fault_free w ->
  (exists stats w' ra rb generation,
     ingest_jobs self scraper w = (Ok stats, w') /\
     jobs w' = jobs w ++ [ra; rb] /\
     j_company_name ra = Some ca /\ j_external_id ra = Some xa /\
     j_company_name rb = Some cb /\ j_external_id rb = Some xb /\
     is_Some (j_resume_guide_generated ra) /\
     is_Some (j_prep_guide_generated ra) /\
     is_Some (j_embedding ra) /\
     j_resume_guide_generated rb = j_resume_guide_generated ra /\
     j_prep_guide_generated rb = j_prep_guide_generated ra /\
     j_embedding rb = j_embedding ra /\
     j_status ra = "active" /\ j_status rb = "active" /\
     is_generate generation /\
     filter is_generate (trace w') = generation :: filter is_generate (trace w) /\
     new stats = 2 /\ dedup_hits stats = 1 /\ errors stats = 0) /\
  (forall job_data company ext_id title h0 st w0,
     rp_company_name job_data = Some company ->
     rp_external_id job_data = Some ext_id ->
     rp_title job_data = Some title ->
     rows_with_identity company ext_id (jobs w0) = [] ->
     desc_hash_of job_data = Some h0 ->
     (exists r, r ∈ jobs w0 /\ donor_candidate h0 r) ->
     fault_at 0 w0 = None -> fault_at 1 w0 = None ->
     fault_at 2 w0 = None -> fault_at 3 w0 = None ->
     exists donor created w1,
       donor ∈ jobs w0 /\ donor_candidate h0 donor /\
       ingest_posting self job_data (st, w0)
         = (Ok tt, (incr_dedup_hits (incr_new st), w1)) /\
       jobs w1 = jobs w0 ++ [created] /\
       j_company_name created = Some company /\
       j_external_id created = Some ext_id /\
       j_resume_guide_generated created = j_resume_guide_generated donor /\
       j_prep_guide_generated created = j_prep_guide_generated donor /\
       j_embedding created = j_embedding donor /\
       j_status created = "active" /\
       filter is_model_call (trace w1) = filter is_model_call (trace w0)).
Proof.
  intros. split.
  - eapply two_postings_one_generation; eassumption.
  - intros. eapply dedup_hit_from_donor; eassumption.
Qed.

Lemma hash_dedup_shares_enrichment_witness :
  exists stats w' ra rb,
    ingest_jobs demo_service twin_scraper healthy_world = (Ok stats, w') /\
    jobs w' = [ra; rb] /\
    j_external_id ra = Some "a1" /\ j_external_id rb = Some "a2" /\
    j_resume_guide_generated rb = j_resume_guide_generated ra /\
    j_prep_guide_generated rb = j_prep_guide_generated ra /\
    j_embedding rb = j_embedding ra /\
    length (filter is_generate (trace w')) = 1.
Proof.
  destruct (hash_dedup_shares_enrichment demo_service twin_scraper
              (demo_posting "a1" "Audit associate, Bengaluru")
              (demo_posting "a2" "Audit associate, Bengaluru")
              "PwC" "a1" "Analyst" "PwC" "a2" "Analyst"
              (SHA256.hexdigest "Audit associate, Bengaluru") healthy_world)
    as ((stats & w' & ra & rb & g & Hrun & Hjobs & _ & Ha & _ & Hb & _ & _ & _
          & Hg & Hp & He & _ & _ & _ & Htr & _) & _).
  - reflexivity.
  - reflexivity.
  - reflexivity.
  - reflexivity.
  - reflexivity.
  - reflexivity.
  - reflexivity.
  - intros [= ?].
  - reflexivity.
  - reflexivity.
  - reflexivity.
  - vm_compute. reflexivity.
  - reflexivity.
  - constructor.
  - exists stats, w', ra, rb. rewrite Htr. repeat split; assumption.
Defined.

(** C2 as stated fails on both sides of "exactly one": with an enriched
    row of that hash already stored the two postings cause no generation
    call, and when the generation call for the first posting raises they
    cause two, and the first row ends without the guide the second has. *)
Lemma hash_dedup_generation_calls_not_one :
  length (filter is_generate
            (trace (snd (ingest_jobs demo_service twin_scraper donor_world)))) = 0 /\
  fst (ingest_jobs demo_service twin_scraper generation_down_once)
    = Ok {| fetched := 2; new := 2; skipped := 0; errors := 0; dedup_hits := 0;
            error := None |} /\
  length (filter is_generate
            (trace (snd (ingest_jobs demo_service twin_scraper
                           generation_down_once)))) = 2 /\
  map (fun j => bool_decide (is_Some (j_resume_guide_generated j)))
      (jobs (snd (ingest_jobs demo_service twin_scraper generation_down_once)))
  = [false; true].
Proof. vm_compute. repeat split; reflexivity. Qed.

(** ** Re-running a source *)

Lemma rows_with_identity_map company ext_id (f : JobRecord -> JobRecord) js :
  (forall j, j_company_name (f j) = j_company_name j /\
             j_external_id (f j) = j_external_id j) ->
  length (rows_with_identity company ext_id (map f js))
  = length (rows_with_identity company ext_id js).
Proof.
  intros Hf. unfold rows_with_identity.
  induction js as [|j js IH]; [reflexivity|]. simpl map.
  destruct (Hf j) as [Hc He].
  destruct (decide (same_identity company ext_id j)) as [Hj|Hj].
  - rewrite (filter_cons_True _ j) by assumption.
    rewrite filter_cons_True by (unfold same_identity in *; rewrite Hc, He; exact Hj).
    simpl. rewrite IH. reflexivity.
  - rewrite (filter_cons_False _ j) by assumption.
    rewrite filter_cons_False
      by (unfold same_identity in *; rewrite Hc, He; exact Hj).
    exact IH.
Qed.

Lemma rows_with_identity_patched company ext_id job_id data js :
  length (rows_with_identity company ext_id
            (map (fun j => if decide (j_id j = job_id)
                           then apply_patch data j else j) js))
  = length (rows_with_identity company ext_id js).
Proof.
  apply rows_with_identity_map. intros j. destruct (decide _); split; reflexivity.
Qed.

Lemma enrich_job_identities company ext_id self job_id :
  preserves (fun w => length (rows_with_identity company ext_id (jobs w)))
            (enrich_job self job_id).
Proof.
  intros w. destruct (enrich_job_cases self job_id w) as (w' & -> & H). simpl.
  destruct H as [[-> _]|(job & _ & _ & [->| ->])]; try reflexivity.
  apply rows_with_identity_patched.
Qed.

Lemma rows_after_insert company ext_id c x js row :
  j_company_name row = Some c ->
  j_external_id row = Some x ->
  length (rows_with_identity company ext_id (js ++ [row]))
  = length (rows_with_identity company ext_id js)
    + (if decide ((company, ext_id) = (c, x)) then 1 else 0).
Proof.
  intros Hc Hx. unfold rows_with_identity. rewrite filter_app, length_app.
  f_equal. destruct (decide _) as [Heq|Hne].
  - rewrite filter_cons_True; [reflexivity|].
    injection Heq as -> ->. split; assumption.
  - rewrite filter_cons_False; [reflexivity|].
    intros [H1 H2]. apply Hne. congruence.
Qed.

Lemma stored_once_transfer js js' job_data :
  (forall company ext_id,
     length (rows_with_identity company ext_id js')
     = length (rows_with_identity company ext_id js)) ->
  stored_once js job_data -> stored_once js' job_data.
Proof.
  intros Heq (c & x & Hc & Hx & Hl). exists c, x. rewrite Heq. auto.
Qed.

(** Inserting a row for a key that is not stored stores that key once and
    keeps every other key as it was. *)
Lemma stored_once_after_insert js row job_data c x :
  rp_company_name job_data = Some c ->
  rp_external_id job_data = Some x ->
  j_company_name row = Some c ->
  j_external_id row = Some x ->
  rows_with_identity c x js = [] ->
  stored_once (js ++ [row]) job_data /\
  (forall q, stored_once js q -> stored_once (js ++ [row]) q).
Proof.
  intros Hc Hx Hrc Hrx Hnone. split.
  - exists c, x. split; [assumption|]. split; [assumption|].
    rewrite (rows_after_insert c x c x js row Hrc Hrx), Hnone.
    rewrite decide_True by reflexivity. reflexivity.
  - intros q (c' & x' & Hc' & Hx' & Hl). exists c', x'.
    split; [assumption|]. split; [assumption|].
    rewrite (rows_after_insert c' x' c x js row Hrc Hrx).
    destruct (decide _) as [Heq|_]; [|lia].
    injection Heq as -> ->. rewrite Hnone in Hl. discriminate.
Qed.

(** An iteration that counts no error leaves the key of its posting
    stored exactly once, and every key stored once before still is. *)
Lemma ingest_posting_stores self job_data st w st' w' :
  ingest_posting self job_data (st, w) = (Ok tt, (st', w')) ->
  errors st' = errors st ->
  stored_once (jobs w') job_data /\
  (forall q, stored_once (jobs w) q -> stored_once (jobs w') q).
Proof.
  intros H He. apply ingest_posting_outcome in H.
  inversion H; subst; simpl in He; try lia.
  - (* skipped *)
    split; [|auto]. exists company, ext_id.
    split; [assumption|]. split; [assumption|].
    change (jobs (ticked (EvFindByExternalId company ext_id) w)) with (jobs w).
    match goal with Hr : rows_with_identity _ _ _ = [_] |- _ => rewrite Hr end.
    reflexivity.
  - (* dedup hit *)
    change (jobs (updated_world (j_id (created_row data w1)) (clone_patch donor)
                    (ticked (EvFindByHash h) w2)))
      with (jobs (updated_world (j_id (created_row data w1)) (clone_patch donor)
                    (created_world data w1))).
    rewrite jobs_updated_created.
    apply (stored_once_after_insert (jobs w) _ job_data company ext_id);
      auto.
  - (* enriched *)
    match goal with
    | Hen : enrich_job _ _ _ = (Ok tt, _) |- _ => rename Hen into Henr
    end.
    match goal with Hw : _ \/ _ |- _ => rename Hw into Hlookup end.
    assert (Hw3 : jobs w3 = jobs w ++ [created_row data w1])
      by (destruct Hlookup as [[_ ->]|(h & _ & _ & ->)]; reflexivity).
    assert (Hcount : forall c x,
              length (rows_with_identity c x
                        (jobs (updated_world (j_id created)
                                 (status_patch "active") w4)))
              = length (rows_with_identity c x
                          (jobs w ++ [created_row data w1]))).
    { intros c x.
      change (jobs (updated_world (j_id created) (status_patch "active") w4))
        with (map (fun j => if decide (j_id j = j_id created)
                            then apply_patch (status_patch "active") j else j)
                (jobs w4)).
      rewrite rows_with_identity_patched.
      pose proof (enrich_job_identities c x
                    {| _ai := ingestion_ai self; _emb := ingestion_emb self |}
                    (j_id created) w3) as Hp.
      rewrite Henr in Hp. simpl in Hp. rewrite Hp, Hw3. reflexivity. }
    destruct (stored_once_after_insert (jobs w) (created_row data w1) job_data
                company ext_id) as [Hp Hq]; auto.
    split.
    + eapply stored_once_transfer; [exact Hcount|exact Hp].
    + intros q Hs. eapply stored_once_transfer; [exact Hcount|]. auto.
Qed.

Lemma for_each_posting_errors_mono self raw_jobs st w st' w' :
  for_each raw_jobs (ingest_posting self) (st, w) = (Ok tt, (st', w')) ->
  errors st <= errors st'.
Proof.
  revert st w. induction raw_jobs as [|job_data rest IH]; intros st w H; simpl in H.
  - minv. lia.
  - apply bind_inv in H as [([] & [st1 w1] & H1 & H2)|(e & _ & [=])].
    apply ingest_posting_bumps_one in H1 as [Hb _]. apply IH in H2.
    unfold bumps_one in Hb. lia.
Qed.

(** A loop that counts no error leaves the key of every posting of the
    list stored exactly once. *)
Lemma for_each_posting_stores self raw_jobs st w st' w' :
  for_each raw_jobs (ingest_posting self) (st, w) = (Ok tt, (st', w')) ->
  errors st' = errors st ->
  Forall (stored_once (jobs w')) raw_jobs /\
  (forall q, stored_once (jobs w) q -> stored_once (jobs w') q).
Proof.
  revert st w. induction raw_jobs as [|job_data rest IH]; intros st w H He;
    simpl in H.
  - minv. split; [constructor|auto].
  - apply bind_inv in H as [([] & [st1 w1] & H1 & H2)|(e & _ & [=])].
    pose proof (for_each_posting_errors_mono _ _ _ _ _ _ H2) as Hm2.
    pose proof H1 as Hb. apply ingest_posting_bumps_one in Hb as [Hb _].
    assert (He1 : errors st1 = errors st) by (unfold bumps_one in Hb; lia).
    destruct (ingest_posting_stores _ _ _ _ _ _ H1 He1) as [Hp Hq].
    destruct (IH _ _ H2 ltac:(lia)) as [Hall Hkeep].
    split; [constructor; auto|auto].
Qed.

(** On a table in which every posting of the list is stored once, and
    with a store that answers, the loop skips them all and writes nothing. *)
Lemma for_each_posting_all_skipped self raw_jobs st w :
  Forall (stored_once (jobs w)) raw_jobs ->
  fault_free w ->
  exists st' w',
    for_each raw_jobs (ingest_posting self) (st, w) = (Ok tt, (st', w')) /\
    jobs w' = jobs w /\ fault_free w' /\
    new st' = new st /\ skipped st' = skipped st + length raw_jobs /\
    errors st' = errors st /\ fetched st' = fetched st.
Proof.
  revert st w. induction raw_jobs as [|job_data rest IH]; intros st w Hall Hff.
  - exists st, w. simpl. repeat split; auto; lia.
  - inversion Hall as [|? ? (c & x & Hc & Hx & Hl) Hrest]; subst.
    destruct (rows_with_identity c x (jobs w)) as [|j [|j' l]] eqn:Hrows;
      try discriminate.
    pose proof (ingest_posting_skips self job_data c x j st w Hc Hx
                  (fault_free_at 0 w Hff) Hrows) as Hstep.
    destruct (IH (incr_skipped st) (ticked (EvFindByExternalId c x) w))
      as (st' & w' & Hloop & Hj & Hff' & Hn & Hs & He & Hfe);
      [exact Hrest|auto with faults|].
    exists st', w'. cbn [for_each]. erewrite bind_ok by exact Hstep.
    split; [exact Hloop|]. simpl in *. repeat split; auto; lia.
Qed.

(** ** Runs that return *)

Lemma stable_ret {Σ A} (P : Σ -> Prop) (a : A) : stable P (ret a).
Proof. intros s H. exact H. Qed.

Lemma stable_raise {Σ A} (P : Σ -> Prop) e : stable P (@raise Σ A e).
Proof. intros s H. exact H. Qed.

Lemma stable_bind {Σ A B} (P : Σ -> Prop) (m : M Σ A) (k : A -> M Σ B) :
  stable P m -> (forall a, stable P (k a)) -> stable P (bind m k).
Proof.
  intros Hm Hk s H. unfold bind. specialize (Hm s H).
  destruct (m s) as [[a|e] s1]; simpl in *; [|assumption].
  apply Hk. assumption.
Qed.

Lemma stable_try_except {Σ A} (P : Σ -> Prop) (body : M Σ A) handler :
  stable P body -> (forall e, stable P (handler e)) ->
  stable P (try_except body handler).
Proof.
  intros Hb Hh s H. unfold try_except. specialize (Hb s H).
  destruct (body s) as [[a|e] s1]; simpl in *; [assumption|].
  apply Hh. assumption.
Qed.

Lemma stable_for_each {Σ A} (P : Σ -> Prop) (xs : list A) body :
  (forall x, stable P (body x)) -> stable P (for_each xs body).
Proof.
  intros Hb. induction xs as [|x xs IH]; simpl.
  - apply stable_ret.
  - apply stable_bind; auto.
Qed.

Lemma stable_liftW {L W A} (P : W -> Prop) (m : M W A) :
  stable P m -> stable (fun s : L * W => P (snd s)) (liftW m).
Proof.
  intros Hm [l w] H. unfold liftW. simpl in *. specialize (Hm w H).
  destruct (m w) as [r w1]. assumption.
Qed.

Lemma stable_modify_local {L W} (P : W -> Prop) (g : L -> L) :
  stable (fun s : L * W => P (snd s)) (modify_local g).
Proof. intros s H. exact H. Qed.

Lemma stable_getitem {Σ A} (P : Σ -> Prop) key (v : option A) :
  stable P (getitem key v).
Proof. destruct v; [apply stable_ret|apply stable_raise]. Qed.

Lemma stable_gets {A} (P : World -> Prop) (g : World -> A) : stable P (gets g).
Proof. intros s H. exact H. Qed.

Lemma stable_maybe_single {A} (P : World -> Prop) (rows : list A) :
  stable P (maybe_single rows).
Proof.
  destruct rows as [|r [|r' rows]]; simpl;
    [apply stable_ret | apply stable_ret | apply stable_raise].
Qed.

Lemma fault_free_call ev : stable fault_free (call ev).
Proof. intros w H. apply fault_free_ticked. assumption. Qed.

Ltac stable_step :=
  match goal with
  | |- stable _ (ret _) => apply stable_ret
  | |- stable _ (raise _) => apply stable_raise
  | |- stable _ (getitem _ _) => apply stable_getitem
  | |- stable _ (gets _) => apply stable_gets
  | |- stable _ (maybe_single _) => apply stable_maybe_single
  | |- stable _ (modify_local _) => apply stable_modify_local
  | |- stable _ (liftW _) => apply stable_liftW
  | |- stable _ (bind _ _) => apply stable_bind; [|intros ?]
  | |- stable _ (try_except _ _) => apply stable_try_except; [|intros ?]
  | |- stable _ (for_each _ _) => apply stable_for_each; intros ?
  | |- stable fault_free (call _) => apply fault_free_call
  | |- stable fault_free (modify _) => intros ? ?; assumption
  | |- stable _ (match ?x with _ => _ end) => destruct x
  end.

Lemma ingest_posting_fault_free self job_data :
  stable (fun s : Stats * World => fault_free (snd s)) (ingest_posting self job_data).
Proof. unfold_pipeline. repeat stable_step. Qed.

(** Inside the error boundary nothing gets out: an iteration on a posting
    with both identity keys returns. *)
Lemma ingest_posting_returns self job_data s :
  has_identity job_data ->
  exists s', ingest_posting self job_data s = (Ok tt, s').
Proof.
  intros [[c Hc] [x Hx]]. unfold ingest_posting. rewrite Hc, Hx. simpl getitem.
  unfold bind at 1. unfold ret at 1. unfold bind at 1. unfold ret at 1.
  match goal with
  | |- context [try_except ?body ?handler s] =>
      destruct (try_except_returns body handler
                  ltac:(intros e s0; eexists tt, _; reflexivity) s)
        as ([] & s' & Hs)
  end.
  eauto.
Qed.

Lemma for_each_posting_returns self raw_jobs st w :
  Forall has_identity raw_jobs ->
  fault_free w ->
  exists st' w',
    for_each raw_jobs (ingest_posting self) (st, w) = (Ok tt, (st', w')) /\
    fault_free w'.
Proof.
  revert st w. induction raw_jobs as [|job_data rest IH]; intros st w Hall Hff.
  - exists st, w. auto.
  - inversion Hall as [|? ? Hid Hrest]; subst.
    destruct (ingest_posting_returns self job_data (st, w) Hid) as ([st1 w1] & H1).
    pose proof (ingest_posting_fault_free self job_data (st, w) Hff) as Hff1.
    rewrite H1 in Hff1. simpl in Hff1.
    destruct (IH st1 w1 Hrest Hff1) as (st' & w' & H2 & Hff').
    exists st', w'. cbn [for_each]. erewrite bind_ok by exact H1. auto.
Qed.

(** With a store that answers, a run whose fetch returns postings that all
    carry their identity keys returns its stats. *)
Lemma ingest_jobs_returns self scraper raw_jobs w :
  fetch_jobs scraper = Ok raw_jobs ->
  Forall has_identity raw_jobs ->
  fault_free w ->
  exists stats w', ingest_jobs self scraper w = (Ok stats, w').
Proof.
  intros Hf Hall Hff.
  destruct (for_each_posting_returns self raw_jobs
              (set_fetched (length raw_jobs) stats0)
              (fetched_world scraper
                 (log_inserted_world (lower (COMPANY_NAME scraper)) "running"
                    (clock w) w)) Hall ltac:(auto with faults))
    as (stats & w3 & Hloop & Hff3).
  eexists _, _.
  apply (ingest_jobs_run self scraper raw_jobs w stats w3 Hf
           (fault_free_at 0 w Hff) Hloop (fault_free_at 0 w3 Hff3)).
Qed.

(** C8, amended: when a run that counted no error is followed by a run of
    the same source on the same postings, with the rows of the first run in
    place and a store that answers, the second run inserts nothing and
    skips every posting: [new = 0] and [skipped] is the first run's
    [new + skipped], which is the first run's [new] exactly when the first
    run skipped nothing. *)
Theorem reingest_skips_everything self scraper raw_jobs w0 stats1 w1 w1' :
  fetch_jobs scraper = Ok raw_jobs ->
  ingest_jobs self scraper w0 = (Ok stats1, w1) ->
  errors stats1 = 0 ->
  jobs w1' = jobs w1 ->
  fault_free w1' ->
  exists stats2 w2,
    ingest_jobs self scraper w1' = (Ok stats2, w2) /\
    new stats2 = 0 /\
    errors stats2 = 0 /\
    skipped stats2 = new stats1 + skipped stats1 /\
    skipped stats2 = length raw_jobs /\
    (skipped stats1 = 0 -> skipped stats2 = new stats1) /\
    jobs w2 = jobs w1.
Proof.
  intros Hf Hrun1 He1 Hjobs Hff.
  destruct (ingest_jobs_fetched_inv _ _ _ _ _ _ Hf Hrun1) as (w3 & Hloop1 & ->).
  pose proof (for_each_posting_counts _ _ _ _ _ _ Hloop1) as [Hc1 _].
  destruct (for_each_posting_stores _ _ _ _ _ _ Hloop1 He1) as [Hstored _].
  change (jobs (log_updated_world _ _ w3)) with (jobs w3) in Hjobs.
  set (w2' := fetched_world scraper
                (log_inserted_world (lower (COMPANY_NAME scraper)) "running"
                   (clock w1') w1')).
  assert (Hj2 : jobs w2' = jobs w3) by exact Hjobs.
  assert (Hff2 : fault_free w2') by (unfold w2'; auto with faults).
  rewrite <- Hj2 in Hstored.
  destruct (for_each_posting_all_skipped self raw_jobs
              (set_fetched (length raw_jobs) stats0) w2' Hstored Hff2)
    as (stats2 & w4 & Hloop2 & Hj4 & Hff4 & Hn & Hs & He & _).
  pose proof (ingest_jobs_run self scraper raw_jobs w1' stats2 w4 Hf
                (fault_free_at 0 w1' Hff) Hloop2 (fault_free_at 0 w4 Hff4)) as Hrun2.
  eexists _, _. split; [exact Hrun2|].
  simpl in Hn, Hs, He, Hc1.
  split; [assumption|]. split; [assumption|].
  split; [lia|]. split; [lia|]. split; [lia|].
  change (jobs (log_updated_world _ _ w4)) with (jobs w4).
  change (jobs (log_updated_world _ _ w3)) with (jobs w3).
  congruence.
Qed.

Lemma reingest_skips_everything_witness :
  exists stats2 w2,
    ingest_jobs demo_service twin_scraper
      (snd (ingest_jobs demo_service twin_scraper healthy_world))
    = (Ok stats2, w2) /\
    new stats2 = 0 /\ skipped stats2 = 2.
Proof.
  assert (Hrun1 : ingest_jobs demo_service twin_scraper healthy_world
                  = (Ok {| fetched := 2; new := 2; skipped := 0; errors := 0;
                           dedup_hits := 1; error := None |},
                     snd (ingest_jobs demo_service twin_scraper healthy_world)))
    by (vm_compute; reflexivity).
  destruct (reingest_skips_everything demo_service twin_scraper twin_postings
              healthy_world _ _
              (snd (ingest_jobs demo_service twin_scraper healthy_world))
              eq_refl Hrun1 eq_refl eq_refl)
    as (stats2 & w2 & Hrun2 & Hn & _ & Hs & _).
  - unfold fault_free. vm_compute. constructor.
  - exists stats2, w2. split; [exact Hrun2|]. split; [exact Hn|exact Hs].
Defined.

(** C8 as stated fails as soon as the earlier run skipped something.  On
    a list that names one key twice the first run counts two new records and
    one skipped, the second skips all three; and on the twin postings the
    second run skips both and so does the third, whose predecessor counted
    no new record. *)
Lemma reingest_skipped_not_previous_new :
  (exists first second,
     fst (ingest_jobs demo_service repeat_scraper healthy_world) = Ok first /\
     fst (ingest_jobs demo_service repeat_scraper
            (snd (ingest_jobs demo_service repeat_scraper healthy_world)))
     = Ok second /\
     errors first = 0 /\ new first = 2 /\
     new second = 0 /\ skipped second = 3 /\
     skipped second <> new first) /\
  (exists second third,
     fst (ingest_jobs demo_service twin_scraper
            (snd (ingest_jobs demo_service twin_scraper healthy_world)))
     = Ok second /\
     fst (ingest_jobs demo_service twin_scraper
            (snd (ingest_jobs demo_service twin_scraper
                    (snd (ingest_jobs demo_service twin_scraper healthy_world)))))
     = Ok third /\
     errors second = 0 /\ new second = 0 /\
     new third = 0 /\ skipped third = 2 /\
     skipped third <> new second).
Proof.
  split; eexists _, _; (split; [vm_compute; reflexivity|]);
    (split; [vm_compute; reflexivity|]); repeat split; discriminate.
Qed.

(** ** What the sweep does guarantee *)

(** A step of the sweep returns and moves exactly one of its two counters. *)
Lemma reenrich_one_counts enricher job c w :
  exists c' w',
    reenrich_one enricher job (c, w) = (Ok tt, (c', w')) /\
    fst c' + snd c' = fst c + snd c + 1.
Proof.
  destruct (reenrich_one enricher job (c, w)) as [r [c' w']] eqn:E.
  unfold reenrich_one in E. minv; eexists _, _; (split; [reflexivity|]);
    simpl; lia.
Qed.

Lemma for_each_reenrich_counts enricher batch c w :
  exists c' w',
    for_each batch (reenrich_one enricher) (c, w) = (Ok tt, (c', w')) /\
    fst c' + snd c' = fst c + snd c + length batch.
Proof.
  revert c w. induction batch as [|job rest IH]; intros c w.
  - exists c, w. simpl. split; [reflexivity|lia].
  - destruct (reenrich_one_counts enricher job c w) as (c1 & w1 & H1 & Hc1).
    destruct (IH c1 w1) as (c' & w' & H2 & Hc').
    exists c', w'. cbn [for_each]. erewrite bind_ok by exact H1.
    split; [exact H2|]. simpl. lia.
Qed.

Lemma reenrich_batch_counts enricher unenriched batch_start c w :
  exists c' w',
    reenrich_batch enricher unenriched batch_start (c, w) = (Ok tt, (c', w')) /\
    fst c' + snd c'
    = fst c + snd c + length (take BATCH_SIZE (drop batch_start unenriched)).
Proof.
  unfold reenrich_batch.
  destruct (for_each_reenrich_counts enricher
              (take BATCH_SIZE (drop batch_start unenriched)) c w)
    as (c1 & w1 & H1 & Hc1).
  erewrite bind_ok by exact H1.
  destruct (decide _); eexists _, _; (split; [reflexivity|]); exact Hc1.
Qed.

Lemma for_each_batches_counts enricher unenriched starts c w :
  exists c' w',
    for_each starts (reenrich_batch enricher unenriched) (c, w)
      = (Ok tt, (c', w')) /\
    fst c' + snd c'
    = fst c + snd c
      + sum_list_with (fun s => length (take BATCH_SIZE (drop s unenriched))) starts.
Proof.
  revert c w. induction starts as [|s rest IH]; intros c w.
  - exists c, w. simpl. split; [reflexivity|lia].
  - destruct (reenrich_batch_counts enricher unenriched s c w)
      as (c1 & w1 & H1 & Hc1).
    destruct (IH c1 w1) as (c' & w' & H2 & Hc').
    exists c', w'. cbn [for_each]. erewrite bind_ok by exact H1.
    split; [exact H2|]. simpl. lia.
Qed.

(** The batches cut the candidate list into consecutive pieces. *)
Lemma batches_cover {A} (l : list A) (m : nat) :
  sum_list_with (fun s => length (take BATCH_SIZE (drop s l)))
                (map (fun k => k * BATCH_SIZE) (seq 0 m))
  = Nat.min (m * BATCH_SIZE) (length l).
Proof.
  induction m as [|m IH]; [reflexivity|].
  rewrite seq_S, map_app, sum_list_with_app, IH.
  cbn [sum_list_with map Nat.add].
  rewrite length_take, length_drop. unfold BATCH_SIZE. lia.
Qed.

Lemma range_step_cover {A} (l : list A) :
  sum_list_with (fun s => length (take BATCH_SIZE (drop s l)))
                (range_step (length l) BATCH_SIZE)
  = length l.
Proof.
  unfold range_step. rewrite batches_cover. unfold BATCH_SIZE.
  pose proof (Nat.div_mod_eq (length l + 3 - 1) 3).
  pose proof (Nat.mod_upper_bound (length l + 3 - 1) 3). lia.
Qed.

(** Once the listing has answered, the sweep completes, and its two
    counters add up to the number of candidates. *)
Lemma reenrich_sweep_completes ai emb w :
  fault_at 0 w = None ->
  exists success failed w',
    _reenrich_unenriched_jobs ai emb w = (Ok (success, failed), w') /\
    success + failed = length (filter needs_enrichment (jobs w)).
Proof.
  intros H0. unfold _reenrich_unenriched_jobs, select_jobs.
  unfold bind at 1. unfold bind at 1. rewrite call_ok_at by assumption.
  unfold gets at 1. unfold with_local.
  change (jobs (ticked EvSelectJobs w)) with (jobs w).
  destruct (for_each_batches_counts {| _ai := ai; _emb := emb |}
              (filter needs_enrichment (jobs w))
              (range_step (length (filter needs_enrichment (jobs w))) BATCH_SIZE)
              (0, 0) (ticked EvSelectJobs w))
    as ([success failed] & w' & Hloop & Hsum).
  erewrite bind_ok by exact Hloop.
  exists success, failed, w'. split; [reflexivity|].
  rewrite range_step_cover in Hsum. simpl in Hsum. lia.
Qed.

(** * The code around the pipeline *)

(** ** The scheduler: trigger_ingestion *)

Lemma for_each_returns {Σ A} (xs : list A) (body : A -> M Σ unit) :
  (forall x s, exists s', body x s = (Ok tt, s')) ->
  forall s, exists s', for_each xs body s = (Ok tt, s').
Proof.
  intros Hb. induction xs as [|x xs IH]; intros s; simpl.
  - eexists. reflexivity.
  - destruct (Hb x s) as (s1 & H1). destruct (IH s1) as (s2 & H2).
    exists s2. erewrite bind_ok by exact H1. exact H2.
Qed.

(** The error boundary around a source: the iteration returns. *)
Lemma trigger_scraper_returns service scraper s :
  exists s', trigger_scraper service scraper s = (Ok tt, s').
Proof.
  unfold trigger_scraper, try_except.
  destruct (bind _ _ s) as [[[]|e] s1] eqn:E; eauto.
Qed.

Lemma scraper_fetch_preserves {X} (f : World -> X) scraper :
  (forall w, f (fetched_world scraper w) = f w) ->
  preserves f (scraper_fetch scraper).
Proof. intros H w. apply H. Qed.

Lemma ingest_from_fetch_log_inserts self scraper log_id :
  preserves (fun s : Stats * World => filter is_log_insert (trace (snd s)))
            (ingest_from_fetch self scraper log_id).
Proof.
  unfold ingest_from_fetch, datetime_now, update_scraping_log.
  frame.
  - apply scraper_fetch_preserves. reflexivity.
  - unfold ingest_posting, enrich_job, find_job_by_external_id, create_job,
    find_job_by_description_hash, update_job, get_job, ai_generate, emb_encode.
    frame.
Qed.

(** A run inserts one scraping-log row, for its own source, whatever
    happens later. *)
Lemma ingest_jobs_log_inserts self scraper w :
  filter is_log_insert (trace (snd (ingest_jobs self scraper w)))
  = EvInsertLog (lower (COMPANY_NAME scraper)) :: filter is_log_insert (trace w).
Proof.
  unfold ingest_jobs, datetime_now, insert_scraping_log.
  unfold bind at 1. unfold gets at 1. cbv beta iota.
  unfold bind at 1. unfold bind at 1.
  destruct (call (EvInsertLog (lower (COMPANY_NAME scraper))) w) as [[[]|e] w1] eqn:E;
    apply call_inv in E; subst w1.
  - unfold bind at 1. unfold gets at 1. cbv beta iota.
    unfold bind at 1. unfold modify at 1. cbv beta iota. unfold ret at 1.
    cbv beta iota.
    rewrite (preserves_with_local (fun w => filter is_log_insert (trace w))).
    + reflexivity.
    + apply ingest_from_fetch_log_inserts.
  - reflexivity.
Qed.

(** One iteration of the scheduler's loop is one run of [ingest_jobs],
    whose stats or error message go into the results. *)
Lemma trigger_scraper_inv service scraper m w r m' w' :
  trigger_scraper service scraper (m, w) = (r, (m', w')) ->
  r = Ok tt /\
  w' = snd (ingest_jobs service scraper w) /\
  m' = <[lower (COMPANY_NAME scraper) :=
          match fst (ingest_jobs service scraper w) with
          | Ok stats => SourceStats stats
          | Raise e => SourceError (exn_msg e)
          end]> m.
Proof.
  unfold trigger_scraper. intros H. minv0; simpl; rewrite ?H0, ?H; auto.
  all: match goal with H : ingest_jobs _ _ _ = _ |- _ => rewrite H end; auto.
Qed.

(** The loop over the scrapers fills one entry per source name and
    inserts one log row per scraper. *)
Lemma for_each_trigger_scraper service scrapers m w r m' w' :
  for_each scrapers (trigger_scraper service) (m, w) = (r, (m', w')) ->
  r = Ok tt /\
  dom m' = dom m ∪ list_to_set (map (fun s => lower (COMPANY_NAME s)) scrapers) /\
  filter is_log_insert (trace w')
  = rev (map (fun s => EvInsertLog (lower (COMPANY_NAME s))) scrapers)
    ++ filter is_log_insert (trace w).
Proof.
  revert m w. induction scrapers as [|s scrapers IH]; intros m w H; simpl in *.
  - minv0. split; [reflexivity|]. split; [|reflexivity].
    symmetry. apply (right_id_L ∅ (∪)).
  - minv0.
    + match goal with H : trigger_scraper _ _ _ = _ |- _ =>
        apply trigger_scraper_inv in H; destruct H as (_ & Hw & Hm) end.
      apply IH in H. destruct H as (Hr & Hd & Ht). subst.
      split; [reflexivity|]. split.
      * rewrite Hd, dom_insert_L. apply set_eq. intros x.
        rewrite !elem_of_union. tauto.
      * rewrite Ht, ingest_jobs_log_inserts, <- app_assoc. reflexivity.
    + match goal with H : trigger_scraper _ _ _ = _ |- _ =>
        apply trigger_scraper_inv in H; destruct H as (? & _) end.
      discriminate.
Qed.

(** With a non-empty selection the function is the loop over it. *)
Lemma trigger_ingestion_selected service all_scrapers scraper_name w :
  selected_scrapers all_scrapers scraper_name <> [] ->
  trigger_ingestion service all_scrapers scraper_name w
  = with_local ∅
      (for_each (selected_scrapers all_scrapers scraper_name) (trigger_scraper service) ;;
       results <- get_local ;;
       ret (Results results)) w.
Proof.
  unfold trigger_ingestion, selected_scrapers.
  destruct scraper_name as [name|]; [|reflexivity].
  destruct (truthy_str name && bool_decide (lower name <> "all")); [|reflexivity].
  destruct (filter _ all_scrapers) as [|s l]; [congruence|reflexivity].
Qed.

Lemma trigger_ingestion_run service all_scrapers scraper_name w r w' :
  selected_scrapers all_scrapers scraper_name <> [] ->
  trigger_ingestion service all_scrapers scraper_name w = (r, w') ->
  exists results,
    r = Ok (Results results) /\
    dom results
    = list_to_set (map (fun s => lower (COMPANY_NAME s))
                       (selected_scrapers all_scrapers scraper_name)) /\
    filter is_log_insert (trace w')
    = rev (map (fun s => EvInsertLog (lower (COMPANY_NAME s)))
               (selected_scrapers all_scrapers scraper_name))
      ++ filter is_log_insert (trace w).
Proof.
  intros Hsel H. rewrite trigger_ingestion_selected in H by assumption.
  minv0.
  - match goal with H : for_each _ _ _ = _ |- _ =>
      apply for_each_trigger_scraper in H; destruct H as (_ & Hd & Ht) end.
    eexists. split; [reflexivity|]. split; [|exact Ht].
    rewrite Hd, dom_empty_L. apply (left_id_L ∅ (∪)).
  - match goal with H : for_each _ _ _ = _ |- _ =>
      apply for_each_trigger_scraper in H; destruct H as (? & _) end.
    discriminate.
Qed.

Lemma trigger_ingestion_returns service all_scrapers scraper_name w :
  exists r w', trigger_ingestion service all_scrapers scraper_name w = (Ok r, w').
Proof.
  destruct (trigger_ingestion service all_scrapers scraper_name w) as [r w'] eqn:E.
  destruct (decide (selected_scrapers all_scrapers scraper_name = [])) as [Hs|Hs].
  - unfold trigger_ingestion, selected_scrapers in *.
    destruct scraper_name as [name|];
      [destruct (truthy_str name && bool_decide (lower name <> "all"))|].
    + rewrite Hs in E. simpl in E. minv0. eauto.
    + rewrite Hs in E. simpl in E. minv0. eauto.
    + rewrite Hs in E. simpl in E. minv0. eauto.
  - destruct (trigger_ingestion_run _ _ _ _ _ _ Hs E) as (? & -> & _).
    eauto.
Qed.

(** The loop over the scrapers is the sequence of their runs. *)
Lemma for_each_trigger_scraper_reports service scrapers m w :
  for_each scrapers (trigger_scraper service) (m, w)
  = (Ok tt, reports service scrapers m w).
Proof.
  revert m w. induction scrapers as [|scraper rest IH]; intros m w; [reflexivity|].
  cbn [for_each reports].
  destruct (trigger_scraper service scraper (m, w)) as [r [m1 w1]] eqn:E.
  pose proof E as E'. apply trigger_scraper_inv in E'. destruct E' as (-> & -> & ->).
  erewrite bind_ok by exact E. rewrite IH. unfold report.
  destruct (fst (ingest_jobs service scraper w)); reflexivity.
Qed.

(** X1: once its services are built, the scheduler's
    [trigger_ingestion] never raises, whatever name it is given and
    whatever the scrapers, the store and the models do.  With ASCII
    names, what it returns is this: for a name that selects no scraper,
    the status "Scraper '<name>' not found", nothing having been done;
    otherwise the results of the runs of [ingest_jobs] for the selected
    scrapers, one after the other, which keep for each source the stats
    of its run if it returned and the text of its exception if it
    raised. *)
Theorem trigger_ingestion_reports_every_run service all_scrapers scraper_name w :
  exists r w',
    trigger_ingestion service all_scrapers scraper_name w = (Ok r, w') /\
    (ascii_names all_scrapers scraper_name = true ->
     match r with
     | ScraperNotFound msg =>
         w' = w /\
         selected_scrapers all_scrapers scraper_name = [] /\
         exists name,
           scraper_name = Some name /\ msg = "Scraper '" +:+ name +:+ "' not found"
     | Results results =>
         (results, w')
         = reports service (selected_scrapers all_scrapers scraper_name) ∅ w
     end).
Proof.
  unfold trigger_ingestion, selected_scrapers.
  destruct scraper_name as [name|].
  - destruct (truthy_str name && bool_decide (lower name <> "all")).
    + destruct (filter _ all_scrapers) as [|scraper rest] eqn:Hsel.
      * eexists _, _. split; [reflexivity|]. intros _. cbn. eauto.
      * cbn [truthy_list]. unfold bind at 1. unfold ret at 1. cbv beta iota.
        unfold with_local. unfold bind at 1.
        rewrite for_each_trigger_scraper_reports.
        eexists _, _. split; [reflexivity|]. intros _.
        destruct (reports service (scraper :: rest) ∅ w). reflexivity.
    + unfold bind at 1. unfold ret at 1. cbv beta iota.
      unfold with_local. unfold bind at 1.
      rewrite for_each_trigger_scraper_reports.
      eexists _, _. split; [reflexivity|]. intros _.
      destruct (reports service all_scrapers ∅ w). reflexivity.
  - unfold bind at 1. unfold ret at 1. cbv beta iota.
    unfold with_local. unfold bind at 1.
    rewrite for_each_trigger_scraper_reports.
    eexists _, _. split; [reflexivity|]. intros _.
    destruct (reports service all_scrapers ∅ w). reflexivity.
Qed.

Lemma trigger_ingestion_reports_every_run_witness :
  ascii_names (get_all_scrapers busy_sites) (Some "pwc") = true /\
  exists results w',
    trigger_ingestion demo_service (get_all_scrapers busy_sites) (Some "pwc")
                      store_down_world
    = (Ok (Results results), w') /\
    results = {["pwc" := SourceError "boom"]}.
Proof.
  assert (ascii_names (get_all_scrapers busy_sites) (Some "pwc") = true) as Hascii
    by reflexivity.
  split; [exact Hascii|].
  destruct (trigger_ingestion_reports_every_run demo_service
              (get_all_scrapers busy_sites) (Some "pwc") store_down_world)
    as (r & w' & Hrun & Hreports).
  specialize (Hreports Hascii).
  destruct r as [msg|results].
  - destruct Hreports as (_ & Hnone & _). vm_compute in Hnone. discriminate.
  - exists results, w'. split; [exact Hrun|].
    assert (fst (reports demo_service
                   (selected_scrapers (get_all_scrapers busy_sites) (Some "pwc"))
                   ∅ store_down_world) = {["pwc" := SourceError "boom"]}) as Hfst
      by (vm_compute; reflexivity).
    rewrite <- Hreports in Hfst. exact Hfst.
Defined.

(** A run that raises the key error of a posting without its company
    name is reported with the text of that exception. *)
Example trigger_ingestion_reports_key_error :
  fst (trigger_ingestion demo_service [demo_scraper (Ok [nameless_posting])] None
                         healthy_world)
  = Ok (Results {["pwc" := SourceError "'company_name'"]}).
Proof. vm_compute. reflexivity. Qed.

(** X2: with ASCII names, when the name selects at least one scraper,
    [trigger_ingestion] begins a run for every selected scraper, in
    order, also after one of them failed: the results have exactly one
    entry per selected source name, and the run made exactly one call to
    insert a scraping-log row per selected scraper, in their order, and
    none for any other source. *)
Theorem trigger_ingestion_attempts_every_source service all_scrapers scraper_name w :
  ascii_names all_scrapers scraper_name = true ->
  selected_scrapers all_scrapers scraper_name <> [] ->
  exists results w',
    trigger_ingestion service all_scrapers scraper_name w = (Ok (Results results), w') /\
    dom results
    = list_to_set (map (fun s => lower (COMPANY_NAME s))
                       (selected_scrapers all_scrapers scraper_name)) /\
    filter is_log_insert (trace w')
    = rev (map (fun s => EvInsertLog (lower (COMPANY_NAME s)))
               (selected_scrapers all_scrapers scraper_name))
      ++ filter is_log_insert (trace w).
Proof.
  intros _ Hsel.
  destruct (trigger_ingestion service all_scrapers scraper_name w) as [r w'] eqn:E.
  destruct (trigger_ingestion_run _ _ _ _ _ _ Hsel E) as (results & -> & Hd & Ht).
  eauto.
Qed.

Lemma trigger_ingestion_attempts_every_source_witness :
  ascii_names (get_all_scrapers busy_sites) (Some "PwC") = true /\
  selected_scrapers (get_all_scrapers busy_sites) (Some "PwC") <> [] /\
  exists results w',
    trigger_ingestion demo_service (get_all_scrapers busy_sites) (Some "PwC")
                      healthy_world
    = (Ok (Results results), w') /\
    dom results = {["pwc"]} /\
    filter is_log_insert (trace w') = [EvInsertLog "pwc"].
Proof.
  assert (ascii_names (get_all_scrapers busy_sites) (Some "PwC") = true) as Hascii
    by reflexivity.
  assert (selected_scrapers (get_all_scrapers busy_sites) (Some "PwC") <> [])
    as Hsel by (vm_compute; discriminate).
  split; [exact Hascii|]. split; [exact Hsel|].
  destruct (trigger_ingestion_attempts_every_source demo_service
              (get_all_scrapers busy_sites) (Some "PwC") healthy_world Hascii Hsel)
    as (results & w' & Hrun & Hdom & Htrace).
  exists results, w'. split; [exact Hrun|]. split.
  - rewrite Hdom. vm_compute. reflexivity.
  - rewrite Htrace. vm_compute. reflexivity.
Defined.

(** X3: with ASCII names, a name that is not empty, is not "all" in any
    case, and is the name of no scraper makes [trigger_ingestion] return
    the status "Scraper '<name>' not found", with the name as it was
    given, without touching the store or calling anything outside. *)
Theorem trigger_ingestion_unknown_source service all_scrapers name w :
  ascii_names all_scrapers (Some name) = true ->
  name <> "" ->
  lower name <> "all" ->
  Forall (fun s => lower (COMPANY_NAME s) <> lower name) all_scrapers ->
  trigger_ingestion service all_scrapers (Some name) w
  = (Ok (ScraperNotFound ("Scraper '" +:+ name +:+ "' not found")), w).
Proof.
  intros _ Hn Hall Hnone. unfold trigger_ingestion.
  assert (truthy_str name && bool_decide (lower name <> "all") = true) as ->.
  { apply andb_true_iff. split; apply bool_decide_eq_true; assumption. }
  rewrite (filter_none (fun s => lower (COMPANY_NAME s) = lower name)).
  - reflexivity.
  - intros s Hs. rewrite Forall_forall in Hnone. apply Hnone. assumption.
Qed.

Lemma trigger_ingestion_unknown_source_witness :
  ascii_names (get_all_scrapers busy_sites) (Some "accenture") = true /\
  trigger_ingestion demo_service (get_all_scrapers busy_sites) (Some "accenture")
                    healthy_world
  = (Ok (ScraperNotFound "Scraper 'accenture' not found"), healthy_world).
Proof.
  split; [reflexivity|].
  apply (trigger_ingestion_unknown_source demo_service (get_all_scrapers busy_sites)
           "accenture" healthy_world).
  - reflexivity.
  - discriminate.
  - vm_compute. discriminate.
  - repeat constructor; vm_compute; discriminate.
Defined.

Lemma lower_empty s : lower s = "" <-> s = "".
Proof. destruct s; simpl; split; congruence. Qed.

(** X4: [trigger_ingestion] matches the scraper name without regard to
    case: two names equal in lower case that select a scraper give the
    same run, with the same results and the same effects. *)
Theorem trigger_ingestion_ignores_case service all_scrapers a b w :
  lower a = lower b ->
  selected_scrapers all_scrapers (Some a) <> [] ->
  trigger_ingestion service all_scrapers (Some a) w
  = trigger_ingestion service all_scrapers (Some b) w.
Proof.
  intros Hab Hsel.
  assert (selected_scrapers all_scrapers (Some b)
          = selected_scrapers all_scrapers (Some a)) as Hs.
  { unfold selected_scrapers. rewrite Hab.
    replace (truthy_str a) with (truthy_str b); [reflexivity|].
    unfold truthy_str. apply bool_decide_ext.
    rewrite <- (lower_empty a), <- (lower_empty b), Hab. reflexivity. }
  rewrite !trigger_ingestion_selected; rewrite ?Hs; auto.
Qed.

Lemma trigger_ingestion_ignores_case_witness :
  lower "PWC" = lower "pwc" /\
  trigger_ingestion demo_service (get_all_scrapers busy_sites) (Some "PWC") healthy_world
  = trigger_ingestion demo_service (get_all_scrapers busy_sites) (Some "pwc") healthy_world.
Proof.
  split; [reflexivity|].
  apply (trigger_ingestion_ignores_case demo_service (get_all_scrapers busy_sites)
           "PWC" "pwc" healthy_world).
  - reflexivity.
  - vm_compute. discriminate.
Defined.

(** ** The scheduler: run_daily_ingestion *)

Lemma liftL_inv {L W A} (m : M L A) (l : L) (w : W) r s' :
  liftL m (l, w) = (r, s') -> exists l', m l = (r, l') /\ s' = (l', w).
Proof.
  unfold liftL. simpl. destruct (m l) as [r0 l0]. intros H. inversion H. eauto.
Qed.

Lemma liftL_run {L W A} (m : M L A) (l : L) (w : W) r l' :
  m l = (r, l') -> liftL m (l, w) = (r, (l', w)).
Proof. unfold liftL. simpl. intros ->. reflexivity. Qed.

(** The release never raises. *)
Lemma release_cron_lock_returns lock_name db :
  exists db', _release_cron_lock lock_name db = (Ok tt, db').
Proof.
  unfold _release_cron_lock, try_except, update_locked_until.
  destruct db; eauto.
Qed.


Lemma trigger_ingestion_all_log_inserts service all_scrapers w :
  filter is_log_insert
    (trace (snd (trigger_ingestion service all_scrapers (Some "all") w)))
  = rev (map (fun s => EvInsertLog (lower (COMPANY_NAME s))) all_scrapers)
    ++ filter is_log_insert (trace w).
Proof.
  destruct (trigger_ingestion service all_scrapers (Some "all") w) as [r w'] eqn:E.
  unfold trigger_ingestion in E. simpl in E. minv0.
  all: match goal with H : for_each _ _ _ = _ |- _ =>
         apply for_each_trigger_scraper in H; destruct H as (? & _ & Ht) end.
  all: exact Ht.
Qed.

(** With the lock in hand the task is the run over all scrapers
    followed by the release. *)
Lemma run_daily_ingestion_acquired now service all_scrapers db db1 w :
  _acquire_cron_lock now "daily_ingestion" db = (Ok true, db1) ->
  run_daily_ingestion now service all_scrapers (db, w)
  = (Ok tt,
     (snd (_release_cron_lock "daily_ingestion" db1),
      snd (trigger_ingestion service all_scrapers (Some "all") w))).
Proof.
  intros Ha. unfold run_daily_ingestion.
  erewrite bind_ok by (apply liftL_run; exact Ha).
  cbn [negb]. unfold try_finally.
  destruct (trigger_ingestion_returns service all_scrapers (Some "all") w)
    as (r & w1 & Ht).
  erewrite bind_ok by (apply liftW_run; exact Ht).
  unfold ret at 1.
  destruct (release_cron_lock_returns "daily_ingestion" db1) as (db2 & Hr).
  erewrite liftL_run by exact Hr.
  rewrite Hr, Ht. reflexivity.
Qed.

(** X5: when the lock is not acquired, [run_daily_ingestion] returns
    without scraping anything and without releasing the lock: the store
    and the trace are as they were, and the lock table is as the attempt
    left it. *)
Theorem run_daily_ingestion_skips_without_lock now service all_scrapers db db1 w :
  _acquire_cron_lock now "daily_ingestion" db = (Ok false, db1) ->
  run_daily_ingestion now service all_scrapers (db, w) = (Ok tt, (db1, w)).
Proof.
  intros Ha. unfold run_daily_ingestion.
  erewrite bind_ok by (apply liftL_run; exact Ha).
  reflexivity.
Qed.

Lemma run_daily_ingestion_skips_without_lock_witness :
  _acquire_cron_lock 1000%Z "daily_ingestion" held_lock = (Ok false, held_lock) /\
  run_daily_ingestion 1000%Z demo_service (get_all_scrapers busy_sites)
                      (held_lock, healthy_world)
  = (Ok tt, (held_lock, healthy_world)).
Proof.
  assert (_acquire_cron_lock 1000%Z "daily_ingestion" held_lock = (Ok false, held_lock))
    as Ha by (vm_compute; reflexivity).
  split; [exact Ha|].
  apply (run_daily_ingestion_skips_without_lock 1000%Z demo_service
           (get_all_scrapers busy_sites) held_lock held_lock healthy_world Ha).
Defined.



(** X7: when the lock call itself raises (no lock table, store
    unreachable), [run_daily_ingestion] proceeds as if it held the lock:
    it returns and has run every registered scraper once. *)
Theorem run_daily_ingestion_fails_open now service all_scrapers db e db1 w :
  acquire_cron_lock_rpc now "daily_ingestion" _LOCK_TTL_MINUTES db = (Raise e, db1) ->
  exists db2 w',
    run_daily_ingestion now service all_scrapers (db, w) = (Ok tt, (db2, w')) /\
    filter is_log_insert (trace w')
    = rev (map (fun s => EvInsertLog (lower (COMPANY_NAME s))) all_scrapers)
      ++ filter is_log_insert (trace w).
Proof.
  intros Hrpc.
  assert (_acquire_cron_lock now "daily_ingestion" db = (Ok true, db1)) as Ha.
  { unfold _acquire_cron_lock, try_except. erewrite bind_raise by exact Hrpc.
    reflexivity. }
  rewrite (run_daily_ingestion_acquired _ _ _ _ _ _ Ha).
  do 2 eexists. split; [reflexivity|].
  apply trigger_ingestion_all_log_inserts.
Qed.

Lemma run_daily_ingestion_fails_open_witness :
  exists db2 w',
    run_daily_ingestion 1000%Z demo_service (get_all_scrapers busy_sites)
                        (None, healthy_world)
    = (Ok tt, (db2, w')) /\
    filter is_log_insert (trace w')
    = [EvInsertLog "ey"; EvInsertLog "kpmg"; EvInsertLog "pwc"; EvInsertLog "deloitte"].
Proof.
  apply (run_daily_ingestion_fails_open 1000%Z demo_service
           (get_all_scrapers busy_sites) None
           (APIError "relation cron_locks does not exist") None healthy_world).
  reflexivity.
Defined.

(** ** EnrichmentService.enrich_jobs_batch *)

Lemma enrich_job_get_jobs self job_id w :
  filter is_get_job (trace (snd (enrich_job self job_id w)))
  = EvGetJob job_id :: filter is_get_job (trace w).
Proof.
  destruct (enrich_job self job_id w) as [r w'] eqn:E.
  unfold enrich_job, get_job, ai_generate, emb_encode, update_job in E.
  minv0.
  all: reflexivity.
Qed.

Lemma for_each_enrich_job self job_ids w :
  exists w',
    for_each job_ids (enrich_job self) w = (Ok tt, w') /\
    filter is_get_job (trace w')
    = rev (map EvGetJob job_ids) ++ filter is_get_job (trace w).
Proof.
  revert w. induction job_ids as [|job_id job_ids IH]; intros w; simpl.
  - eexists. split; reflexivity.
  - destruct (enrich_job_returns self job_id w) as (w1 & H1).
    destruct (IH w1) as (w2 & H2 & Ht).
    exists w2. split.
    + erewrite bind_ok by exact H1. exact H2.
    + rewrite Ht, <- app_assoc. simpl.
      replace w1 with (snd (enrich_job self job_id w)) by (rewrite H1; reflexivity).
      rewrite enrich_job_get_jobs. reflexivity.
Qed.

(** X8: [enrich_jobs_batch] never raises and returns the placeholder
    batch id; it fetches the record of every given id exactly once, in
    the order given, also after the enrichment of an earlier id failed. *)
Theorem enrich_jobs_batch_visits_every_id self job_ids w :
  exists w',
    enrich_jobs_batch self job_ids w = (Ok "batch_stub_sequential", w') /\
    filter is_get_job (trace w')
    = rev (map EvGetJob job_ids) ++ filter is_get_job (trace w).
Proof.
  destruct (for_each_enrich_job self job_ids w) as (w' & H & Ht).
  exists w'. split; [|exact Ht].
  unfold enrich_jobs_batch. erewrite bind_ok by exact H. reflexivity.
Qed.

(** ** The scraper registry and the ingestion route *)

Lemma registry_lookup sites source_name :
  filter (fun s => lower (COMPANY_NAME s) = lower source_name) (get_all_scrapers sites)
  = option_list (dict_get (lower source_name) (_SCRAPER_REGISTRY sites)).
Proof.
  unfold get_all_scrapers, _SCRAPER_REGISTRY. cbn [map snd dict_get].
  generalize (lower source_name). intros key.
  repeat (rewrite filter_cons;
          cbn [COMPANY_NAME DeloitteAdapter PwCAdapter KPMGAdapter EYAdapter]).
  rewrite filter_nil.
  change (lower "Deloitte") with "deloitte". change (lower "PwC") with "pwc".
  change (lower "KPMG") with "kpmg". change (lower "EY") with "ey".
  repeat (destruct (decide (_ = key)) as [<-|?]; try reflexivity).
Qed.

(** X9: the keys of the scraper registry are the lower-cased company
    names of the adapters: for an ASCII name, [get_scraper] returns an
    adapter exactly when one adapter of [get_all_scrapers] has that name
    without regard to case, and it is that adapter; otherwise it raises
    a [ValueError]. *)
Theorem scraper_registry_names_agree {Σ} sites source_name (s : Σ) :
  is_ascii source_name = true ->
  (exists cls,
     filter (fun c => lower (COMPANY_NAME c) = lower source_name)
            (get_all_scrapers sites) = [cls] /\
     get_scraper sites source_name s = (Ok cls, s)) \/
  (filter (fun c => lower (COMPANY_NAME c) = lower source_name)
          (get_all_scrapers sites) = [] /\
   exists msg, get_scraper sites source_name s = (Raise (ValueError msg), s)).
Proof.
  intros _. rewrite registry_lookup. unfold get_scraper.
  destruct (dict_get _ _) as [cls|]; [left|right]; simpl; eauto.
Qed.

Lemma scraper_registry_names_agree_witness :
  is_ascii "KPMG" = true /\
  filter (fun c => lower (COMPANY_NAME c) = lower "KPMG") (get_all_scrapers busy_sites)
  = [KPMGAdapter busy_sites] /\
  get_scraper busy_sites "KPMG" tt = (Ok (KPMGAdapter busy_sites), tt).
Proof.
  split; [reflexivity|].
  destruct (scraper_registry_names_agree busy_sites "KPMG" tt eq_refl)
    as [(cls & Hfilter & Hget)|(Hfilter & _)].
  - assert (get_scraper busy_sites "KPMG" tt = (Ok (KPMGAdapter busy_sites), tt)) as Hk
      by reflexivity.
    rewrite Hk in Hget. injection Hget as <-. split; [exact Hfilter|reflexivity].
  - apply (f_equal length) in Hfilter. vm_compute in Hfilter. discriminate.
Defined.

Lemma get_scraper_inv {Σ} sites source_name (s : Σ) r s' :
  get_scraper sites source_name s = (r, s') ->
  s' = s /\
  match dict_get (lower source_name) (_SCRAPER_REGISTRY sites) with
  | Some cls => r = Ok cls
  | None => exists msg, r = Raise (ValueError msg)
  end.
Proof.
  unfold get_scraper. destruct (dict_get _ _); intros H; inversion H; eauto.
Qed.

Lemma registry_lookup_none sites source_name :
  Forall (fun c => lower (COMPANY_NAME c) <> lower source_name) (get_all_scrapers sites) ->
  dict_get (lower source_name) (_SCRAPER_REGISTRY sites) = None.
Proof.
  intros Hall.
  pose proof (registry_lookup sites source_name) as Hreg.
  rewrite (filter_none (fun c => lower (COMPANY_NAME c) = lower source_name)) in Hreg.
  - destruct (dict_get _ _); [discriminate|reflexivity].
  - intros c Hc. rewrite Forall_forall in Hall. apply Hall. exact Hc.
Qed.

Lemma registry_lookup_some sites source_name scraper :
  scraper ∈ get_all_scrapers sites ->
  lower (COMPANY_NAME scraper) = lower source_name ->
  dict_get (lower source_name) (_SCRAPER_REGISTRY sites) = Some scraper.
Proof.
  intros Hin Hname.
  assert (scraper ∈ filter (fun c => lower (COMPANY_NAME c) = lower source_name)
                          (get_all_scrapers sites)) as Hf
    by (apply list_elem_of_filter; auto).
  rewrite registry_lookup in Hf.
  destruct (dict_get _ _) as [cls|]; simpl in Hf.
  - apply list_elem_of_singleton in Hf. congruence.
  - inversion Hf.
Qed.

Lemma route_runs_ingest_jobs sites service source_name scraper w :
  scraper ∈ get_all_scrapers sites ->
  lower (COMPANY_NAME scraper) = lower source_name ->
  IngestionRouter.trigger_ingestion sites service source_name (Some "admin") w
  = match ingest_jobs service scraper w with
    | (Ok stats, w') => (Ok (source_name, stats), w')
    | (Raise e, w') => (Raise e, w')
    end.
Proof.
  intros Hin Hname. unfold IngestionRouter.trigger_ingestion.
  rewrite bool_decide_eq_false_2 by (intros H; apply H; reflexivity).
  unfold get_scraper, IngestionRouter.try_except_only.
  rewrite (registry_lookup_some _ _ _ Hin Hname).
  unfold bind at 1. unfold ret at 1. cbv beta iota.
  unfold bind at 1. unfold ret at 1. cbv beta iota.
  unfold bind at 1.
  destruct (ingest_jobs service scraper w) as [[stats|e] w']; reflexivity.
Qed.

(** X10: the route [POST /admin/ingest/{source_name}] answers 403 to
    anyone whose role is not admin and 404 to an admin giving an ASCII
    name that is the name of no adapter, in both cases before anything
    is done; for an admin naming an adapter (in any case) it is one run
    of [ingest_jobs] for that adapter, its stats returned beside the name
    as given, and an exception of the run is let through. *)
Theorem route_trigger_ingestion_guards sites service source_name role w :
  (role <> Some "admin" ->
   IngestionRouter.trigger_ingestion sites service source_name role w
   = (Raise (IngestionRouter.HTTPException 403 "Only admins can trigger ingestion"), w)) /\
  (role = Some "admin" ->
   is_ascii source_name = true ->
   Forall (fun c => lower (COMPANY_NAME c) <> lower source_name)
          (get_all_scrapers sites) ->
   IngestionRouter.trigger_ingestion sites service source_name role w
   = (Raise (IngestionRouter.HTTPException 404
               ("Unknown source: '" +:+ source_name
                +:+ "'. Available: deloitte, pwc, kpmg, ey")), w)) /\
  (role = Some "admin" ->
   forall scraper,
     scraper ∈ get_all_scrapers sites ->
     lower (COMPANY_NAME scraper) = lower source_name ->
     IngestionRouter.trigger_ingestion sites service source_name role w
     = match ingest_jobs service scraper w with
       | (Ok stats, w') => (Ok (source_name, stats), w')
       | (Raise e, w') => (Raise e, w')
       end).
Proof.
  repeat split.
  - intros Hrole. unfold IngestionRouter.trigger_ingestion.
    rewrite bool_decide_eq_true_2 by assumption. reflexivity.
  - intros -> _ Hnone. unfold IngestionRouter.trigger_ingestion.
    rewrite bool_decide_eq_false_2 by (intros H; apply H; reflexivity).
    unfold get_scraper, IngestionRouter.try_except_only.
    rewrite registry_lookup_none by exact Hnone. reflexivity.
  - intros -> scraper Hin Hname. apply route_runs_ingest_jobs; assumption.
Qed.

Lemma route_trigger_ingestion_guards_witness :
  IngestionRouter.trigger_ingestion busy_sites demo_service "pwc" (Some "user")
                                    healthy_world
  = (Raise (IngestionRouter.HTTPException 403 "Only admins can trigger ingestion"),
     healthy_world) /\
  IngestionRouter.trigger_ingestion busy_sites demo_service "accenture" (Some "admin")
                                    healthy_world
  = (Raise (IngestionRouter.HTTPException 404
              "Unknown source: 'accenture'. Available: deloitte, pwc, kpmg, ey"),
     healthy_world).
Proof.
  destruct (route_trigger_ingestion_guards busy_sites demo_service "pwc" (Some "user")
              healthy_world) as (Hforbidden & _).
  destruct (route_trigger_ingestion_guards busy_sites demo_service "accenture"
              (Some "admin") healthy_world) as (_ & Hunknown & _).
  split.
  - apply Hforbidden. discriminate.
  - apply Hunknown; [reflexivity|reflexivity|].
    repeat constructor; vm_compute; discriminate.
Defined.

(** ** The re-enrichment sweep, beyond its counters *)

Lemma reenrich_one_failed enricher job c w :
  exists c' w',
    reenrich_one enricher job (c, w) = (Ok tt, (c', w')) /\
    fst c' + snd c' = fst c + snd c + 1 /\
    snd c' <= snd c + length (filter stuck_processing [job]).
Proof.
  destruct (reenrich_one enricher job (c, w)) as [r [c' w']] eqn:E.
  unfold reenrich_one in E.
  rewrite filter_cons, filter_nil. unfold stuck_processing.
  minv; try match goal with
            | He : enrich_job _ _ _ = (Raise _, _) |- _ =>
                apply enrich_job_inv in He; discriminate
            end.
  all: eexists _, _; (split; [reflexivity|]).
  all: simpl; destruct (decide _); simpl; try contradiction; lia.
Qed.

Lemma filter_length_cons {A} (P : A -> Prop) `{!forall x, Decision (P x)} x (l : list A) :
  length (filter P (x :: l)) = length (filter P [x]) + length (filter P l).
Proof. change (x :: l) with ([x] ++ l). rewrite filter_app, length_app. reflexivity. Qed.

Lemma for_each_reenrich_failed enricher batch c w :
  exists c' w',
    for_each batch (reenrich_one enricher) (c, w) = (Ok tt, (c', w')) /\
    fst c' + snd c' = fst c + snd c + length batch /\
    snd c' <= snd c + length (filter stuck_processing batch).
Proof.
  revert c w. induction batch as [|job rest IH]; intros c w.
  - exists c, w. simpl. split; [reflexivity|]. lia.
  - destruct (reenrich_one_failed enricher job c w) as (c1 & w1 & H1 & Hc1 & Hf1).
    destruct (IH c1 w1) as (c' & w' & H2 & Hc' & Hf').
    exists c', w'. cbn [for_each]. erewrite bind_ok by exact H1.
    split; [exact H2|]. rewrite filter_length_cons. simpl length at 1. lia.
Qed.

Lemma reenrich_batch_failed enricher unenriched batch_start c w :
  exists c' w',
    reenrich_batch enricher unenriched batch_start (c, w) = (Ok tt, (c', w')) /\
    fst c' + snd c'
    = fst c + snd c + length (take BATCH_SIZE (drop batch_start unenriched)) /\
    snd c' <= snd c
              + length (filter stuck_processing
                          (take BATCH_SIZE (drop batch_start unenriched))).
Proof.
  unfold reenrich_batch.
  destruct (for_each_reenrich_failed enricher
              (take BATCH_SIZE (drop batch_start unenriched)) c w)
    as (c1 & w1 & H1 & Hc1).
  erewrite bind_ok by exact H1.
  destruct (decide _); eexists _, _; (split; [reflexivity|]); exact Hc1.
Qed.

Lemma for_each_batches_failed enricher unenriched starts c w :
  exists c' w',
    for_each starts (reenrich_batch enricher unenriched) (c, w)
      = (Ok tt, (c', w')) /\
    fst c' + snd c'
    = fst c + snd c
      + sum_list_with (fun s => length (take BATCH_SIZE (drop s unenriched))) starts /\
    snd c' <= snd c
      + sum_list_with
          (fun s => length (filter stuck_processing
                              (take BATCH_SIZE (drop s unenriched)))) starts.
Proof.
  revert c w. induction starts as [|s rest IH]; intros c w.
  - exists c, w. simpl. split; [reflexivity|lia].
  - destruct (reenrich_batch_failed enricher unenriched s c w)
      as (c1 & w1 & H1 & Hc1 & Hf1).
    destruct (IH c1 w1) as (c' & w' & H2 & Hc' & Hf').
    exists c', w'. cbn [for_each]. erewrite bind_ok by exact H1.
    split; [exact H2|]. simpl. lia.
Qed.

(** The first [m] batches are the first [m * BATCH_SIZE] jobs. *)
Lemma batches_concat {A} (l : list A) (m : nat) :
  concat (map (fun s => take BATCH_SIZE (drop s l))
              (map (fun k => k * BATCH_SIZE) (seq 0 m)))
  = take (m * BATCH_SIZE) l.
Proof.
  induction m as [|m IH]; [reflexivity|].
  rewrite seq_S, !map_app, concat_app, IH. cbn [map concat Nat.add].
  rewrite app_nil_r, take_take_drop. f_equal. unfold BATCH_SIZE. lia.
Qed.

(** The batches, end to end, are the list. *)
Lemma range_step_concat {A} (l : list A) :
  concat (map (fun s => take BATCH_SIZE (drop s l))
              (range_step (length l) BATCH_SIZE)) = l.
Proof.
  unfold range_step. rewrite batches_concat. apply take_ge.
  unfold BATCH_SIZE.
  pose proof (Nat.div_mod_eq (length l + 3 - 1) 3).
  pose proof (Nat.mod_upper_bound (length l + 3 - 1) 3). lia.
Qed.

Lemma sum_list_with_concat {A} (g : list A -> nat) (ls : list (list A)) :
  g [] = 0 -> (forall a b, g (a ++ b) = g a + g b) ->
  sum_list_with g ls = g (concat ls).
Proof.
  intros H0 Happ. induction ls as [|l ls IH]; simpl; [congruence|].
  rewrite Happ, IH. reflexivity.
Qed.

Lemma sum_list_with_map {A B} (f : A -> B) (g : B -> nat) (l : list A) :
  sum_list_with g (map f l) = sum_list_with (fun x => g (f x)) l.
Proof. induction l as [|x l IH]; simpl; congruence. Qed.

(** X11: when the listing of the jobs answers, the re-enrichment sweep
    returns, counts every job that needs enrichment once, as a success or
    as a failure, and counts as failures at most the jobs whose row was
    at "processing": only the status repair can fail an iteration. *)
Theorem reenrich_failed_counts_only_status_repairs ai emb w :
  fault_at 0 w = None ->
  exists success failed w',
    _reenrich_unenriched_jobs ai emb w = (Ok (success, failed), w') /\
    success + failed = length (filter needs_enrichment (jobs w)) /\
    failed <= length (filter stuck_processing (filter needs_enrichment (jobs w))).
Proof.
  intros H0. unfold _reenrich_unenriched_jobs, select_jobs.
  unfold bind at 1. unfold bind at 1. rewrite call_ok_at by assumption.
  unfold gets at 1. unfold with_local.
  change (jobs (ticked EvSelectJobs w)) with (jobs w).
  destruct (for_each_batches_failed {| _ai := ai; _emb := emb |}
              (filter needs_enrichment (jobs w))
              (range_step (length (filter needs_enrichment (jobs w))) BATCH_SIZE)
              (0, 0) (ticked EvSelectJobs w))
    as ([success failed] & w' & Hloop & Hsum & Hfailed).
  erewrite bind_ok by exact Hloop.
  exists success, failed, w'. split; [reflexivity|].
  rewrite range_step_cover in Hsum. simpl in Hsum. split; [lia|].
  rewrite <- (sum_list_with_map
                (fun s => take BATCH_SIZE (drop s (filter needs_enrichment (jobs w))))
                (fun b => length (filter stuck_processing b))) in Hfailed.
  rewrite (sum_list_with_concat (fun b => length (filter stuck_processing b)))
    in Hfailed.
  - rewrite range_step_concat in Hfailed. simpl in Hfailed. lia.
  - reflexivity.
  - intros a b. rewrite filter_app, length_app. reflexivity.
Qed.

Lemma reenrich_failed_counts_only_status_repairs_witness :
  fault_at 0 four_stuck_world = None /\
  exists w',
    _reenrich_unenriched_jobs demo_ai demo_emb four_stuck_world = (Ok (4, 0), w').
Proof.
  split; [reflexivity|].
  destruct (reenrich_failed_counts_only_status_repairs demo_ai demo_emb
              four_stuck_world eq_refl) as (success & failed & w' & Hrun & Hsum & Hfailed).
  exists w'. rewrite Hrun.
  assert (fst (_reenrich_unenriched_jobs demo_ai demo_emb four_stuck_world)
          = Ok (4, 0)) as Hfst by (vm_compute; reflexivity).
  rewrite Hrun in Hfst. simpl in Hfst. rewrite Hfst. reflexivity.
Defined.

(** A patch of a row among [ids] is invisible outside [ids]. *)
Lemma rows_outside_patch ids job_id data js :
  job_id ∈ ids ->
  rows_outside ids
    (map (fun j => if decide (j_id j = job_id) then apply_patch data j else j) js)
  = rows_outside ids js.
Proof.
  intros Hin. unfold rows_outside. rewrite map_map. apply map_ext. intros j.
  destruct (decide (j_id j = job_id)) as [<-|Hne]; [|reflexivity].
  simpl. rewrite !decide_True by assumption. reflexivity.
Qed.

Lemma reenrich_one_rows_outside ids enricher job :
  j_id job ∈ ids ->
  preserves (fun s : (nat * nat) * World => rows_outside ids (jobs (snd s)))
            (reenrich_one enricher job).
Proof.
  intros Hin.
  unfold reenrich_one, enrich_job, get_job, ai_generate, emb_encode, update_job.
  frame.
  all: simpl; apply rows_outside_patch; assumption.
Qed.

Lemma preserves_for_each_Forall {Σ A X} (f : Σ -> X) (P : A -> Prop) (xs : list A) body :
  (forall x, P x -> preserves f (body x)) -> Forall P xs ->
  preserves f (for_each xs body).
Proof.
  intros Hb Hxs. induction Hxs as [|x xs Hx Hxs IH]; simpl.
  - apply preserves_ret.
  - apply preserves_bind; auto.
Qed.

Lemma reenrich_batch_rows_outside ids enricher unenriched batch_start :
  Forall (fun j => j_id j ∈ ids) unenriched ->
  preserves (fun s : (nat * nat) * World => rows_outside ids (jobs (snd s)))
            (reenrich_batch enricher unenriched batch_start).
Proof.
  intros Hall. unfold reenrich_batch. apply preserves_bind.
  - apply (preserves_for_each_Forall _ (fun j => j_id j ∈ ids)).
    + intros j Hj. apply reenrich_one_rows_outside. assumption.
    + apply Forall_take, Forall_drop. assumption.
  - intros _. frame.
Qed.

(** The sweep touches the rows it selected, and no other. *)
Lemma reenrich_rows_outside ai emb w :
  rows_outside (map j_id (filter needs_enrichment (jobs w)))
    (jobs (snd (_reenrich_unenriched_jobs ai emb w)))
  = rows_outside (map j_id (filter needs_enrichment (jobs w))) (jobs w).
Proof.
  set (ids := map j_id (filter needs_enrichment (jobs w))).
  unfold _reenrich_unenriched_jobs, select_jobs.
  unfold bind at 1. unfold bind at 1.
  destruct (call EvSelectJobs w) as [[[]|e] w1] eqn:E; apply call_inv in E; subst w1;
    [|reflexivity].
  unfold gets at 1. cbv beta iota.
  change (jobs (ticked EvSelectJobs w)) with (jobs w).
  rewrite (preserves_with_local (fun w => rows_outside ids (jobs w))); [reflexivity|].
  apply preserves_bind; [|intros ?; apply preserves_get_local].
  apply preserves_for_each. intros s.
  apply reenrich_batch_rows_outside.
  apply Forall_forall. intros j Hj. unfold ids.
  apply list_elem_of_fmap. exists j. auto.
Qed.

Lemma NoDup_map_inj {A B} (f : A -> B) (l : list A) x y :
  NoDup (map f l) -> x ∈ l -> y ∈ l -> f x = f y -> x = y.
Proof.
  induction l as [|a l IH]; intros Hnd Hx Hy Hf; [inversion Hx|].
  simpl in Hnd. apply NoDup_cons in Hnd. destruct Hnd as [Hna Hnd].
  apply elem_of_cons in Hx. apply elem_of_cons in Hy.
  destruct Hx as [->|Hx], Hy as [->|Hy]; auto.
  - exfalso. apply Hna. rewrite Hf. apply list_elem_of_fmap. eauto.
  - exfalso. apply Hna. rewrite <- Hf. apply list_elem_of_fmap. eauto.
Qed.

(** X12: with distinct job ids, the re-enrichment sweep leaves every
    row that has its three enrichment fields exactly as it was, whatever
    fails during the sweep; no row is added or removed. *)
Theorem reenrich_leaves_enriched_rows ai emb w :
  NoDup (map j_id (jobs w)) ->
  Forall2 (fun j j' => needs_enrichment j = false -> j' = j)
          (jobs w) (jobs (snd (_reenrich_unenriched_jobs ai emb w))).
Proof.
  intros Hnd. pose proof (reenrich_rows_outside ai emb w) as Hout.
  set (ids := map j_id (filter needs_enrichment (jobs w))) in *.
  assert (forall j, j ∈ jobs w -> needs_enrichment j = false -> j_id j ∉ ids) as Hids.
  { intros j Hj Hne Hin. unfold ids in Hin.
    apply list_elem_of_fmap in Hin. destruct Hin as (c & Hid & Hc).
    apply list_elem_of_filter in Hc. destruct Hc as [Hc Hcin].
    assert (j = c) by (eapply NoDup_map_inj; eauto). subst c.
    rewrite Hne in Hc. exact Hc. }
  clearbody ids.
  revert Hout Hids. generalize (jobs (snd (_reenrich_unenriched_jobs ai emb w))).
  generalize (jobs w). clear.
  intros l. induction l as [|j l IH]; intros [|j' l'] Hout Hids; try discriminate.
  - constructor.
  - simpl in Hout. injection Hout as Hj Hl. constructor.
    + intros Hne. specialize (Hids j (list_elem_of_here _ _) Hne).
      rewrite (decide_False (P := j_id j ∈ ids)) in Hj by assumption.
      destruct (decide (j_id j' ∈ ids)); congruence.
    + apply IH; [assumption|]. intros x Hx. apply Hids. apply list_elem_of_further.
      assumption.
Qed.

Lemma reenrich_leaves_enriched_rows_witness :
  NoDup (map j_id (jobs donor_world)) /\
  jobs (snd (_reenrich_unenriched_jobs demo_ai demo_emb donor_world)) = [donor_row].
Proof.
  assert (NoDup (map j_id (jobs donor_world))) as Hnd
    by (repeat constructor; vm_compute; inversion 1).
  split; [exact Hnd|].
  pose proof (reenrich_leaves_enriched_rows demo_ai demo_emb donor_world Hnd) as H.
  change (jobs donor_world) with [donor_row] in H.
  apply Forall2_cons_inv_l in H. destruct H as (j' & l' & Hrow & Hrest & ->).
  apply Forall2_nil_inv_l in Hrest. subst l'.
  rewrite Hrow by (vm_compute; reflexivity). reflexivity.
Defined.

Lemma reenrich_one_sleeps enricher job :
  preserves (fun s : (nat * nat) * World => filter is_sleep (trace (snd s)))
            (reenrich_one enricher job).
Proof.
  unfold reenrich_one, enrich_job, get_job, ai_generate, emb_encode, update_job.
  frame.
Qed.

(** A batch pauses once if jobs remain after it, else not at all. *)
Lemma reenrich_batch_sleeps enricher unenriched batch_start c w :
  exists c' w',
    reenrich_batch enricher unenriched batch_start (c, w) = (Ok tt, (c', w')) /\
    filter is_sleep (trace w')
    = (if decide (batch_start + BATCH_SIZE < length unenriched)
       then [EvSleep BATCH_DELAY_SECS] else [])
      ++ filter is_sleep (trace w).
Proof.
  unfold reenrich_batch.
  destruct (for_each_reenrich_counts enricher
              (take BATCH_SIZE (drop batch_start unenriched)) c w)
    as (c1 & w1 & H1 & _).
  pose proof (preserves_for_each
                (fun s : (nat * nat) * World => filter is_sleep (trace (snd s)))
                (take BATCH_SIZE (drop batch_start unenriched))
                (reenrich_one enricher) (reenrich_one_sleeps enricher) (c, w)) as Hp.
  rewrite H1 in Hp. simpl in Hp.
  erewrite bind_ok by exact H1.
  destruct (decide _); eexists _, _; (split; [reflexivity|]); simpl;
    rewrite <- Hp; reflexivity.
Qed.

Lemma for_each_batches_sleeps enricher unenriched starts c w :
  exists c' w',
    for_each starts (reenrich_batch enricher unenriched) (c, w)
      = (Ok tt, (c', w')) /\
    filter is_sleep (trace w')
    = repeat (EvSleep BATCH_DELAY_SECS)
             (length (filter (fun s => s + BATCH_SIZE < length unenriched) starts))
      ++ filter is_sleep (trace w).
Proof.
  revert c w. induction starts as [|s rest IH]; intros c w.
  - exists c, w. split; reflexivity.
  - destruct (reenrich_batch_sleeps enricher unenriched s c w)
      as (c1 & w1 & H1 & Ht1).
    destruct (IH c1 w1) as (c' & w' & H2 & Ht').
    exists c', w'. cbn [for_each]. erewrite bind_ok by exact H1.
    split; [exact H2|]. rewrite Ht', Ht1, filter_cons.
    destruct (decide (s + BATCH_SIZE < length unenriched)); [|reflexivity].
    cbn [length]. rewrite app_assoc. f_equal.
    change [EvSleep BATCH_DELAY_SECS] with (repeat (EvSleep BATCH_DELAY_SECS) 1).
    rewrite <- repeat_app. f_equal. lia.
Qed.

(** Of the first [m] batch starts, those followed by more jobs. *)
Lemma pauses_count (n m : nat) :
  length (filter (fun s => s + BATCH_SIZE < n)
                 (map (fun k => k * BATCH_SIZE) (seq 0 m)))
  = Nat.min m ((n + BATCH_SIZE - 1) / BATCH_SIZE - 1).
Proof.
  unfold BATCH_SIZE.
  pose proof (Nat.div_mod_eq (n + 3 - 1) 3).
  pose proof (Nat.mod_upper_bound (n + 3 - 1) 3).
  induction m as [|m IH]; [reflexivity|].
  rewrite seq_S, map_app, filter_app, length_app, IH. cbn [map Nat.add].
  rewrite filter_cons, filter_nil.
  destruct (decide _); cbn [length]; lia.
Qed.

(** X13: when the listing of the jobs answers, the re-enrichment sweep
    sleeps [BATCH_DELAY_SECS] once between two consecutive batches of
    [BATCH_SIZE] jobs and not after the last: one pause fewer than there
    are batches, none when nothing needs enrichment. *)
Theorem reenrich_pauses_between_batches ai emb w :
  fault_at 0 w = None ->
  filter is_sleep (trace (snd (_reenrich_unenriched_jobs ai emb w)))
  = repeat (EvSleep BATCH_DELAY_SECS)
      ((length (filter needs_enrichment (jobs w)) + BATCH_SIZE - 1) / BATCH_SIZE - 1)
    ++ filter is_sleep (trace w).
Proof.
  intros H0. unfold _reenrich_unenriched_jobs, select_jobs.
  unfold bind at 1. unfold bind at 1. rewrite call_ok_at by assumption.
  unfold gets at 1. unfold with_local.
  change (jobs (ticked EvSelectJobs w)) with (jobs w).
  destruct (for_each_batches_sleeps {| _ai := ai; _emb := emb |}
              (filter needs_enrichment (jobs w))
              (range_step (length (filter needs_enrichment (jobs w))) BATCH_SIZE)
              (0, 0) (ticked EvSelectJobs w))
    as (c' & w' & Hloop & Hsleeps).
  erewrite bind_ok by exact Hloop. simpl.
  rewrite Hsleeps. unfold range_step at 1. rewrite pauses_count.
  rewrite Nat.min_r by lia. reflexivity.
Qed.

Lemma reenrich_pauses_between_batches_witness :
  fault_at 0 four_stuck_world = None /\
  filter is_sleep (trace (snd (_reenrich_unenriched_jobs demo_ai demo_emb four_stuck_world)))
  = [EvSleep 3].
Proof.
  split; [reflexivity|].
  exact (reenrich_pauses_between_batches demo_ai demo_emb four_stuck_world eq_refl).
Defined.

(** ** What enrich_job writes *)

Lemma Forall2_map_self {A} (R : A -> A -> Prop) (f : A -> A) (l : list A) :
  (forall x, x ∈ l -> R x (f x)) -> Forall2 R l (map f l).
Proof.
  induction l as [|x l IH]; intros H; simpl; constructor.
  - apply H. apply list_elem_of_here.
  - apply IH. intros y Hy. apply H. apply list_elem_of_further. assumption.
Qed.

Lemma Forall2_same {A} (R : A -> A -> Prop) (l : list A) :
  (forall x, R x x) -> Forall2 R l l.
Proof. intros H. induction l; constructor; auto. Qed.

(** X14: whatever happens, [enrich_job] leaves every other row as it
    was, changes no column of the row of the given id outside the
    enrichment columns (identity, title, description, hash and status
    stay), and keeps skills that were already there. *)
Theorem enrich_job_touches_only_enrichment self job_id w :
  Forall2 (fun j j' =>
             columns_outside_enrichment j' = columns_outside_enrichment j /\
             (j_id j <> job_id -> j' = j) /\
             (truthy_opt_list (j_skills_required j) = true ->
              j_skills_required j' = j_skills_required j))
          (jobs w) (jobs (snd (enrich_job self job_id w))).
Proof.
  destruct (enrich_job_cases self job_id w) as (w' & -> & H). simpl.
  destruct H as [[-> _]|(job & Hrow & _ & [->| ->])];
    try (apply Forall2_same; auto).
  apply Forall2_map_self. intros j Hj.
  destruct (decide (j_id j = job_id)) as [Hid|Hid]; [|auto].
  assert (j ∈ filter (fun j => j_id j = job_id) (jobs w)) as Hin
    by (apply list_elem_of_filter; auto).
  rewrite Hrow in Hin. apply list_elem_of_singleton in Hin. subst j.
  split; [reflexivity|]. split; [congruence|].
  intros Hsk. simpl.
  destruct (j_skills_required job) as [[|s l]|]; try discriminate. reflexivity.
Qed.

Lemma filter_id_patched job_id data js :
  filter (fun j => j_id j = job_id)
    (map (fun j => if decide (j_id j = job_id) then apply_patch data j else j) js)
  = map (apply_patch data) (filter (fun j => j_id j = job_id) js).
Proof.
  induction js as [|j js IH]; [reflexivity|].
  cbn [map]. rewrite !filter_cons.
  destruct (decide (j_id j = job_id)) as [Hid|Hid].
  - rewrite decide_True by exact Hid. cbn [map]. rewrite IH. reflexivity.
  - rewrite decide_False by exact Hid. exact IH.
Qed.

(** X15: when the record fetch, the generation call, the embedding
    call and the write all answer and one row has the given id,
    [enrich_job] returns and that row carries the generated resume guide
    and preparation questions, the embedding of its description, the
    estimated salary range, and its own skills if it had any, the
    extracted ones otherwise. *)
Theorem enrich_job_success self job w :
  fault_at 0 w = None -> fault_at 1 w = None ->
  fault_at 2 w = None -> fault_at 3 w = None ->
  filter (fun j => j_id j = j_id job) (jobs w) = [job] ->
  let skills := default [] (j_skills_required job) in
  let enrichment :=
    generate_enrichment (_ai self) (S (clock w)) (j_description_raw job) skills
                        (j_title job) (j_company_name job) in
  let embedding := encode (_emb self) (S (S (clock w))) (j_description_raw job) in
  exists w' job',
    enrich_job self (j_id job) w = (Ok tt, w') /\
    filter (fun j => j_id j = j_id job) (jobs w') = [job'] /\
    j_resume_guide_generated job' = Some (resume_guide enrichment) /\
    j_prep_guide_generated job' = Some (prep_questions enrichment) /\
    j_embedding job' = Some embedding /\
    j_salary_range job' = estimated_salary_range enrichment /\
    j_skills_required job'
    = Some (if truthy_list skills then skills else extracted_skills enrichment).
Proof.
  intros H0 H1 H2 H3 Hrow skills enrichment embedding.
  rewrite (enrich_job_ok self job w H0 H1 H2 H3 Hrow).
  eexists _, _. split; [reflexivity|].
  unfold enriched_world. cbn [jobs set_jobs ticked].
  rewrite filter_id_patched, Hrow. cbn [map].
  split; [reflexivity|]. repeat split.
Qed.

Lemma enrich_job_success_witness :
  exists w' job',
    enrich_job demo_enricher 1 one_stuck_world = (Ok tt, w') /\
    filter (fun j => j_id j = 1) (jobs w') = [job'] /\
    j_embedding job' = Some [2%Z; 15%Z] /\
    j_salary_range job' = Some "$100k - $150k" /\
    j_skills_required job' = Some ["sql"; "python"].
Proof.
  destruct (enrich_job_success demo_enricher (stuck_row 1 "a1" "Audit associate")
              one_stuck_world eq_refl eq_refl eq_refl eq_refl eq_refl)
    as (w' & job' & Hrun & Hrow & _ & _ & Hemb & Hsal & Hsk).
  exists w', job'. split; [exact Hrun|]. split; [exact Hrow|].
  split; [exact Hemb|]. split; [exact Hsal|exact Hsk].
Defined.

(** ** ingest_jobs: the key error and the rows added *)

Lemma ingest_posting_missing_key self job_data s :
  ~ has_identity job_data ->
  exists key,
    ingest_posting self job_data s = (Raise (KeyError key), s) /\
    (key = "company_name" \/ key = "external_id").
Proof.
  unfold has_identity, ingest_posting. intros Hno.
  destruct (rp_company_name job_data) as [c|] eqn:Hc.
  - destruct (rp_external_id job_data) as [x|] eqn:Hx.
    + exfalso. apply Hno. split; eauto.
    + exists "external_id". split; [reflexivity|auto].
  - exists "company_name". split; [reflexivity|auto].
Qed.

(** The posting loop lets that key error out. *)
Lemma for_each_posting_raises self raw_jobs s :
  ~ Forall has_identity raw_jobs ->
  exists key s',
    for_each raw_jobs (ingest_posting self) s = (Raise (KeyError key), s') /\
    (key = "company_name" \/ key = "external_id") /\
    scraping_logs (snd s') = scraping_logs (snd s) /\
    filter is_log_update (trace (snd s')) = filter is_log_update (trace (snd s)).
Proof.
  revert s. induction raw_jobs as [|job_data rest IH]; intros s Hno.
  - exfalso. apply Hno. constructor.
  - cbn [for_each]. destruct (decide (has_identity job_data)) as [Hid|Hid].
    + destruct (ingest_posting_returns self job_data s Hid) as (s1 & H1).
      destruct (IH s1) as (key & s' & H2 & Hkey & Hlogs & Htrace).
      { intros Hall. apply Hno. constructor; assumption. }
      exists key, s'. erewrite bind_ok by exact H1.
      split; [exact H2|]. split; [exact Hkey|].
      pose proof (ingest_posting_logs id self job_data s) as Hl.
      pose proof (ingest_posting_log_updates self job_data s) as Ht.
      rewrite H1 in Hl, Ht. simpl in Hl, Ht. unfold id in Hl.
      split; congruence.
    + destruct (ingest_posting_missing_key self job_data s Hid) as (key & H1 & Hkey).
      exists key, s. erewrite bind_raise by exact H1. auto.
Qed.

(** X16: when the fetch returns a list in which some posting lacks its
    company name or its external id, and the log insert answers,
    [ingest_jobs] raises the [KeyError] of that key; the scraping-log row
    of the run stays at "running", since no update of the log is
    attempted. *)
Theorem ingest_jobs_missing_key_aborts self scraper raw_jobs w :
  fetch_jobs scraper = Ok raw_jobs ->
  ~ Forall has_identity raw_jobs ->
  fault_at 0 w = None ->
  exists key w',
    ingest_jobs self scraper w = (Raise (KeyError key), w') /\
    (key = "company_name" \/ key = "external_id") /\
    scraping_logs w'
    = scraping_logs w
      ++ [inserted_log (lower (COMPANY_NAME scraper)) "running" (clock w) w] /\
    filter is_log_update (trace w') = filter is_log_update (trace w).
Proof.
  intros Hfetch Hno H0. unfold ingest_jobs, datetime_now.
  unfold bind at 1. unfold gets at 1. cbv beta iota.
  erewrite bind_ok by (apply insert_scraping_log_ok; exact H0).
  unfold with_local, ingest_from_fetch.
  set (w1 := log_inserted_world _ _ _ w).
  set (log_id := l_id _).
  unfold bind at 1. unfold try_except at 1.
  unfold bind at 1. erewrite liftW_run
    by (unfold scraper_fetch; rewrite Hfetch; reflexivity).
  unfold bind at 1. unfold modify_local at 1. cbv beta iota. unfold ret at 1.
  cbv beta iota. cbn [fst snd].
  destruct (for_each_posting_raises self raw_jobs
              (set_fetched (length raw_jobs) stats0, fetched_world scraper w1) Hno)
    as (key & [st' w'] & Hloop & Hkey & Hlogs & Htrace).
  erewrite bind_raise by exact Hloop.
  exists key, w'. split; [reflexivity|]. split; [exact Hkey|].
  simpl in Hlogs, Htrace. split; assumption.
Qed.

Lemma ingest_jobs_missing_key_aborts_witness :
  exists w',
    ingest_jobs demo_service
      (demo_scraper (Ok [demo_posting "a1" "Audit"; nameless_posting])) healthy_world
    = (Raise (KeyError "company_name"), w') /\
    map l_status (scraping_logs w') = ["running"].
Proof.
  destruct (ingest_jobs_missing_key_aborts demo_service
              (demo_scraper (Ok [demo_posting "a1" "Audit"; nameless_posting]))
              [demo_posting "a1" "Audit"; nameless_posting] healthy_world eq_refl)
    as (key & w' & Hrun & Hkey & Hlogs & _).
  - intros Hall. inversion Hall as [|? ? _ Hrest]; subst.
    inversion Hrest as [|? ? [[c Hc] _] _]; subst. discriminate.
  - reflexivity.
  - exists w'. split.
    + rewrite Hrun.
      assert (fst (ingest_jobs demo_service
                     (demo_scraper (Ok [demo_posting "a1" "Audit"; nameless_posting]))
                     healthy_world) = Raise (KeyError "company_name")) as Hfst
        by (vm_compute; reflexivity).
      rewrite Hrun in Hfst. simpl in Hfst. rewrite Hfst. reflexivity.
    + rewrite Hlogs. reflexivity.
Defined.

Lemma one_more_created job_data company ext_id title w :
  rp_company_name job_data = Some company ->
  rp_external_id job_data = Some ext_id ->
  one_more (jobs w) job_data
    (jobs (created_world (posting_insert job_data company ext_id title) w)).
Proof.
  intros Hc Hx. eexists. split; [reflexivity|]. simpl. rewrite Hc, Hx. auto.
Qed.

Lemma one_more_patched js job_data js' job_id data :
  job_id = fresh_id (map j_id js) ->
  one_more js job_data js' ->
  one_more js job_data
    (map (fun j => if decide (j_id j = job_id) then apply_patch data j else j) js').
Proof.
  intros -> (row & -> & Hid & Hp & Hc & Hx).
  exists (apply_patch data row). split.
  - rewrite <- Hid. apply map_patch_fresh. exact Hid.
  - simpl. auto.
Qed.

Lemma one_more_enriched js job_data self job_id w w' r :
  job_id = fresh_id (map j_id js) ->
  one_more js job_data (jobs w) ->
  enrich_job self job_id w = (r, w') ->
  one_more js job_data (jobs w').
Proof.
  intros Hid Hone He.
  destruct (enrich_job_cases self job_id w) as (w1 & He1 & Hc).
  rewrite He in He1. injection He1 as _ <-.
  destruct Hc as [[-> _]|(job & _ & _ & [->| ->])]; auto.
  apply one_more_patched; assumption.
Qed.

(** An iteration leaves the table as it was or adds one row to it. *)
Lemma ingest_posting_appends self job_data st w r st' w' :
  ingest_posting self job_data (st, w) = (r, (st', w')) ->
  jobs w' = jobs w \/ one_more (jobs w) job_data (jobs w').
Proof.
  rewrite ingest_posting_eq. intros H. minv.
  all: try (left; reflexivity).
  all: right.
  all: match goal with
       | Hc : rp_company_name ?jd = Some ?c,
         Hx : rp_external_id ?jd = Some ?x,
         Ht : rp_title ?jd = Some ?t |- one_more (jobs ?w0) _ _ =>
           pose proof (one_more_created jd c x t
                         (ticked (EvFindByExternalId c x) w0) Hc Hx) as Hone
       end.
  all: try match goal with
       | H : enrich_job _ ?id ?w3 = (_, ?w4) |- one_more ?js ?jd _ =>
           apply (one_more_enriched js jd _ id w3 w4 _ eq_refl Hone) in H
       end.
  all: try exact Hone.
  all: try assumption.
  all: try (match goal with |- one_more ?js ?jd _ =>
              apply (one_more_patched js jd _ _ _ eq_refl) end; assumption).
Qed.

Lemma for_each_posting_appends self raw_jobs st w r st' w' :
  for_each raw_jobs (ingest_posting self) (st, w) = (r, (st', w')) ->
  exists added,
    jobs w' = jobs w ++ added /\
    length added <= length raw_jobs /\
    Forall (fun row => j_provider_id row = INGESTION_PROVIDER_ID) added.
Proof.
  revert st w. induction raw_jobs as [|job_data rest IH]; intros st w H.
  - simpl in H. minv0. exists []. rewrite app_nil_r. auto.
  - cbn [for_each] in H. apply bind_inv in H.
    destruct H as [(u & [st1 w1] & H1 & H2)|(e & H1 & _)].
    + apply ingest_posting_appends in H1. apply IH in H2.
      destruct H2 as (added & Hj & Hlen & Hall).
      destruct H1 as [H1|(row & H1 & _ & Hp & _)]; rewrite H1 in Hj.
      * exists added. split; [exact Hj|]. split; [simpl; lia|exact Hall].
      * exists (row :: added). rewrite <- app_assoc in Hj.
        split; [exact Hj|]. split; [simpl; lia|]. constructor; assumption.
    + apply ingest_posting_appends in H1.
      destruct H1 as [H1|(row & H1 & _ & Hp & _)].
      * exists []. rewrite app_nil_r. split; [exact H1|]. split; [simpl; lia|auto].
      * exists [row]. split; [exact H1|]. split; [simpl; lia|]. auto.
Qed.

(** X17: whatever happens, [ingest_jobs] only appends to the jobs
    table: the rows stored before the run keep their place and content,
    at most one row is added per fetched posting (none when the fetch
    fails), and every added row belongs to the ingestion provider. *)
Theorem ingest_jobs_only_appends self scraper w :
  exists added,
    jobs (snd (ingest_jobs self scraper w)) = jobs w ++ added /\
    length added <= match fetch_jobs scraper with
                    | Ok raw_jobs => length raw_jobs
                    | Raise _ => 0
                    end /\
    Forall (fun row => j_provider_id row = INGESTION_PROVIDER_ID) added.
Proof.
  destruct (ingest_jobs self scraper w) as [r w'] eqn:E.
  unfold ingest_jobs, ingest_from_fetch, datetime_now in E. simpl.
  minv.
  all: try match goal with H : for_each _ _ _ = _ |- _ =>
             apply for_each_posting_appends in H;
             destruct H as (added & Hj & Hlen & Hall) end.
  all: try (exists added; split; [exact Hj|]; split; [|exact Hall];
            match goal with H : _ = fetch_jobs _ |- _ => rewrite <- H end;
            exact Hlen).
  all: exists []; rewrite app_nil_r; split; [reflexivity|];
         split; [apply Nat.le_0_l|constructor].
Qed.

(** ** The experience filter *)

Lemma is_entry_level_senior re_search title experience_text :
  is_entry_level re_search title experience_text
  = negb (existsb (fun kw => str_in kw (lower title)) SENIOR_KEYWORDS).
Proof.
  unfold is_entry_level.
  destruct (existsb _ SENIOR_KEYWORDS); [reflexivity|].
  destruct (existsb _ ENTRY_LEVEL_KEYWORDS); [reflexivity|].
  repeat (destruct (re_search _ _); [reflexivity|]). reflexivity.
Qed.

(** X18: [is_entry_level] rejects a title exactly when it contains a
    senior keyword, in any case; the entry-level keywords, the
    experience text and its three patterns never change the answer. *)
Theorem is_entry_level_ignores_experience re_search title experience_text :
  is_entry_level re_search title experience_text
  = negb (existsb (fun kw => str_in kw (lower title)) SENIOR_KEYWORDS).
Proof. apply is_entry_level_senior. Qed.

(** ** BaseScraper.fetch_jobs *)

Lemma keep_entry_level_inv {Σ} re_search self job valid_jobs (s : Σ) r valid_jobs' s' :
  base_scraper.keep_entry_level re_search self job (valid_jobs, s)
  = (r, (valid_jobs', s')) ->
  s' = s /\
  ((exists e, r = Raise e /\ valid_jobs' = valid_jobs /\ ~ card_usable re_search job) \/
   (r = Ok tt /\ valid_jobs' = valid_jobs /\ card_usable re_search job /\
    card_passes re_search job = false) \/
   (exists normalized,
      r = Ok tt /\ valid_jobs' = valid_jobs ++ [normalized] /\
      card_usable re_search job /\
      card_passes re_search job = true /\
      normalised_for (base_scraper.COMPANY_NAME self)
                     (posting normalized) /\
      senior_title (posting normalized) = false)).
Proof.
  unfold base_scraper.keep_entry_level, card_usable, card_passes. intros H. minv0.
  all: split; [reflexivity|].
  - right. right. eexists. split; [reflexivity|]. split; [reflexivity|].
    split; [eauto 6|]. split; [exact Heqb|]. split.
    + unfold normalised_for. simpl. eauto 10.
    + unfold senior_title. simpl.
      rewrite is_entry_level_senior in Heqb. apply negb_true_iff in Heqb.
      exact Heqb.
  - left. eexists. split; [reflexivity|]. split; [reflexivity|].
    intros (title & Ht & Hk). simplify_eq. destruct (Hk Heqb) as [_ [? ?]].
    discriminate.
  - left. eexists. split; [reflexivity|]. split; [reflexivity|].
    intros (title & Ht & Hk). simplify_eq. destruct (Hk Heqb) as [[? ?] _].
    discriminate.
  - right. left. split; [reflexivity|]. split; [reflexivity|].
    split; [|exact Heqb].
    eexists. split; [reflexivity|]. intros Hk. congruence.
  - left. eexists. split; [reflexivity|]. split; [reflexivity|].
    intros (title & Ht & _). discriminate.
Qed.

Lemma for_each_keep_entry_level {Σ} re_search self raw_jobs valid_jobs (s : Σ)
    r valid_jobs' s' :
  for_each raw_jobs (base_scraper.keep_entry_level re_search self) (valid_jobs, s)
  = (r, (valid_jobs', s')) ->
  s' = s /\
  (exists kept,
     valid_jobs' = valid_jobs ++ kept /\
     Forall (fun job =>
               normalised_for (base_scraper.COMPANY_NAME self)
                              (posting job) /\
               senior_title (posting job) = false) kept /\
     (r = Ok tt -> length kept = length (filter (card_passes re_search) raw_jobs))) /\
  (r = Ok tt <-> Forall (card_usable re_search) raw_jobs).
Proof.
  revert valid_jobs. induction raw_jobs as [|job rest IH]; intros valid_jobs H.
  - simpl in H. minv0. split; [reflexivity|]. split.
    + exists []. rewrite app_nil_r. auto.
    + split; auto.
  - cbn [for_each] in H. apply bind_inv in H.
    destruct H as [(u & [v1 s1] & H1 & H2)|(e & H1 & ->)].
    + apply keep_entry_level_inv in H1. destruct H1 as (-> & H1).
      apply IH in H2. destruct H2 as (-> & (kept & -> & Hall & Hlen) & Hiff).
      split; [reflexivity|].
      destruct H1 as [(e & ? & _)|[(_ & -> & Hu & Hp)|(n & _ & -> & Hu & Hp & Hn)]];
        [discriminate| |].
      * split.
        -- exists kept. split; [reflexivity|]. split; [exact Hall|].
           intros Hr. rewrite filter_cons, Hp. simpl. auto.
        -- rewrite Hiff. split.
           ++ intros Hr. constructor; assumption.
           ++ intros Hr. inversion Hr. assumption.
      * split.
        -- exists (n :: kept). rewrite <- app_assoc. split; [reflexivity|].
           split; [constructor; assumption|].
           intros Hr. rewrite filter_cons, Hp. simpl. auto.
        -- rewrite Hiff. split.
           ++ intros Hr. constructor; assumption.
           ++ intros Hr. inversion Hr. assumption.
    + apply keep_entry_level_inv in H1. destruct H1 as (-> & H1).
      destruct H1 as [(e' & _ & -> & Hu)|[(? & _)|(n & ? & _)]];
        try discriminate.
      split; [reflexivity|]. split.
      * exists []. rewrite app_nil_r. split; [reflexivity|]. split; [constructor|].
        discriminate.
      * split; [discriminate|]. intros Hr. inversion Hr. contradiction.
Qed.

(** X19: [BaseScraper.fetch_jobs] never raises, whatever the crawler
    and [parse_jobs] do; every job it returns names the company of the
    scraper, carries an identity, a title and a link, has no skills, and
    has no senior keyword in its title. *)
Theorem base_scraper_fetch_jobs_contract {Σ} re_search self arun (s : Σ) :
  exists jobs,
    base_scraper.fetch_jobs re_search self arun s = (Ok jobs, s) /\
    Forall (fun job =>
              normalised_for (base_scraper.COMPANY_NAME self)
                             (posting job) /\
              senior_title (posting job) = false) jobs.
Proof.
  destruct (base_scraper.fetch_jobs re_search self arun s) as [r s'] eqn:E.
  unfold base_scraper.fetch_jobs, lift_outcome in E.
  minv0.
  all: try (exists []; split; [reflexivity|constructor]).
  all: match goal with H : for_each _ _ _ = _ |- _ =>
         apply for_each_keep_entry_level in H;
         destruct H as (Hs & (kept & Hk & Hall & _) & _) end.
  all: subst.
  all: try (eexists; split; [reflexivity|]; exact Hall).
  all: exists []; split; [reflexivity|constructor].
Qed.

Lemma base_scraper_fetch_jobs_parsed {Σ} re_search self arun html raw_jobs (s : Σ) :
  arun (base_scraper.CAREER_PAGE_URL self) = Ok (Some html) ->
  html <> "" ->
  base_scraper.parse_jobs self html = Ok raw_jobs ->
  base_scraper.fetch_jobs re_search self arun s
  = try_except
      (with_local []
         (for_each raw_jobs (base_scraper.keep_entry_level re_search self) ;;
          get_local))
      (fun _ => ret []) s.
Proof.
  intros Harun Hhtml Hparse.
  unfold base_scraper.fetch_jobs, try_except, bind, lift_outcome.
  rewrite Harun. cbn [from_option id]. unfold truthy_str.
  rewrite bool_decide_eq_true_2 by exact Hhtml. cbn [negb].
  rewrite Hparse. reflexivity.
Qed.

(** X20: when the page is fetched and parsed, [BaseScraper.fetch_jobs]
    is all or nothing: one card without a title, or one that passes the
    filter without an identity or a link, makes the result empty, the
    jobs kept before it included; otherwise the result has one job per
    card that passes the filter. *)
Theorem base_scraper_fetch_jobs_all_or_nothing {Σ} re_search self arun html raw_jobs
    (s : Σ) :
  arun (base_scraper.CAREER_PAGE_URL self) = Ok (Some html) ->
  html <> "" ->
  base_scraper.parse_jobs self html = Ok raw_jobs ->
  (~ Forall (card_usable re_search) raw_jobs ->
   base_scraper.fetch_jobs re_search self arun s = (Ok [], s)) /\
  (Forall (card_usable re_search) raw_jobs ->
   exists jobs,
     base_scraper.fetch_jobs re_search self arun s = (Ok jobs, s) /\
     length jobs = length (filter (card_passes re_search) raw_jobs)).
Proof.
  intros Harun Hhtml Hparse.
  rewrite (base_scraper_fetch_jobs_parsed _ _ _ _ _ _ Harun Hhtml Hparse).
  unfold try_except, with_local.
  destruct (bind (for_each raw_jobs (base_scraper.keep_entry_level re_search self))
                 (fun _ => get_local) ([], s)) as [r [v s']] eqn:E.
  apply bind_inv in E.
  destruct E as [(u & [v1 s1] & H1 & H2)|(e & H1 & ->)].
  - apply for_each_keep_entry_level in H1.
    destruct H1 as (-> & (kept & -> & _ & Hlen) & Hiff).
    apply get_local_inv in H2. destruct H2 as [-> H2]. injection H2 as <- <-.
    split.
    + intros Hno. exfalso. apply Hno. apply Hiff. destruct u. reflexivity.
    + intros _. eexists. split; [reflexivity|]. destruct u. apply Hlen. reflexivity.
  - apply for_each_keep_entry_level in H1.
    destruct H1 as (-> & _ & Hiff). split.
    + intros _. reflexivity.
    + intros Hall. apply Hiff in Hall. discriminate.
Qed.

Lemma base_scraper_fetch_jobs_all_or_nothing_witness :
  base_scraper.fetch_jobs never_matches (demo_base_scraper bad_cards) demo_arun tt
  = (Ok [], tt) /\
  exists jobs,
    base_scraper.fetch_jobs never_matches (demo_base_scraper good_cards) demo_arun tt
    = (Ok jobs, tt) /\
    length jobs = 1.
Proof.
  split.
  - apply (base_scraper_fetch_jobs_all_or_nothing never_matches
             (demo_base_scraper bad_cards) demo_arun "<html></html>" bad_cards tt
             eq_refl ltac:(discriminate) eq_refl).
    intros Hall. inversion Hall as [|? ? _ Hrest]; subst.
    inversion Hrest as [|? ? (t & Ht & Hk) _]; subst.
    injection Ht as <-. destruct (Hk eq_refl) as [[x Hx] _]. discriminate.
  - apply (base_scraper_fetch_jobs_all_or_nothing never_matches
             (demo_base_scraper good_cards) demo_arun "<html></html>" good_cards tt
             eq_refl ltac:(discriminate) eq_refl).
    repeat constructor; (eexists; split; [reflexivity|]);
      vm_compute; intros; try discriminate; eauto.
Defined.

(** ** PwCAdapter.fetch_jobs *)

Lemma lift_outcome_inv {Σ A} (o : Outcome A) (s : Σ) r s' :
  lift_outcome o s = (r, s') -> r = o /\ s' = s.
Proof. unfold lift_outcome. intros H. inversion H. auto. Qed.

Lemma pwc_requests_get_inv site slug t r t' :
  pwc_adapter.requests_get site slug t = (r, t') -> t' = S t.
Proof. unfold pwc_adapter.requests_get. intros H. inversion H. reflexivity. Qed.

Lemma pwc_requests_post_inv site offset t r t' :
  pwc_adapter.requests_post site offset t = (r, t') ->
  r = pwc_adapter.search site t offset /\ t' = S t.
Proof. unfold pwc_adapter.requests_post. intros H. inversion H. auto. Qed.

Ltac sinv_step :=
  match goal with
  | H : lift_outcome _ _ = (_, _) |- _ => apply lift_outcome_inv in H; destruct H
  | H : pwc_adapter.requests_get _ _ _ = (_, _) |- _ => apply pwc_requests_get_inv in H
  | H : pwc_adapter.requests_post _ _ _ = (_, _) |- _ =>
      apply pwc_requests_post_inv in H; destruct H
  | H : getitem0 ?l _ = (_, _) |- _ => destruct l eqn:?; unfold getitem0 in H
  | H : (if ?b then _ else _) _ = (_, _) |- _ => destruct b eqn:?
  | _ => minv_base
  end.
Ltac sinv := repeat (sinv_step; cbv beta in *; simplify_eq).

(** What one posting of the search does to [all_jobs], to [offset] and
    to the number of requests. *)
Lemma pwc_fetch_posting_inv re_search site job all_jobs offset t r all_jobs' offset' t' :
  pwc_adapter.fetch_posting re_search site job ((all_jobs, offset), t)
  = (r, ((all_jobs', offset'), t')) ->
  offset' = offset /\
  ((all_jobs' = all_jobs /\ t' = t) \/
   (length all_jobs < pwc_adapter.desired_count /\ t' = S t /\ r = Ok Next /\
    exists job',
      all_jobs' = all_jobs ++ [job'] /\
      normalised_for "PwC" (posting job') /\
      rp_external_id (posting job') <> Some "")).
Proof.
  unfold pwc_adapter.fetch_posting. intros H. sinv.
  all: split; [reflexivity|].
  all: try (left; split; reflexivity).
  all: right.
  all: split; [apply Nat.leb_gt in Heqb; exact Heqb|].
  all: split; [reflexivity|]; split; [reflexivity|].
  all: eexists; split; [reflexivity|].
  all: split; [unfold normalised_for; simpl; eauto 10|].
  all: simpl; intros Hid; injection Hid as Hid; rewrite Hid in Heqb0; discriminate.
Qed.

Lemma pwc_for_loop_postings re_search site job_postings all_jobs offset t r
    all_jobs' offset' t' :
  for_loop job_postings (pwc_adapter.fetch_posting re_search site)
    ((all_jobs, offset), t) = (r, ((all_jobs', offset'), t')) ->
  length all_jobs <= pwc_adapter.desired_count ->
  offset' = offset /\
  exists more,
    all_jobs' = all_jobs ++ more /\
    length all_jobs' <= pwc_adapter.desired_count /\
    t' = t + length more /\
    Forall (fun job' => normalised_for "PwC" (posting job') /\
                        rp_external_id (posting job') <> Some "") more.
Proof.
  revert all_jobs t. induction job_postings as [|job rest IH]; intros all_jobs t H Hlen.
  - simpl in H. sinv. split; [reflexivity|]. exists []. rewrite app_nil_r.
    repeat split; auto.
  - cbn [for_loop] in H. apply bind_inv in H.
    destruct H as [(flow & [[a1 o1] t1] & H1 & H2)|(e & H1 & ->)].
    + apply pwc_fetch_posting_inv in H1. destruct H1 as (-> & H1).
      assert (exists more1,
                a1 = all_jobs ++ more1 /\ length a1 <= pwc_adapter.desired_count /\
                t1 = t + length more1 /\
                Forall (fun job' => normalised_for "PwC" (posting job') /\
                                    rp_external_id (posting job') <> Some "") more1)
        as (more1 & -> & Hlen1 & -> & Hall1).
      { destruct H1 as [[-> ->]|(Hlt & -> & _ & job' & -> & Hn & Hid)].
        - exists []. rewrite app_nil_r. repeat split; auto.
        - exists [job']. rewrite length_app. simpl. repeat split; auto; lia. }
      destruct flow.
      * apply IH in H2; [|exact Hlen1].
        destruct H2 as (-> & more & -> & Hlen' & -> & Hall).
        split; [reflexivity|]. exists (more1 ++ more).
        split; [rewrite app_assoc; reflexivity|]. split; [exact Hlen'|].
        split; [rewrite length_app; lia|]. apply Forall_app. auto.
      * sinv. split; [reflexivity|]. exists more1. repeat split; auto.
    + apply pwc_fetch_posting_inv in H1. destruct H1 as (-> & H1).
      split; [reflexivity|].
      destruct H1 as [[-> ->]|(_ & _ & ? & _)]; [|discriminate].
      exists []. rewrite app_nil_r. repeat split; auto.
Qed.

Lemma pwc_fetch_page_inv re_search site page all_jobs offset t r all_jobs' offset' t' :
  pwc_adapter.fetch_page re_search site page ((all_jobs, offset), t)
  = (r, ((all_jobs', offset'), t')) ->
  length all_jobs <= pwc_adapter.desired_count ->
  exists more,
    all_jobs' = all_jobs ++ more /\
    length all_jobs' <= pwc_adapter.desired_count /\
    t' <= t + 1 + length more /\
    Forall (fun job' => normalised_for "PwC" (posting job') /\
                        rp_external_id (posting job') <> Some "") more.
Proof.
  unfold pwc_adapter.fetch_page. intros H Hlen. sinv.
  all: try match goal with H : for_loop _ _ _ = _ |- _ =>
             apply pwc_for_loop_postings in H; [|exact Hlen];
             destruct H as (Ho & more & Ha & Hl & Ht & Hall) end.
  all: simplify_eq.
  all: try (exists more; repeat split; auto; lia).
  all: exists []; rewrite app_nil_r; repeat split; auto; simpl; lia.
Qed.

Lemma pwc_for_loop_pages re_search site pages all_jobs offset t r all_jobs' offset' t' :
  for_loop pages (pwc_adapter.fetch_page re_search site) ((all_jobs, offset), t)
  = (r, ((all_jobs', offset'), t')) ->
  length all_jobs <= pwc_adapter.desired_count ->
  exists more,
    all_jobs' = all_jobs ++ more /\
    length all_jobs' <= pwc_adapter.desired_count /\
    t' <= t + length pages + length more /\
    Forall (fun job' => normalised_for "PwC" (posting job') /\
                        rp_external_id (posting job') <> Some "") more.
Proof.
  revert all_jobs offset t. induction pages as [|page rest IH];
    intros all_jobs offset t H Hlen.
  - simpl in H. sinv. exists []. rewrite app_nil_r. repeat split; auto. simpl. lia.
  - cbn [for_loop] in H. apply bind_inv in H.
    destruct H as [(flow & [[a1 o1] t1] & H1 & H2)|(e & H1 & ->)].
    + apply pwc_fetch_page_inv in H1; [|exact Hlen].
      destruct H1 as (more1 & -> & Hlen1 & Ht1 & Hall1).
      destruct flow.
      * apply IH in H2; [|exact Hlen1].
        destruct H2 as (more & -> & Hlen' & Ht' & Hall).
        exists (more1 ++ more).
        split; [rewrite app_assoc; reflexivity|]. split; [exact Hlen'|].
        split; [rewrite length_app; simpl; lia|]. apply Forall_app. auto.
      * sinv. exists more1. repeat split; auto. simpl. lia.
    + apply pwc_fetch_page_inv in H1; [|exact Hlen].
      destruct H1 as (more1 & -> & Hlen1 & Ht1 & Hall1).
      exists more1. repeat split; auto. simpl. lia.
Qed.

Lemma pwc_fetch_jobs_returns re_search site t :
  exists jobs t',
    pwc_adapter.fetch_jobs re_search site t = (Ok jobs, t') /\
    length jobs <= 7 /\
    t' <= t + 12 /\
    Forall (fun job => normalised_for "PwC" (posting job) /\
                       rp_external_id (posting job) <> Some "") jobs.
Proof.
  destruct (pwc_adapter.fetch_jobs re_search site t) as [r t'] eqn:E.
  unfold pwc_adapter.fetch_jobs in E. sinv.
  all: match goal with H : for_loop _ _ _ = _ |- _ =>
         apply pwc_for_loop_pages in H; [|simpl; unfold pwc_adapter.desired_count; lia];
         destruct H as (more & Ha & Hl & Ht & Hall) end.
  all: simpl in *; unfold pwc_adapter.desired_count in *; subst.
  - eexists _, _. split; [reflexivity|]. repeat split; auto. lia.
  - exists [], t'. split; [reflexivity|]. repeat split; auto; simpl; lia.
Qed.

(** X21: [PwCAdapter.fetch_jobs] never raises, whatever the site
    answers; it returns at most 7 jobs with at most 12 requests (5
    searches and one detail request per job), and every job names PwC,
    carries a title, a link, a description and no skills, and has an
    external id that is not empty. *)
Theorem pwc_fetch_jobs_contract re_search site t :
  exists jobs t',
    pwc_adapter.fetch_jobs re_search site t = (Ok jobs, t') /\
    length jobs <= 7 /\
    t' <= t + 12 /\
    Forall (fun job => normalised_for "PwC" (posting job) /\
                       rp_external_id (posting job) <> Some "") jobs.
Proof. apply pwc_fetch_jobs_returns. Qed.

Lemma pwc_fetch_posting_break re_search site job all_jobs offset t s' :
  pwc_adapter.fetch_posting re_search site job ((all_jobs, offset), t)
  = (Ok Break, s') ->
  pwc_adapter.desired_count <= length all_jobs.
Proof.
  unfold pwc_adapter.fetch_posting. intros H. sinv.
  apply Nat.leb_le. assumption.
Qed.

Lemma pwc_fetch_posting_empty_bullet_fields re_search site job path all_jobs offset t :
  pwc_adapter.jp_externalPath job = Some path ->
  last_segment path <> "" ->
  pwc_adapter.jp_bulletFields job = Some [] ->
  length all_jobs < pwc_adapter.desired_count ->
  pwc_adapter.fetch_posting re_search site job ((all_jobs, offset), t)
  = (Raise (IndexError "list index out of range"), ((all_jobs, offset), t)).
Proof.
  intros Hpath Hslug Hbullets Hlen.
  assert (path <> "") as Hne by (intros ->; apply Hslug; reflexivity).
  unfold pwc_adapter.fetch_posting.
  unfold bind at 1. unfold get_local at 1. cbn [fst snd].
  apply Nat.leb_gt in Hlen. rewrite Hlen.
  rewrite Hpath, Hbullets. cbn [from_option id].
  unfold truthy_str at 2. rewrite (bool_decide_eq_true_2 (path <> "")) by exact Hne.
  unfold truthy_str at 1. rewrite (bool_decide_eq_true_2 (last_segment path <> ""))
    by exact Hslug.
  cbn [negb]. reflexivity.
Qed.

(** A posting whose bullet fields are empty, met before the cap,
    ends the posting loop with its [IndexError]. *)
Lemma pwc_for_loop_raises re_search site before job after path all_jobs offset t :
  pwc_adapter.jp_externalPath job = Some path ->
  last_segment path <> "" ->
  pwc_adapter.jp_bulletFields job = Some [] ->
  length all_jobs + length before < pwc_adapter.desired_count ->
  exists e s',
    for_loop (before ++ job :: after) (pwc_adapter.fetch_posting re_search site)
      ((all_jobs, offset), t) = (Raise e, s').
Proof.
  intros Hpath Hslug Hbullets. revert all_jobs t.
  induction before as [|first before IH]; intros all_jobs t Hlen.
  - cbn [app for_loop]. erewrite bind_raise; [eauto|].
    apply pwc_fetch_posting_empty_bullet_fields with (path := path); auto.
    simpl in Hlen. lia.
  - cbn [app for_loop].
    destruct (pwc_adapter.fetch_posting re_search site first ((all_jobs, offset), t))
      as [[[|]|e] [[a1 o1] t1]] eqn:E.
    + erewrite bind_ok by exact E.
      apply pwc_fetch_posting_inv in E. destruct E as (-> & E).
      apply IH. simpl in Hlen.
      destruct E as [[-> ->]|(_ & _ & _ & job' & -> & _)];
        [|rewrite length_app; simpl]; lia.
    + apply pwc_fetch_posting_break in E. simpl in Hlen. lia.
    + erewrite bind_raise by exact E. eauto.
Qed.

(** X22: one posting of the first search page whose [bulletFields] is
    an empty list (and whose path gives a slug), met before 7 jobs are
    collected, makes [PwCAdapter.fetch_jobs] return the empty list: the
    jobs collected before it are lost. *)
Theorem pwc_fetch_jobs_empty_bullet_fields re_search site t before job after path :
  pwc_adapter.search site t 0
  = Ok {| status_code := 200;
          json := Ok {| pwc_adapter.jobPostings := Some (before ++ job :: after) |} |} ->
  length before < 7 ->
  pwc_adapter.jp_externalPath job = Some path ->
  last_segment path <> "" ->
  pwc_adapter.jp_bulletFields job = Some [] ->
  exists t', pwc_adapter.fetch_jobs re_search site t = (Ok [], t').
Proof.
  intros Hsearch Hbefore Hpath Hslug Hbullets.
  unfold pwc_adapter.fetch_jobs, with_local, try_except.
  cbn [seq for_loop].
  destruct (pwc_for_loop_raises re_search site before job after path [] 0 (S t)
              Hpath Hslug Hbullets Hbefore) as (e & [[a1 o1] t1] & Hloop).
  assert (pwc_adapter.fetch_page re_search site 0 (([], 0), t)
          = (Raise e, ((a1, o1), t1))) as Hpage.
  { unfold pwc_adapter.fetch_page.
    unfold bind at 1. unfold get_local at 1. cbn [fst snd length Nat.leb
      pwc_adapter.desired_count].
    unfold bind at 1. unfold liftW at 1. cbn [fst snd].
    unfold pwc_adapter.requests_post at 1. rewrite Hsearch.
    cbn [status_code json Nat.eqb negb].
    unfold bind at 1. unfold lift_outcome at 1.
    cbn [pwc_adapter.jobPostings from_option id].
    replace (truthy_list (before ++ job :: after)) with true
      by (destruct before; reflexivity).
    cbn [negb]. erewrite bind_raise by exact Hloop. reflexivity. }
  erewrite bind_raise.
  2:{ erewrite bind_raise by exact Hpage. reflexivity. }
  exists t1. reflexivity.
Qed.

Lemma pwc_fetch_jobs_empty_bullet_fields_witness :
  exists t', pwc_adapter.fetch_jobs never_matches unnumbered_pwc_site 0 = (Ok [], t').
Proof.
  apply (pwc_fetch_jobs_empty_bullet_fields never_matches unnumbered_pwc_site 0
           [demo_pwc_posting "Associate_1" ["1WD"]]
           (demo_pwc_posting "Associate_2" []) []
           "/job/Kolkata/Associate_2").
  - reflexivity.
  - simpl. lia.
  - reflexivity.
  - vm_compute. discriminate.
  - reflexivity.
Defined.

(** ** PwCAdapter._clean_title *)

Lemma all_chars_cons P c s : all_chars P (String c s) <-> P c /\ all_chars P s.
Proof. unfold all_chars. simpl. apply Forall_cons. Qed.

Lemma all_chars_app P s1 s2 :
  all_chars P s1 -> all_chars P s2 -> all_chars P (s1 +:+ s2).
Proof.
  intros H1 H2. induction s1 as [|c s1 IH]; [exact H2|].
  apply all_chars_cons in H1. destruct H1 as [Hc H1].
  change (String c s1 +:+ s2) with (String c (s1 +:+ s2)).
  apply all_chars_cons. auto.
Qed.

Lemma all_chars_rev_app P s1 s2 :
  all_chars P s1 -> all_chars P s2 -> all_chars P (String.rev_app s1 s2).
Proof.
  revert s2. induction s1 as [|c s1 IH]; intros s2 H1 H2; [exact H2|].
  apply all_chars_cons in H1. destruct H1 as [Hc H1]. simpl.
  apply IH; [exact H1|]. apply all_chars_cons. auto.
Qed.

Lemma all_chars_rev P s : all_chars P s -> all_chars P (String.rev s).
Proof. intros H. apply all_chars_rev_app; [exact H|constructor]. Qed.

Lemma all_chars_lstrip P s : all_chars P s -> all_chars P (lstrip s).
Proof.
  induction s as [|c s IH]; intros H; [exact H|]. simpl.
  destruct (is_space c); [|exact H].
  apply all_chars_cons in H. apply IH, H.
Qed.

Lemma all_chars_strip P s : all_chars P s -> all_chars P (strip s).
Proof.
  intros H. unfold strip, rstrip.
  apply all_chars_rev, all_chars_lstrip, all_chars_rev, all_chars_lstrip, H.
Qed.

Lemma all_chars_replace_from P old new skip s :
  all_chars P new -> all_chars P s -> all_chars P (replace_from old new skip s).
Proof.
  intros Hnew. revert skip. induction s as [|c s IH]; intros skip H; [constructor|].
  apply all_chars_cons in H. destruct H as [Hc H]. cbn [replace_from].
  destruct skip as [|k]; [|apply IH, H].
  destruct (String.prefix old (String c s)).
  - apply all_chars_app; [exact Hnew|]. apply IH, H.
  - apply all_chars_cons. split; [exact Hc|]. apply IH, H.
Qed.

Lemma replace_underscores s :
  all_chars (fun c => c <> "_"%char) (replace "_" " " s).
Proof.
  unfold replace. induction s as [|c s IH]; [constructor|].
  cbn [replace_from String.length Nat.sub].
  destruct (String.prefix "_" (String c s)) eqn:Hp.
  - apply all_chars_app; [repeat constructor; discriminate|exact IH].
  - apply all_chars_cons. split; [|exact IH].
    intros ->. cbn in Hp. destruct s; discriminate.
Qed.

Lemma cased_not_underscore c :
  c <> "_"%char -> lower_ascii c <> "_"%char /\ upper_ascii c <> "_"%char.
Proof.
  destruct c as [[] [] [] [] [] [] [] []]; intros H; split; vm_compute; congruence.
Qed.

Lemma title_from_underscores b s :
  all_chars (fun c => c <> "_"%char) s ->
  all_chars (fun c => c <> "_"%char) (title_from b s).
Proof.
  revert b. induction s as [|c s IH]; intros b H; [constructor|].
  apply all_chars_cons in H. destruct H as [Hc H]. cbn [title_from].
  apply all_chars_cons. split; [|apply IH, H].
  destruct (cased_not_underscore c Hc). destruct b; assumption.
Qed.

(** X23: a title cleaned by [PwCAdapter._clean_title] holds no
    underscore, whatever the raw title is. *)
Theorem pwc_clean_title_has_no_underscore raw :
  all_chars (fun c => c <> "_"%char) (pwc_adapter._clean_title raw).
Proof.
  unfold pwc_adapter._clean_title.
  apply all_chars_strip, all_chars_replace_from; [repeat constructor; discriminate|].
  apply title_from_underscores, replace_underscores.
Qed.

(** ** KPMGAdapter.fetch_jobs *)

Lemma kpmg_requests_get_detail_inv site job_id net r net' :
  kpmg_adapter.requests_get_detail site job_id net = (r, net') ->
  kpmg_adapter.requests net' = S (kpmg_adapter.requests net) /\
  kpmg_adapter.slept net' = kpmg_adapter.slept net.
Proof.
  unfold kpmg_adapter.requests_get_detail. intros H. inversion H. auto.
Qed.

Lemma kpmg_requests_get_search_inv site page_offset net r net' :
  kpmg_adapter.requests_get_search site page_offset net = (r, net') ->
  kpmg_adapter.requests net' = S (kpmg_adapter.requests net) /\
  kpmg_adapter.slept net' = kpmg_adapter.slept net.
Proof.
  unfold kpmg_adapter.requests_get_search. intros H. inversion H. auto.
Qed.

Lemma kpmg_time_sleep_inv secs net r net' :
  kpmg_adapter.time_sleep secs net = (r, net') ->
  r = Ok tt /\
  kpmg_adapter.requests net' = kpmg_adapter.requests net /\
  kpmg_adapter.slept net' = kpmg_adapter.slept net + secs.
Proof. unfold kpmg_adapter.time_sleep. intros H. inversion H. auto. Qed.

Ltac kinv_step :=
  match goal with
  | H : kpmg_adapter.requests_get_detail _ _ _ = (_, _) |- _ =>
      apply kpmg_requests_get_detail_inv in H; destruct H
  | H : kpmg_adapter.requests_get_search _ _ _ = (_, _) |- _ =>
      apply kpmg_requests_get_search_inv in H; destruct H
  | H : kpmg_adapter.time_sleep _ _ = (_, _) |- _ =>
      apply kpmg_time_sleep_inv in H; destruct H as (? & ? & ?)
  | _ => sinv_step
  end.
Ltac kinv := repeat (kinv_step; cbv beta in *; simplify_eq).

(** One attempt makes one request, never raises, and sleeps only when
    the request or its decoding failed. *)
Lemma kpmg_fetch_attempt_inv site job_id attempt desc_raw net r desc_raw' net' :
  kpmg_adapter.fetch_attempt site job_id attempt (desc_raw, net)
  = (r, (desc_raw', net')) ->
  (exists flow, r = Ok flow) /\
  kpmg_adapter.requests net' = S (kpmg_adapter.requests net) /\
  kpmg_adapter.slept net' <= kpmg_adapter.slept net + 2 * (attempt + 1).
Proof.
  unfold kpmg_adapter.fetch_attempt. intros H. kinv.
  all: split; [eauto|]; split; [congruence|]; lia.
Qed.

(** The retry loop never raises, makes at most one request per
    attempt, and sleeps at most [2 * (attempt + 1)] seconds after each. *)
Lemma kpmg_retry_loop site job_id attempts desc_raw net r desc_raw' net' :
  for_loop attempts (kpmg_adapter.fetch_attempt site job_id) (desc_raw, net)
  = (r, (desc_raw', net')) ->
  r = Ok tt /\
  kpmg_adapter.requests net' <= kpmg_adapter.requests net + length attempts /\
  kpmg_adapter.slept net'
  <= kpmg_adapter.slept net + sum_list_with (fun a => 2 * (a + 1)) attempts.
Proof.
  revert desc_raw net. induction attempts as [|a rest IH]; intros desc_raw net H.
  - simpl in H. kinv. simpl. repeat split; lia.
  - cbn [for_loop] in H. apply bind_inv in H.
    destruct H as [(flow & [d1 n1] & H1 & H2)|(e & H1 & ->)].
    + apply kpmg_fetch_attempt_inv in H1. destruct H1 as (_ & Hr1 & Hs1).
      destruct flow.
      * apply IH in H2. destruct H2 as (-> & Hr & Hs).
        cbn [length sum_list_with]. repeat split; lia.
      * kinv. cbn [length sum_list_with]. repeat split; lia.
    + apply kpmg_fetch_attempt_inv in H1. destruct H1 as ((flow & ?) & _).
      discriminate.
Qed.

(** What one requisition does: nothing, or three detail attempts at
    most and one job appended. *)
Lemma kpmg_fetch_requisition_inv re_search site job all_jobs net r all_jobs' net' :
  kpmg_adapter.fetch_requisition re_search site job (all_jobs, net)
  = (r, (all_jobs', net')) ->
  (exists flow, r = Ok flow /\
                (flow = Break -> kpmg_adapter.desired_count <= length all_jobs)) /\
  exists more,
    all_jobs' = all_jobs ++ more /\
    length more <= 1 /\
    (more <> [] -> length all_jobs < kpmg_adapter.desired_count) /\
    kpmg_adapter.requests net' <= kpmg_adapter.requests net + 3 * length more /\
    kpmg_adapter.slept net' <= kpmg_adapter.slept net + 12 * length more /\
    Forall kpmg_posting_ok more.
Proof.
  unfold kpmg_adapter.fetch_requisition. intros H. kinv.
  all: try match goal with H : for_loop _ _ _ = _ |- _ =>
             apply kpmg_retry_loop in H; destruct H as (Hr & Hreq & Hsl) end.
  all: try discriminate.
  all: try (split; [eexists; split; [reflexivity|]; intros ?;
                    try discriminate; apply Nat.leb_le; assumption|];
            exists []; rewrite app_nil_r; simpl; repeat split; auto; try lia;
            congruence).
  apply orb_false_iff in Heqb0. destruct Heqb0 as [Ht Hi].
  apply negb_false_iff in Ht, Hi. unfold truthy_str in Ht, Hi.
  apply bool_decide_eq_true in Ht, Hi.
  split; [eexists; split; [reflexivity|]; intros ?; discriminate|].
  eexists [_]. split; [reflexivity|]. cbn [length].
  split; [lia|]. split; [intros _; apply Nat.leb_gt; assumption|].
  cbn [length seq sum_list_with] in Hreq, Hsl.
  split; [lia|]. split; [lia|].
  constructor; [|constructor]. unfold kpmg_posting_ok. cbn [posting].
  split; [unfold normalised_for; cbn; repeat split; eauto|].
  cbn [rp_external_id rp_title rp_description_raw].
  split; [congruence|]. split; [congruence|].
  destruct (negb (truthy_str s) || (len s <? 50)) eqn:Hd.
  - discriminate.
  - apply orb_false_iff in Hd. destruct Hd as [Hd _].
    apply negb_false_iff in Hd. unfold truthy_str in Hd.
    apply bool_decide_eq_true in Hd. congruence.
Qed.

Lemma kpmg_grows_refl s : length (fst s) <= kpmg_adapter.desired_count -> kpmg_grows 0 s s.
Proof.
  intros Hlen. exists []. rewrite app_nil_r. simpl.
  repeat split; auto; lia.
Qed.

Lemma kpmg_grows_trans c1 c2 s1 s2 s3 :
  kpmg_grows c1 s1 s2 -> kpmg_grows c2 s2 s3 -> kpmg_grows (c1 + c2) s1 s3.
Proof.
  intros (m1 & E1 & L1 & R1 & S1 & F1) (m2 & E2 & L2 & R2 & S2 & F2).
  exists (m1 ++ m2). split; [rewrite E2, E1, app_assoc; reflexivity|].
  split; [exact L2|].
  rewrite length_app. split; [lia|]. split; [lia|]. apply Forall_app. auto.
Qed.

Lemma kpmg_grows_weaken c c' s s' : c <= c' -> kpmg_grows c s s' -> kpmg_grows c' s s'.
Proof.
  intros Hc (m & E & L & R & S & F). exists m. repeat split; auto; lia.
Qed.

Lemma kpmg_grows_cap c s s' :
  kpmg_grows c s s' -> length (fst s') <= kpmg_adapter.desired_count.
Proof. intros (m & E & L & _). exact L. Qed.

(** A loop whose body grows the state, grows it. *)
Lemma kpmg_for_loop_grows {A} (body : A -> M (list ScrapedJob * kpmg_adapter.Net) Flow)
    c xs :
  (forall x s r s',
     body x s = (r, s') -> length (fst s) <= kpmg_adapter.desired_count ->
     kpmg_grows c s s') ->
  forall s r s',
    for_loop xs body s = (r, s') -> length (fst s) <= kpmg_adapter.desired_count ->
    kpmg_grows (c * length xs) s s'.
Proof.
  intros Hbody. induction xs as [|x rest IH]; intros s r s' H Hlen.
  - simpl in H. kinv. apply (kpmg_grows_weaken 0); [lia|]. apply kpmg_grows_refl, Hlen.
  - cbn [for_loop] in H. apply bind_inv in H.
    destruct H as [(flow & s1 & H1 & H2)|(e & H1 & ->)].
    + apply Hbody in H1; [|exact Hlen]. destruct flow.
      * apply IH in H2; [|eapply kpmg_grows_cap; exact H1].
        eapply kpmg_grows_weaken; [|eapply kpmg_grows_trans; [exact H1|exact H2]].
        cbn [length]. lia.
      * kinv. eapply kpmg_grows_weaken; [|exact H1]. cbn [length]. lia.
    + apply Hbody in H1; [|exact Hlen].
      eapply kpmg_grows_weaken; [|exact H1]. cbn [length]. lia.
Qed.

Lemma kpmg_fetch_requisition_grows re_search site job s r s' :
  kpmg_adapter.fetch_requisition re_search site job s = (r, s') ->
  length (fst s) <= kpmg_adapter.desired_count ->
  kpmg_grows 0 s s'.
Proof.
  destruct s as [all_jobs net], s' as [all_jobs' net']. intros H Hlen.
  apply kpmg_fetch_requisition_inv in H.
  destruct H as (_ & more & -> & L & Hlt & R & S & F).
  exists more. cbn [fst snd] in *. split; [reflexivity|].
  split; [|repeat split; auto; lia].
  rewrite length_app. destruct more as [|j more]; [simpl; lia|].
  assert (length all_jobs < kpmg_adapter.desired_count) by (apply Hlt; discriminate).
  simpl in *. lia.
Qed.

Lemma kpmg_fetch_wrapper_grows re_search site wrapper s r s' :
  kpmg_adapter.fetch_wrapper re_search site wrapper s = (r, s') ->
  length (fst s) <= kpmg_adapter.desired_count ->
  kpmg_grows 0 s s'.
Proof.
  unfold kpmg_adapter.fetch_wrapper. intros H Hlen. kinv.
  all: try (apply kpmg_grows_refl; exact Hlen).
  all: match goal with H : for_loop _ _ _ = _ |- _ =>
         eapply (kpmg_for_loop_grows _ 0) in H;
         [exact H|intros; eapply kpmg_fetch_requisition_grows; eauto|exact Hlen] end.
Qed.

Lemma kpmg_fetch_page_grows re_search site page_offset s r s' :
  kpmg_adapter.fetch_page re_search site page_offset s = (r, s') ->
  length (fst s) <= kpmg_adapter.desired_count ->
  kpmg_grows 1 s s'.
Proof.
  unfold kpmg_adapter.fetch_page. intros H Hlen. kinv.
  all: try (apply (kpmg_grows_weaken 0); [lia|]; apply kpmg_grows_refl; exact Hlen).
  all: try match goal with H : for_loop _ _ _ = _ |- _ =>
         eapply (kpmg_for_loop_grows _ 0) in H;
         [|intros; eapply kpmg_fetch_wrapper_grows; eauto|exact Hlen];
         rewrite Nat.mul_0_l in H
       end.
  all: try match goal with
         | H : kpmg_grows 0 (?l, ?n1) ?s' |- kpmg_grows 1 (?l, ?n0) ?s' =>
             apply (kpmg_grows_trans 1 0 (l, n0) (l, n1)); [|exact H]
         end.
  all: exists []; rewrite app_nil_r; cbn [fst snd length] in *;
    repeat split; auto; lia.
Qed.

Lemma kpmg_fetch_jobs_returns re_search site net :
  exists jobs net',
    kpmg_adapter.fetch_jobs re_search site net = (Ok jobs, net') /\
    length jobs <= 7 /\
    kpmg_adapter.requests net' <= kpmg_adapter.requests net + 25 /\
    kpmg_adapter.slept net' <= kpmg_adapter.slept net + 84 /\
    Forall kpmg_posting_ok jobs.
Proof.
  destruct (kpmg_adapter.fetch_jobs re_search site net) as [r net'] eqn:E.
  unfold kpmg_adapter.fetch_jobs in E. kinv.
  all: match goal with H : for_loop _ _ _ = _ |- _ =>
         eapply (kpmg_for_loop_grows _ 1) in H;
         [|intros; eapply kpmg_fetch_page_grows; eauto
          |simpl; unfold kpmg_adapter.desired_count; lia];
         destruct H as (more & Ha & Hl & Hr & Hs & Hall) end.
  all: cbn [fst snd length app range_step] in Ha, Hl, Hr, Hs;
    unfold kpmg_adapter.desired_count in *; subst.
  all: eexists _, _; split; [reflexivity|].
  all: assert (length more <= 7) by (rewrite ?length_app in *; simpl in *; lia).
  all: change (length (range_step 100 25)) with 4 in Hr.
  all: repeat split; auto; simpl; lia.
Qed.

(** X24: [KPMGAdapter.fetch_jobs] never raises, whatever the site
    answers; it returns at most 7 jobs with at most 25 requests (4
    searches and 3 detail attempts per job) and at most 84 seconds of
    sleep, and every job names KPMG, has no skills, carries a link, and
    has an external id, a title and a description that are not empty. *)
Theorem kpmg_fetch_jobs_contract re_search site net :
  exists jobs net',
    kpmg_adapter.fetch_jobs re_search site net = (Ok jobs, net') /\
    length jobs <= 7 /\
    kpmg_adapter.requests net' <= kpmg_adapter.requests net + 25 /\
    kpmg_adapter.slept net' <= kpmg_adapter.slept net + 84 /\
    Forall kpmg_posting_ok jobs.
Proof. apply kpmg_fetch_jobs_returns. Qed.

(** ** DeloitteAdapter.fetch_jobs and EYAdapter.fetch_jobs *)

Lemma crawl_grows_refl company_name s :
  snd (fst s) <= 7 -> crawl_grows company_name 0 s s.
Proof.
  intros Hc. exists []. rewrite app_nil_r. simpl. repeat split; auto; lia.
Qed.

Lemma crawl_grows_trans company_name k s1 s2 s3 :
  crawl_grows company_name 0 s1 s2 -> crawl_grows company_name k s2 s3 ->
  crawl_grows company_name k s1 s3.
Proof.
  intros (m1 & E1 & C1 & L1 & T1 & F1) (m2 & E2 & C2 & L2 & T2 & F2).
  exists (m1 ++ m2). split; [rewrite E2, E1, app_assoc; reflexivity|].
  rewrite length_app. split; [lia|]. split; [exact L2|]. split; [lia|].
  apply Forall_app. auto.
Qed.

(** A loop whose body grows the state, grows it; only its last
    iteration can have asked for a page in vain. *)
Lemma crawl_for_loop_grows {A} company_name
    (body : A -> M ((list ScrapedJob * nat) * nat) Flow) xs :
  (forall x s r s',
     body x s = (r, s') -> snd (fst s) <= 7 ->
     crawl_grows company_name (wasted_pages r) s s') ->
  forall s r s',
    for_loop xs body s = (r, s') -> snd (fst s) <= 7 ->
    crawl_grows company_name (wasted_pages r) s s'.
Proof.
  intros Hbody. induction xs as [|x rest IH]; intros s r s' H Hc.
  - simpl in H. sinv. apply crawl_grows_refl, Hc.
  - cbn [for_loop] in H. apply bind_inv in H.
    destruct H as [(flow & s1 & H1 & H2)|(e & H1 & ->)].
    + apply Hbody in H1; [|exact Hc]. cbn [wasted_pages] in H1. destruct flow.
      * apply IH in H2; [|destruct H1 as (m & _ & _ & L & _); lia].
        eapply crawl_grows_trans; eassumption.
      * sinv. exact H1.
    + apply Hbody in H1; [|exact Hc]. exact H1.
Qed.

Lemma deloitte_crawler_arun_inv web url t r t' :
  deloitte_adapter.crawler_arun web url t = (r, t') -> t' = S t.
Proof. unfold deloitte_adapter.crawler_arun. intros H. inversion H. reflexivity. Qed.

Lemma ey_crawler_arun_inv web url t r t' :
  ey_adapter.crawler_arun web url t = (r, t') -> t' = S t.
Proof. unfold ey_adapter.crawler_arun. intros H. inversion H. reflexivity. Qed.

Ltac cinv_step :=
  match goal with
  | H : deloitte_adapter.crawler_arun _ _ _ = (_, _) |- _ =>
      apply deloitte_crawler_arun_inv in H
  | H : ey_adapter.crawler_arun _ _ _ = (_, _) |- _ =>
      apply ey_crawler_arun_inv in H
  | H : match ?o with Some _ => _ | None => _ end _ = (_, _) |- _ => destruct o eqn:?
  | _ => sinv_step
  end.
Ltac cinv := repeat (cinv_step; cbv beta in *; simplify_eq).

(** The detail page costs one request and always ends in a description. *)
Lemma deloitte_fetch_description_inv web job_url t r t' :
  deloitte_adapter.fetch_description web job_url t = (r, t') ->
  (exists description_raw, r = Ok description_raw) /\ t' = S t.
Proof.
  unfold deloitte_adapter.fetch_description. intros H. cinv.
  all: split; [eauto|reflexivity].
Qed.

Lemma ey_fetch_description_inv web job_url t r t' :
  ey_adapter.fetch_description web job_url t = (r, t') ->
  (exists description_raw, r = Ok description_raw) /\ t' = S t.
Proof.
  unfold ey_adapter.fetch_description. intros H. cinv.
  all: split; [eauto|reflexivity].
Qed.

Lemma deloitte_fetch_card_grows re_search web job s r s' :
  deloitte_adapter.fetch_card re_search web job s = (r, s') ->
  snd (fst s) <= 7 ->
  crawl_grows "Deloitte" (wasted_pages r) s s'.
Proof.
  unfold deloitte_adapter.fetch_card. intros H Hc. cinv.
  all: try match goal with H : deloitte_adapter.fetch_description _ _ _ = _ |- _ =>
             apply deloitte_fetch_description_inv in H; destruct H as ((d & ?) & ?) end.
  all: simplify_eq.
  all: cbn [wasted_pages].
  all: try (apply crawl_grows_refl; exact Hc).
  all: try (exists []; rewrite app_nil_r; apply Nat.leb_gt in Heqb;
            cbn [fst snd length] in *; repeat split; auto; lia).
  eexists [_]. apply Nat.leb_gt in Heqb. cbn [fst snd length] in *.
  split; [reflexivity|]. split; [reflexivity|]. split; [lia|]. split; [lia|].
  constructor; [|constructor]. split.
  - unfold normalised_for. cbn. eauto 10.
  - unfold senior_title. cbn [posting rp_title from_option].
    apply negb_false_iff in Heqb0. rewrite is_entry_level_senior in Heqb0.
    apply negb_true_iff in Heqb0. exact Heqb0.
Qed.

Lemma ey_fetch_card_grows re_search web job s r s' :
  ey_adapter.fetch_card re_search web job s = (r, s') ->
  snd (fst s) <= 7 ->
  crawl_grows "EY" (wasted_pages r) s s'.
Proof.
  unfold ey_adapter.fetch_card. intros H Hc. cinv.
  all: try match goal with H : ey_adapter.fetch_description _ _ _ = _ |- _ =>
             apply ey_fetch_description_inv in H; destruct H as ((d & ?) & ?) end.
  all: simplify_eq.
  all: cbn [wasted_pages].
  all: try (apply crawl_grows_refl; exact Hc).
  all: try (exists []; rewrite app_nil_r; apply Nat.leb_gt in Heqb;
            cbn [fst snd length] in *; repeat split; auto; lia).
  eexists [_]. apply Nat.leb_gt in Heqb. cbn [fst snd length] in *.
  split; [reflexivity|]. split; [reflexivity|]. split; [lia|]. split; [lia|].
  constructor; [|constructor]. split.
  - unfold normalised_for. cbn. eauto 10.
  - unfold senior_title. cbn [posting rp_title from_option].
    apply negb_false_iff in Heqb0. rewrite is_entry_level_senior in Heqb0.
    apply negb_true_iff in Heqb0. exact Heqb0.
Qed.

Lemma deloitte_fetch_jobs_returns re_search web t :
  exists jobs t',
    deloitte_adapter.fetch_jobs re_search web t = (Ok jobs, t') /\
    length jobs <= 7 /\
    t' <= t + 8 /\
    Forall (crawled_job_ok "Deloitte") jobs.
Proof.
  destruct (deloitte_adapter.fetch_jobs re_search web t) as [r t'] eqn:E.
  unfold deloitte_adapter.fetch_jobs in E. cinv.
  all: try (eexists _, _; split; [reflexivity|]; simpl; repeat split; auto; lia).
  all: match goal with H : for_loop _ _ _ = _ |- _ =>
         eapply (crawl_for_loop_grows "Deloitte") in H;
         [|intros; eapply deloitte_fetch_card_grows; eauto|simpl; lia];
         destruct H as (more & Hv & Hcount & Hcap & Hpages & Hall) end.
  all: cbn [fst snd app wasted_pages] in *; subst.
  all: eexists _, _; (split; [reflexivity|]); simpl; repeat split; auto; lia.
Qed.

Lemma ey_fetch_jobs_returns re_search web t :
  exists jobs t',
    ey_adapter.fetch_jobs re_search web t = (Ok jobs, t') /\
    length jobs <= 7 /\
    t' <= t + 8 /\
    Forall (crawled_job_ok "EY") jobs.
Proof.
  destruct (ey_adapter.fetch_jobs re_search web t) as [r t'] eqn:E.
  unfold ey_adapter.fetch_jobs in E. cinv.
  all: try (eexists _, _; split; [reflexivity|]; simpl; repeat split; auto; lia).
  all: match goal with H : for_loop _ _ _ = _ |- _ =>
         eapply (crawl_for_loop_grows "EY") in H;
         [|intros; eapply ey_fetch_card_grows; eauto|simpl; lia];
         destruct H as (more & Hv & Hcount & Hcap & Hpages & Hall) end.
  all: cbn [fst snd app wasted_pages] in *; subst.
  all: eexists _, _; (split; [reflexivity|]); simpl; repeat split; auto; lia.
Qed.

(** X25: [DeloitteAdapter.fetch_jobs] and [EYAdapter.fetch_jobs] never
    raise, whatever the crawler, [parse_jobs] and the detail pages do;
    each returns at most 7 jobs and asks for at most 8 pages (the search
    page and one detail page per job), and every job names the company
    of its adapter, carries an identity, a title, a link and a
    description, has no skills, and has no senior keyword in its
    title. *)
Theorem crawling_adapters_fetch_jobs_contract re_search deloitte ey t :
  (exists jobs t',
     deloitte_adapter.fetch_jobs re_search deloitte t = (Ok jobs, t') /\
     length jobs <= 7 /\
     t' <= t + 8 /\
     Forall (crawled_job_ok "Deloitte") jobs) /\
  (exists jobs t',
     ey_adapter.fetch_jobs re_search ey t = (Ok jobs, t') /\
     length jobs <= 7 /\
     t' <= t + 8 /\
     Forall (crawled_job_ok "EY") jobs).
Proof.
  split; [apply deloitte_fetch_jobs_returns|apply ey_fetch_jobs_returns].
Qed.

(** ** The registered adapters behind [ingest_jobs] *)

Lemma normalised_for_has_identity company_name job :
  normalised_for company_name job -> has_identity job.
Proof.
  intros (Hc & Hx & _). split; [rewrite Hc; eauto|exact Hx].
Qed.

(** A fetched list in which every posting has its identity keys goes
    through, with a store and models that answer, and leaves them
    answering. *)
Lemma ingest_jobs_goes_through self scraper raw_jobs w :
  fetch_jobs scraper = Ok raw_jobs ->
  Forall has_identity raw_jobs ->
  fault_free w ->
  exists stats w',
    ingest_jobs self scraper w = (Ok stats, w') /\
    fetched stats = length raw_jobs /\
    new stats + skipped stats + errors stats = length raw_jobs /\
    fault_free w'.
Proof.
  intros Hfetch Hid Hff.
  destruct (ingest_jobs_returns self scraper raw_jobs w Hfetch Hid Hff)
    as (stats & w' & Hrun).
  exists stats, w'. split; [exact Hrun|].
  destruct (ingest_jobs_fetched_inv self scraper raw_jobs w stats w' Hfetch Hrun)
    as (w3 & Hloop & ->).
  destruct (for_each_posting_returns self raw_jobs
              (set_fetched (length raw_jobs) stats0)
              (fetched_world scraper
                 (log_inserted_world (lower (COMPANY_NAME scraper)) "running"
                    (clock w) w)) Hid ltac:(auto with faults))
    as (st' & w3' & Hloop' & Hff3).
  rewrite Hloop in Hloop'. injection Hloop' as <- <-.
  apply for_each_posting_counts in Hloop. destruct Hloop as [Hc Hf].
  simpl in Hc, Hf.
  split; [exact Hf|]. split; [lia|]. auto with faults.
Qed.

(** What each registered adapter fetches, whatever its site answers. *)
Lemma registry_adapter_fetches re_search internet scraper :
  scraper ∈ get_all_scrapers (sites_of re_search internet) ->
  exists jobs,
    fetch_jobs scraper = Ok (map posting jobs) /\
    length jobs <= 7 /\
    Forall (fun job => normalised_for (COMPANY_NAME scraper) (posting job)) jobs.
Proof.
  unfold get_all_scrapers, _SCRAPER_REGISTRY. cbn [map snd].
  intros Hin. repeat (apply elem_of_cons in Hin; destruct Hin as [->|Hin]).
  - destruct (deloitte_fetch_jobs_returns re_search (deloitte_web internet)
                (deloitte_asked internet)) as (jobs & t' & H & Hlen & _ & Hall).
    exists jobs. cbn. rewrite H. split; [reflexivity|]. split; [exact Hlen|].
    eapply Forall_impl; [exact Hall|]. intros job [Hn _]. exact Hn.
  - destruct (pwc_fetch_jobs_returns re_search (pwc_web internet)
                (pwc_asked internet)) as (jobs & t' & H & Hlen & _ & Hall).
    exists jobs. cbn. rewrite H. split; [reflexivity|]. split; [exact Hlen|].
    eapply Forall_impl; [exact Hall|]. intros job [Hn _]. exact Hn.
  - destruct (kpmg_fetch_jobs_returns re_search (kpmg_web internet)
                (kpmg_net internet)) as (jobs & t' & H & Hlen & _ & _ & Hall).
    exists jobs. cbn. rewrite H. split; [reflexivity|]. split; [exact Hlen|].
    eapply Forall_impl; [exact Hall|]. intros job [Hn _]. exact Hn.
  - destruct (ey_fetch_jobs_returns re_search (ey_web internet)
                (ey_asked internet)) as (jobs & t' & H & Hlen & _ & Hall).
    exists jobs. cbn. rewrite H. split; [reflexivity|]. split; [exact Hlen|].
    eapply Forall_impl; [exact Hall|]. intros job [Hn _]. exact Hn.
  - inversion Hin.
Qed.

Lemma registry_adapter_goes_through self re_search internet scraper w :
  scraper ∈ get_all_scrapers (sites_of re_search internet) ->
  fault_free w ->
  exists stats w',
    ingest_jobs self scraper w = (Ok stats, w') /\
    stats_in_order stats /\
    fault_free w'.
Proof.
  intros Hin Hff.
  destruct (registry_adapter_fetches re_search internet scraper Hin)
    as (jobs & Hfetch & Hlen & Hall).
  destruct (ingest_jobs_goes_through self scraper (map posting jobs) w Hfetch)
    as (stats & w' & Hrun & Hf & Hc & Hff'); [|exact Hff|].
  - apply Forall_fmap. eapply Forall_impl; [exact Hall|].
    intros job Hn. eapply normalised_for_has_identity. exact Hn.
  - exists stats, w'. rewrite length_map in Hf, Hc.
    split; [exact Hrun|]. split; [|exact Hff']. unfold stats_in_order. lia.
Qed.

(** X26: whatever the four sites answer, the jobs of every registered
    adapter carry the keys [ingest_jobs] requires: with a store and
    models that answer, the route [POST /admin/ingest/{source_name}]
    called by an admin for deloitte, pwc, kpmg or ey (in any case)
    returns the stats of the run, with at most 7 postings fetched and
    each of them counted as new, skipped or error. *)
Theorem route_goes_through_for_registered_sources self re_search internet source_name w :
  lower source_name ∈ ["deloitte"; "pwc"; "kpmg"; "ey"] ->
  fault_free w ->
  exists stats w',
    IngestionRouter.trigger_ingestion (sites_of re_search internet) self source_name
                                      (Some "admin") w
    = (Ok (source_name, stats), w') /\
    stats_in_order stats.
Proof.
  intros Hname Hff.
  assert (exists scraper,
            scraper ∈ get_all_scrapers (sites_of re_search internet) /\
            lower (COMPANY_NAME scraper) = lower source_name)
    as (scraper & Hin & Hlow).
  { unfold get_all_scrapers, _SCRAPER_REGISTRY. cbn [map snd].
    repeat (apply elem_of_cons in Hname; destruct Hname as [Hname|Hname]);
      [..|inversion Hname]; rewrite Hname.
    - exists (DeloitteAdapter (sites_of re_search internet)).
      split; [|reflexivity]. repeat constructor.
    - exists (PwCAdapter (sites_of re_search internet)).
      split; [|reflexivity]. repeat constructor.
    - exists (KPMGAdapter (sites_of re_search internet)).
      split; [|reflexivity]. repeat constructor.
    - exists (EYAdapter (sites_of re_search internet)).
      split; [|reflexivity]. repeat constructor. }
  destruct (registry_adapter_goes_through self re_search internet scraper w Hin Hff)
    as (stats & w' & Hrun & Hstats & _).
  exists stats, w'. split; [|exact Hstats].
  rewrite (route_runs_ingest_jobs _ _ _ _ _ Hin Hlow), Hrun. reflexivity.
Qed.

Lemma route_goes_through_for_registered_sources_witness :
  fault_free healthy_world /\
  exists stats w',
    IngestionRouter.trigger_ingestion (sites_of never_matches demo_internet)
                                      demo_service "KPMG" (Some "admin") healthy_world
    = (Ok ("KPMG", stats), w') /\
    stats_in_order stats.
Proof.
  assert (fault_free healthy_world) as Hff by constructor.
  split; [exact Hff|].
  apply (route_goes_through_for_registered_sources demo_service never_matches
           demo_internet "KPMG" healthy_world); [|exact Hff].
  vm_compute. repeat constructor.
Defined.

(** A scheduled run over registered adapters keeps the results in order. *)
Lemma for_each_trigger_scraper_goes_through self re_search internet scrapers m w :
  Forall (fun scraper => scraper ∈ get_all_scrapers (sites_of re_search internet))
         scrapers ->
  fault_free w ->
  (forall name r, m !! name = Some r ->
                  exists stats, r = SourceStats stats /\ stats_in_order stats) ->
  exists m' w',
    for_each scrapers (trigger_scraper self) (m, w) = (Ok tt, (m', w')) /\
    fault_free w' /\
    (forall name r, m' !! name = Some r ->
                    exists stats, r = SourceStats stats /\ stats_in_order stats).
Proof.
  intros Hall. revert m w. induction Hall as [|scraper rest Hin _ IH]; intros m w Hff Hm.
  - exists m, w. auto.
  - destruct (registry_adapter_goes_through self re_search internet scraper w Hin Hff)
      as (stats & w1 & Hrun & Hstats & Hff1).
    destruct (trigger_scraper self scraper (m, w)) as [r [m1 w1']] eqn:E.
    pose proof E as E'. apply trigger_scraper_inv in E'.
    destruct E' as (-> & -> & ->). rewrite Hrun in *. cbn [fst snd] in *.
    destruct (IH (<[lower (COMPANY_NAME scraper) := SourceStats stats]> m) w1 Hff1)
      as (m' & w' & Hloop & Hff' & Hm').
    2:{ exists m', w'. cbn [for_each]. erewrite bind_ok by exact E. auto. }
    intros name r Hr. destruct (decide (lower (COMPANY_NAME scraper) = name)) as [<-|Hne].
    + rewrite lookup_insert_eq in Hr. injection Hr as <-. eauto.
    + rewrite lookup_insert_ne in Hr by exact Hne. eauto.
Qed.

(** X27: whatever the four sites answer, with a store and models that
    answer a run of the scheduler's [trigger_ingestion] over all the
    registered adapters returns results with exactly the four sources,
    each with the stats of its run and none with an error: at most 7
    postings fetched per source, each counted as new, skipped or
    error. *)
Theorem scheduled_run_reports_every_source self re_search internet w :
  fault_free w ->
  exists results w',
    trigger_ingestion self (get_all_scrapers (sites_of re_search internet)) None w
    = (Ok (Results results), w') /\
    dom results = list_to_set ["deloitte"; "pwc"; "kpmg"; "ey"] /\
    forall name r,
      results !! name = Some r ->
      exists stats, r = SourceStats stats /\ stats_in_order stats.
Proof.
  intros Hff.
  destruct (for_each_trigger_scraper_goes_through self re_search internet
              (get_all_scrapers (sites_of re_search internet)) ∅ w)
    as (results & w' & Hloop & _ & Hresults).
  - apply Forall_forall. auto.
  - exact Hff.
  - intros name r Hr. rewrite lookup_empty in Hr. discriminate.
  - exists results, w'.
    assert (trigger_ingestion self (get_all_scrapers (sites_of re_search internet))
              None w = (Ok (Results results), w')) as Hrun.
    { unfold trigger_ingestion.
      unfold bind at 1. unfold ret at 1. cbv beta iota.
      unfold with_local. unfold bind at 1. rewrite Hloop. reflexivity. }
    split; [exact Hrun|]. split; [|exact Hresults].
    apply for_each_trigger_scraper in Hloop. destruct Hloop as (_ & Hdom & _).
    rewrite Hdom, dom_empty_L. rewrite (left_id_L ∅ (∪)). reflexivity.
Qed.

Lemma scheduled_run_reports_every_source_witness :
  fault_free healthy_world /\
  exists results w',
    trigger_ingestion demo_service (get_all_scrapers (sites_of never_matches demo_internet))
                      None healthy_world
    = (Ok (Results results), w') /\
    dom results = list_to_set ["deloitte"; "pwc"; "kpmg"; "ey"].
Proof.
  assert (fault_free healthy_world) as Hff by constructor.
  split; [exact Hff|].
  destruct (scheduled_run_reports_every_source demo_service never_matches
              demo_internet healthy_world Hff) as (results & w' & Hrun & Hdom & _).
  exists results, w'. split; [exact Hrun|exact Hdom].
Defined.
